(** * Generation orchestration core of the storyboard application

    A shallow embedding of the parts of [services/geminiService.ts],
    [App.tsx] and [components/PromptDisplay.tsx] that govern the retry
    policy, the response sanitizer, the sequential generation queue and
    the prompt merge operations, together with the properties the
    specification states about them; and, after these, of the other
    operations of the service, the other handlers of [App.tsx] and the
    handlers of [components/StoryboardView.tsx] and
    [components/IdeaInput.tsx] that edit the bundle, import files and call
    the service, with properties read off the code.

    Conventions of the embedding:
    - a JavaScript string is the list of its UTF-16 code units ([list N]);
    - a value produced by [JSON.parse] is a [JSON] tree; a number keeps the
      literal it was written with, and whether it is zero is decided on
      the literal, so no floating point is involved;
    - asynchronous functions are computations in a state-and-exception
      monad over a [World] that holds the module state of the service, the
      behaviour of the upstream endpoint and the React state of the [App]
      component; running one also yields the observable actions it
      performed, in order;
    - the upstream endpoint is a function from the number of calls made so
      far to the outcome of the next call, so that every behaviour of the
      endpoint during a run is one such function;
    - a handler reads the state it closed over when it starts and updates
      the state through the setters; a run is not interleaved with other
      handlers;
    - identifiers of shots and groups are integers ([Z]);
    - where the code stores a parsed value at a TypeScript type without
      checking it, the handler takes the reading of the value at that type
      as a parameter, so that what is proved holds for every reading;
    - a callback that may show an alert returns which one it showed;
    - the text of the prompts sent upstream, the optional reference image
      of a prompt generation and console output are not modelled. *)

From Stdlib Require Import ZArith NArith String Ascii Bool DecimalString Lia.
From stdpp Require Import base option list gmap.

Local Open Scope N_scope.

(** ** JavaScript strings *)

Abbreviation jstr := (list N).

Definition ch (a : ascii) : N := N_of_ascii a.

Definition lit (s : string) : jstr := map N_of_ascii (list_ascii_of_string s).

Definition dquote : N := 34.
Definition backslash : N := 92.

(** A literal in which every apostrophe stands for a double quote, for
    writing JSON texts legibly. *)
Definition qlit (s : string) : jstr :=
  map (fun c => if c =? 39 then dquote else c) (lit s).

Fixpoint dropWhile {A} (f : A -> bool) (l : list A) : list A :=
  match l with
  | [] => []
  | x :: r => if f x then dropWhile f r else l
  end.

Fixpoint filterMap {A B} (f : A -> option B) (l : list A) : list B :=
  match l with
  | [] => []
  | x :: r =>
    match f x with
    | Some y => y :: filterMap f r
    | None => filterMap f r
    end
  end.

Fixpoint takeWhile {A} (f : A -> bool) (l : list A) : list A :=
  match l with
  | [] => []
  | x :: r => if f x then x :: takeWhile f r else []
  end.

(** WhiteSpace and LineTerminator code units, the ones
    [String.prototype.trim] removes. *)
Definition isWhiteSpace (c : N) : bool :=
  (c =? 9) || (c =? 10) || (c =? 11) || (c =? 12) || (c =? 13) || (c =? 32)
  || (c =? 160) || (c =? 5760) || ((8192 <=? c) && (c <=? 8202))
  || (c =? 8232) || (c =? 8233) || (c =? 8239) || (c =? 8287)
  || (c =? 12288) || (c =? 65279).

Definition trim (s : jstr) : jstr :=
  reverse (dropWhile isWhiteSpace (reverse (dropWhile isWhiteSpace s))).

Fixpoint startsWith (s p : jstr) {struct p} : bool :=
  match p, s with
  | [], _ => true
  | _ :: _, [] => false
  | a :: p', b :: s' => (a =? b) && startsWith s' p'
  end.

Definition endsWith (s p : jstr) : bool := startsWith (reverse s) (reverse p).

Fixpoint includes (s p : jstr) : bool :=
  startsWith s p || match s with [] => false | _ :: r => includes r p end.

(** Canonicalisation of a code unit under the [i] flag of a non-unicode
    regular expression: ASCII letters fold to upper case, and a code unit
    outside ASCII never folds into ASCII. *)
Definition canonicalize (c : N) : N :=
  if (97 <=? c) && (c <=? 122) then c - 32 else c.

Fixpoint startsWithCI (s p : jstr) {struct p} : bool :=
  match p, s with
  | [], _ => true
  | _ :: _, [] => false
  | a :: p', b :: s' => (canonicalize a =? canonicalize b) && startsWithCI s' p'
  end.

Definition fence : jstr := lit "```".

(** Replacing the first match of [/^```(json)?/i] by the empty string. *)
Definition replaceLeadingFence (s : jstr) : jstr :=
  if startsWith s fence then
    let r := drop 3 s in
    if startsWithCI r (lit "json") then drop 4 r else r
  else s.

(** Replacing the first match of [/```$/] by the empty string: without
    the [m] flag [$] is the end of input. *)
Definition replaceTrailingFence (s : jstr) : jstr :=
  if endsWith s fence then take (length s - 3) s else s.

(** [cleanJsonString] of geminiService.ts. *)
Definition cleanJsonString (text : jstr) : jstr :=
  match text with
  | [] => lit "{}"
  | _ =>
    let clean := trim text in
    if startsWith clean fence
    then replaceTrailingFence (replaceLeadingFence clean)
    else clean
  end.

(** ** JSON values and [JSON.parse] *)

#[local] Set Warnings "-register-all".

Inductive JSON : Type :=
| JNull
| JBool (b : bool)
| JNumber (lexeme : jstr)
| JString (s : jstr)
| JArray (xs : list JSON)
| JObject (ms : list (jstr * JSON)).

(** Own-property lookup and definition on the member list of an object. *)
Fixpoint objGet (ms : list (jstr * JSON)) (k : jstr) : option JSON :=
  match ms with
  | [] => None
  | (k', v) :: r => if decide (k' = k) then Some v else objGet r k
  end.

Fixpoint objSet (ms : list (jstr * JSON)) (k : jstr) (v : JSON) : list (jstr * JSON) :=
  match ms with
  | [] => [(k, v)]
  | (k', v') :: r => if decide (k' = k) then (k, v) :: r else (k', v') :: objSet r k v
  end.

Definition isJsonWs (c : N) : bool :=
  (c =? 32) || (c =? 9) || (c =? 10) || (c =? 13).

Definition isDigit (c : N) : bool := (48 <=? c) && (c <=? 57).

Definition hexVal (c : N) : option N :=
  if isDigit c then Some (c - 48)
  else if (97 <=? c) && (c <=? 102) then Some (c - 87)
  else if (65 <=? c) && (c <=? 70) then Some (c - 55)
  else None.

Definition simpleEscape (c : N) : option N :=
  if c =? dquote then Some (dquote)
  else if c =? backslash then Some (backslash)
  else if c =? ch "/" then Some (ch "/")
  else if c =? ch "b" then Some 8
  else if c =? ch "f" then Some 12
  else if c =? ch "n" then Some 10
  else if c =? ch "r" then Some 13
  else if c =? ch "t" then Some 9
  else None.

(** The characters of a string literal after its opening quote, decoded,
    and the text after the closing quote. *)
Fixpoint parseStringBody (s : jstr) : option (jstr * jstr) :=
  match s with
  | [] => None
  | c :: r =>
    if c =? dquote then Some ([], r)
    else if c =? backslash then
      match r with
      | [] => None
      | e :: r1 =>
        if e =? ch "u" then
          match r1 with
          | h1 :: h2 :: h3 :: h4 :: r2 =>
            match hexVal h1, hexVal h2, hexVal h3, hexVal h4 with
            | Some a, Some b, Some c', Some d =>
              match parseStringBody r2 with
              | Some (body, rest) => Some (((a * 16 + b) * 16 + c') * 16 + d :: body, rest)
              | None => None
              end
            | _, _, _, _ => None
            end
          | _ => None
          end
        else
          match simpleEscape e with
          | Some u =>
            match parseStringBody r1 with
            | Some (body, rest) => Some (u :: body, rest)
            | None => None
            end
          | None => None
          end
      end
    else if c <? 32 then None
    else
      match parseStringBody r with
      | Some (body, rest) => Some (c :: body, rest)
      | None => None
      end
  end.

(** A number literal: an optional minus sign, an integer part without a
    superfluous leading zero, an optional fraction and an optional
    exponent.  Returns the literal and the text after it. *)
Definition parseDigits1 (s : jstr) : option (jstr * jstr) :=
  match takeWhile isDigit s with
  | [] => None
  | ds => Some (ds, dropWhile isDigit s)
  end.

Definition parseInt (s : jstr) : option (jstr * jstr) :=
  match s with
  | c :: r =>
    if c =? ch "0" then Some ([c], r)
    else if isDigit c then Some (c :: takeWhile isDigit r, dropWhile isDigit r)
    else None
  | [] => None
  end.

Definition parseFrac (s : jstr) : option (jstr * jstr) :=
  match s with
  | c :: r =>
    if c =? ch "." then
      match parseDigits1 r with
      | Some (ds, rest) => Some (c :: ds, rest)
      | None => None
      end
    else Some ([], s)
  | [] => Some ([], s)
  end.

Definition parseExp (s : jstr) : option (jstr * jstr) :=
  match s with
  | c :: r =>
    if (c =? ch "e") || (c =? ch "E") then
      match r with
      | sg :: r1 =>
        if (sg =? ch "+") || (sg =? ch "-") then
          match parseDigits1 r1 with
          | Some (ds, rest) => Some (c :: sg :: ds, rest)
          | None => None
          end
        else
          match parseDigits1 r with
          | Some (ds, rest) => Some (c :: ds, rest)
          | None => None
          end
      | [] => None
      end
    else Some ([], s)
  | [] => Some ([], s)
  end.

Definition parseNumber (s : jstr) : option (jstr * jstr) :=
  let '(sign, s0) :=
    match s with
    | c :: r => if c =? ch "-" then ([c], r) else ([], s)
    | [] => ([], s)
    end in
  match parseInt s0 with
  | Some (i, s1) =>
    match parseFrac s1 with
    | Some (f, s2) =>
      match parseExp s2 with
      | Some (e, s3) => Some (sign ++ i ++ f ++ e, s3)
      | None => None
      end
    | None => None
    end
  | None => None
  end.

Definition parseKeyword (s : jstr) : option (JSON * jstr) :=
  if startsWith s (lit "true") then Some (JBool true, drop 4 s)
  else if startsWith s (lit "false") then Some (JBool false, drop 5 s)
  else if startsWith s (lit "null") then Some (JNull, drop 4 s)
  else None.

(** Recursive descent over the JSON grammar.  [fuel] bounds the nesting
    of calls; every call is made after at least one code unit has been
    consumed, so one more than the length of the text is always enough. *)
Fixpoint parseValue (fuel : nat) (s : jstr) : option (JSON * jstr) :=
  match fuel with
  | O => None
  | S f =>
    match dropWhile isJsonWs s with
    | [] => None
    | c :: r =>
      if c =? ch "{" then
        match dropWhile isJsonWs r with
        | [] => None
        | c1 :: r1 =>
          if c1 =? ch "}" then Some (JObject [], r1) else parseMembers f r []
        end
      else if c =? ch "[" then
        match dropWhile isJsonWs r with
        | [] => None
        | c1 :: r1 =>
          if c1 =? ch "]" then Some (JArray [], r1) else parseElements f r []
        end
      else if c =? dquote then
        match parseStringBody r with
        | Some (str, rest) => Some (JString str, rest)
        | None => None
        end
      else if (c =? ch "-") || isDigit c then
        match parseNumber (c :: r) with
        | Some (n, rest) => Some (JNumber n, rest)
        | None => None
        end
      else parseKeyword (c :: r)
    end
  end
with parseMembers (fuel : nat) (s : jstr) (acc : list (jstr * JSON)) : option (JSON * jstr) :=
  match fuel with
  | O => None
  | S f =>
    match dropWhile isJsonWs s with
    | [] => None
    | c :: r =>
      if c =? dquote then
        match parseStringBody r with
        | Some (k, r1) =>
          match dropWhile isJsonWs r1 with
          | [] => None
          | c1 :: r2 =>
            if c1 =? ch ":" then
              match parseValue f r2 with
              | Some (v, r3) =>
                match dropWhile isJsonWs r3 with
                | [] => None
                | c3 :: r4 =>
                  if c3 =? ch "," then parseMembers f r4 (objSet acc k v)
                  else if c3 =? ch "}" then Some (JObject (objSet acc k v), r4)
                  else None
                end
              | None => None
              end
            else None
          end
        | None => None
        end
      else None
    end
  end
with parseElements (fuel : nat) (s : jstr) (acc : list JSON) : option (JSON * jstr) :=
  match fuel with
  | O => None
  | S f =>
    match parseValue f s with
    | Some (v, r3) =>
      match dropWhile isJsonWs r3 with
      | [] => None
      | c3 :: r4 =>
        if c3 =? ch "," then parseElements f r4 (acc ++ [v])
        else if c3 =? ch "]" then Some (JArray (acc ++ [v]), r4)
        else None
      end
    | None => None
    end
  end.

(** ** Exceptions *)

(** A thrown value, with the fields the retry classification reads. *)
Record JsError : Type := mkJsError {
  status : option Z;
  code : option Z;
  message : option jstr
}.

(** [new Error(msg)] *)
Definition Error (msg : string) : JsError :=
  {| status := None; code := None; message := Some (lit msg) |}.

Inductive Res (A : Type) : Type :=
| Ok (a : A)
| Throw (e : JsError).
Arguments Ok {A} a.
Arguments Throw {A} e.

Definition SyntaxError : JsError := Error "SyntaxError: invalid JSON text".

Definition trimJsonWs (s : jstr) : jstr :=
  reverse (dropWhile isJsonWs (reverse (dropWhile isJsonWs s))).

(** [JSON.parse]: a JSON text is one value between optional white space. *)
Definition JSON_parse (text : jstr) : Res JSON :=
  let t := trimJsonWs text in
  match parseValue (S (length t)) t with
  | Some (v, []) => Ok v
  | _ => Throw SyntaxError
  end.

(** The value of a string of decimal digits. *)
Definition digitsValue (ds : jstr) : Z :=
  foldl (fun acc c => (acc * 10 + (Z.of_N c - 48))%Z) 0%Z ds.

(** A number literal as the digits [m] of its significand and a decimal
    exponent [e]: its absolute value is [m * 10 ^ e]. *)
Definition decodeNumber (lexeme : jstr) : Z * Z :=
  let unsigned :=
    match lexeme with
    | c :: r => if c =? ch "-" then r else lexeme
    | [] => lexeme
    end in
  let int := takeWhile isDigit unsigned in
  let afterInt := dropWhile isDigit unsigned in
  let '(frac, afterFrac) :=
    match afterInt with
    | c :: r => if c =? ch "." then (takeWhile isDigit r, dropWhile isDigit r)
                else ([], afterInt)
    | [] => ([], afterInt)
    end in
  let exponent :=
    match afterFrac with
    | _ :: sg :: r =>
      if sg =? ch "-" then (- digitsValue r)%Z
      else if sg =? ch "+" then digitsValue r
      else digitsValue (sg :: r)
    | _ => 0%Z
    end in
  (digitsValue (int ++ frac), (exponent - Z.of_nat (length frac))%Z).

(** Truthiness of a parsed value, as [!v] and [v ? _ : _] test it.  A
    number is falsy when the Number it denotes is zero: its significand
    is zero, or its absolute value is at most [2 ^ -1075], half the least
    positive Number, and so rounds to zero. *)
Definition isZeroLiteral (lexeme : jstr) : bool :=
  let '(m, e) := decodeNumber lexeme in
  (m =? 0)%Z || ((e <? 0)%Z && (m * 2 ^ 1075 <=? 10 ^ (- e))%Z).

Definition truthy (v : JSON) : bool :=
  match v with
  | JNull => false
  | JBool b => b
  | JNumber n => negb (isZeroLiteral n)
  | JString s => match s with [] => false | _ => true end
  | JArray _ => true
  | JObject _ => true
  end.

(** Truthiness of a possibly [undefined] value. *)
Definition truthyOpt (o : option JSON) : bool :=
  match o with Some v => truthy v | None => false end.

Definition decimal (n : nat) : jstr :=
  lit (NilEmpty.string_of_uint (Nat.to_uint n)).

(** The own enumerable properties an object spread [{...v}] copies. *)
Definition spread (o : option JSON) : list (jstr * JSON) :=
  match o with
  | Some (JObject ms) => ms
  | Some (JArray xs) => imap (fun i x => (decimal i, x)) xs
  | Some (JString s) => imap (fun i c => (decimal i, JString [c])) s
  | _ => []
  end.

(** [Array.prototype.slice(start, end)]: a negative index counts from the
    end of the array and both indices are clamped to the array. *)
Definition relIndex (len : nat) (k : Z) : nat :=
  if (k <? 0)%Z then Z.to_nat (Z.max (Z.of_nat len + k) 0)
  else Z.to_nat (Z.min k (Z.of_nat len)).

Definition slice {A} (l : list A) (start end_ : Z) : list A :=
  let from := relIndex (length l) start in
  let to := relIndex (length l) end_ in
  take (to - from)%nat (drop from l).

(** ** Data model (types.ts) *)

Module Shot.
Record t : Type := mk {
  id : Z;
  description : jstr;
  voiceover : jstr;
  movement : jstr
}.
End Shot.

Module Group.
Record t : Type := mk {
  id : Z;
  range : jstr;
  narrative : jstr
}.
End Group.

Module AIPromptItem.
Record t : Type := mk {
  name : jstr;
  description : jstr;
  prompt : jstr
}.
End AIPromptItem.

Module StoryboardSettings.
Record t : Type := mk {
  overview : jstr;
  style : jstr;
  characters : list AIPromptItem.t;
  scenes : list AIPromptItem.t
}.
End StoryboardSettings.

Module StoryboardData.
Record t : Type := mk {
  script : list Shot.t;
  groups : list Group.t;
  settings : StoryboardSettings.t;
  rawResponse : jstr
}.
End StoryboardData.

Inductive AppState : Type :=
| IDLE
| GENERATING_STORYBOARD
| REVIEW_STORYBOARD
| GENERATING_PROMPTS
| VIEW_PROMPTS.

Record BatchProgress : Type := mkBatchProgress {
  current : nat;
  total : nat
}.

(** ** The world of an execution *)

(** What [ai.models.generateContent] resolves to: [response.text] may be
    [undefined]. *)
Record Response : Type := mkResponse { text : option jstr }.

(** The observable actions of an execution, in the order they happen. *)
Inductive Event : Type :=
| EvGenerateContent (model : jstr)
| EvSleep (ms : Z)
| EvGeneratePromptsForGroup (groupId : Z) (groupNarrative : jstr)
    (shots : list Shot.t) (settings : StoryboardSettings.t) (modelName : jstr)
| EvSetAppState (s : AppState)
| EvSetBatchProgress (p : option BatchProgress)
| EvSetCurrentGroupId (g : option Z).

(** The React state of the [App] component. *)
Record AppSt : Type := mkAppSt {
  appState : AppState;
  storyboard : option StoryboardData.t;
  prompts : gmap Z JSON;
  currentGroupId : option Z;
  error : option jstr;
  selectedModel : jstr;
  batchProgress : option BatchProgress
}.

Record World : Type := mkWorld {
  API_KEY : option jstr;            (* process.env.API_KEY *)
  genAI : option jstr;              (* the cached client, named by its key *)
  upstream : nat -> Res Response;   (* what the n-th upstream call does *)
  ncalls : nat;                     (* upstream calls made so far *)
  app : AppSt
}.

Definition with_app (f : AppSt -> AppSt) (w : World) : World :=
  {| API_KEY := API_KEY w; genAI := genAI w; upstream := upstream w;
     ncalls := ncalls w; app := f (app w) |}.

Definition with_genAI (c : option jstr) (w : World) : World :=
  {| API_KEY := API_KEY w; genAI := c; upstream := upstream w;
     ncalls := ncalls w; app := app w |}.

Definition with_ncalls (n : nat) (w : World) : World :=
  {| API_KEY := API_KEY w; genAI := genAI w; upstream := upstream w;
     ncalls := n; app := app w |}.

Definition set_appState (s : AppState) (a : AppSt) : AppSt :=
  {| appState := s; storyboard := storyboard a; prompts := prompts a;
     currentGroupId := currentGroupId a; error := error a;
     selectedModel := selectedModel a; batchProgress := batchProgress a |}.

Definition set_prompts (p : gmap Z JSON) (a : AppSt) : AppSt :=
  {| appState := appState a; storyboard := storyboard a; prompts := p;
     currentGroupId := currentGroupId a; error := error a;
     selectedModel := selectedModel a; batchProgress := batchProgress a |}.

Definition set_currentGroupId (g : option Z) (a : AppSt) : AppSt :=
  {| appState := appState a; storyboard := storyboard a; prompts := prompts a;
     currentGroupId := g; error := error a;
     selectedModel := selectedModel a; batchProgress := batchProgress a |}.

Definition set_batchProgress (p : option BatchProgress) (a : AppSt) : AppSt :=
  {| appState := appState a; storyboard := storyboard a; prompts := prompts a;
     currentGroupId := currentGroupId a; error := error a;
     selectedModel := selectedModel a; batchProgress := p |}.

(** ** The monad of asynchronous computations *)

(** What running a computation yields: its completion, the world it
    leaves, and the actions it performed, in order. *)
Record Out (A : Type) : Type := mkOut {
  res : Res A;
  world : World;
  events : list Event
}.
Arguments mkOut {A} res world events.
Arguments res {A} o.
Arguments world {A} o.
Arguments events {A} o.

Definition M (A : Type) : Type := World -> Out A.

(** The outcome [o] after the actions [es]. *)
Definition after {A} (es : list Event) (o : Out A) : Out A :=
  mkOut (res o) (world o) (es ++ events o).

Definition ret {A} (a : A) : M A := fun w => mkOut (Ok a) w [].

Definition throw {A} (e : JsError) : M A := fun w => mkOut (Throw e) w [].

Definition bind {A B} (m : M A) (k : A -> M B) : M B :=
  fun w =>
    let o := m w in
    match res o with
    | Ok a => after (events o) (k a (world o))
    | Throw e => mkOut (Throw e) (world o) (events o)
    end.

(** [try { m } catch (e) { h e }] *)
Definition tryCatch {A} (m : M A) (h : JsError -> M A) : M A :=
  fun w =>
    let o := m w in
    match res o with
    | Ok a => o
    | Throw e => after (events o) (h e (world o))
    end.

Declare Scope js_scope.
Delimit Scope js_scope with js.
Notation "x <- m ;; k" := (bind m (fun x => k))
  (at level 100, m at next level, right associativity) : js_scope.
Notation "m ;; k" := (bind m (fun _ => k))
  (at level 100, right associativity) : js_scope.
Local Open Scope js_scope.

Definition emit (e : Event) : M unit := fun w => mkOut (Ok tt) w [e].

(** [await new Promise(r => setTimeout(r, ms))] *)
Definition sleep (ms : Z) : M unit := emit (EvSleep ms).

Definition setAppState (s : AppState) : M unit :=
  fun w => mkOut (Ok tt) (with_app (set_appState s) w) [EvSetAppState s].

Definition setBatchProgress (p : option BatchProgress) : M unit :=
  fun w => mkOut (Ok tt) (with_app (set_batchProgress p) w) [EvSetBatchProgress p].

Definition setCurrentGroupId (g : option Z) : M unit :=
  fun w => mkOut (Ok tt) (with_app (set_currentGroupId g) w) [EvSetCurrentGroupId g].

(** [setPrompts(prev => f prev)] *)
Definition setPrompts (f : gmap Z JSON -> gmap Z JSON) : M unit :=
  fun w => mkOut (Ok tt) (with_app (fun a => set_prompts (f (prompts a)) a) w) [].

(** ** services/geminiService.ts *)

(** [getAI]: the client is created once, from the API key of the
    environment; an absent or empty key is an error. *)
Definition getAI : M jstr :=
  fun w =>
    match genAI w with
    | Some client => mkOut (Ok client) w []
    | None =>
      match API_KEY w with
      | Some (c :: k) => mkOut (Ok (c :: k)) (with_genAI (Some (c :: k)) w) []
      | _ => mkOut (Throw (Error "API_KEY is not set in environment variables.")) w []
      end
    end.

(** One call of [ai.models.generateContent(params)]. *)
Definition generateContent (model : jstr) : M Response :=
  fun w =>
    mkOut (upstream w (ncalls w)) (with_ncalls (S (ncalls w)) w) [EvGenerateContent model].

(** The classification of [safeGenerateContent]: status or code 429, or a
    message that mentions 429, quota or RESOURCE_EXHAUSTED. *)
Definition isQuotaError (error : JsError) : bool :=
  bool_decide (status error = Some 429%Z)
  || bool_decide (code error = Some 429%Z)
  || match message error with
     | Some (c :: m) =>
       includes (c :: m) (lit "429")
       || includes (c :: m) (lit "quota")
       || includes (c :: m) (lit "RESOURCE_EXHAUSTED")
     | _ => false
     end.

Definition maxRetries : nat := 3.

(** The loop of [safeGenerateContent]; [n] is the number of iterations
    left, [i] the loop counter and [delay] the current back-off. *)
Fixpoint retryLoop (model : jstr) (n i : nat) (delay : Z) : M Response :=
  match n with
  | O => throw (Error "API call failed after max retries")
  | S n' =>
    tryCatch (generateContent model)
      (fun error =>
         if isQuotaError error && (i <? maxRetries)%nat then
           sleep delay ;;
           retryLoop model n' (S i) (delay * 2)%Z
         else throw error)
  end.

Definition safeGenerateContent (model : jstr) : M Response :=
  _ <- getAI ;;
  retryLoop model (maxRetries + 1) 0 2000%Z.

(** [text || "{}"] at the parse sites. *)
Definition textOrEmptyObject (t : option jstr) : jstr :=
  match t with
  | Some (c :: s) => c :: s
  | _ => lit "{}"
  end.

(** The [try { JSON.parse(cleanJsonString(..)) } catch { throw new Error(msg) }]
    block shared by the generation operations. *)
Definition parseOrThrow (msg : string) (result : Response) : M JSON :=
  match JSON_parse (cleanJsonString (textOrEmptyObject (text result))) with
  | Ok v => ret v
  | Throw _ => throw (Error msg)
  end.

Definition generateStoryboard (userIdea : jstr) (shotCount : Z) (modelName : jstr) : M JSON :=
  result <- safeGenerateContent modelName ;;
  parseOrThrow
    "Failed to parse storyboard JSON. The model output might be malformed or truncated."
    result.

Definition generatePromptsForGroup (groupId : Z) (groupNarrative : jstr)
    (shots : list Shot.t) (settings : StoryboardSettings.t) (modelName : jstr) : M JSON :=
  emit (EvGeneratePromptsForGroup groupId groupNarrative shots settings modelName) ;;
  result <- safeGenerateContent modelName ;;
  parseOrThrow "Failed to parse prompts JSON" result.

(** The response schemas of the service: the properties of an object and
    the ones it requires. *)
Inductive Schema : Type :=
| SInteger
| SString
| SArray (items : Schema)
| SObject (properties : list (jstr * Schema)) (required : list jstr).

Definition shotSchema : Schema :=
  SObject [(lit "id", SInteger); (lit "description", SString);
           (lit "voiceover", SString); (lit "movement", SString)]
          [lit "id"; lit "description"; lit "voiceover"; lit "movement"].

Definition groupSchema : Schema :=
  SObject [(lit "id", SInteger); (lit "range", SString); (lit "narrative", SString)]
          [lit "id"; lit "range"; lit "narrative"].

Definition aiPromptItemSchema : Schema :=
  SObject [(lit "name", SString); (lit "description", SString); (lit "prompt", SString)]
          [lit "name"; lit "description"; lit "prompt"].

Definition settingsSchema : Schema :=
  SObject [(lit "overview", SString); (lit "style", SString);
           (lit "characters", SArray aiPromptItemSchema);
           (lit "scenes", SArray aiPromptItemSchema)]
          [lit "overview"; lit "style"; lit "characters"; lit "scenes"].

Definition storyboardSchema : Schema :=
  SObject [(lit "script", SArray shotSchema); (lit "groups", SArray groupSchema);
           (lit "settings", settingsSchema)]
          [lit "script"; lit "groups"; lit "settings"].

Definition imagePromptsSchema : Schema :=
  SObject [(lit "shot", SString); (lit "subject", SString);
           (lit "environment", SString); (lit "lighting", SString);
           (lit "camera", SString); (lit "colorGrade", SString);
           (lit "style", SString); (lit "quality", SString)]
          [lit "shot"; lit "subject"; lit "environment"; lit "lighting";
           lit "camera"; lit "colorGrade"; lit "style"; lit "quality"].

Definition promptSchema : Schema :=
  SObject [(lit "groupId", SInteger); (lit "imagePrompts", imagePromptsSchema);
           (lit "cameraPrompts", SString)]
          [lit "groupId"; lit "imagePrompts"; lit "cameraPrompts"].

(** ** App.tsx *)

Definition handleUpdatePromptData (groupId : Z) (newImagePrompts : JSON) : M unit :=
  setPrompts (fun prev =>
    <[groupId := JObject (objSet (spread (prev !! groupId)) (lit "imagePrompts") newImagePrompts)]> prev).

(** The body of the loop of [runGenerationQueue], from index [i] on;
    [rest] is what is left of [groupsToProcess], [len] its full length. *)
Fixpoint queueLoop (sb : StoryboardData.t) (model : jstr) (len i : nat)
    (rest : list Group.t) : M unit :=
  match rest with
  | [] => ret tt
  | group :: rest' =>
    setCurrentGroupId (Some (Group.id group)) ;;
    tryCatch
      (let startIdx := ((Group.id group - 1) * 4)%Z in
       let groupShots := slice (StoryboardData.script sb) startIdx (startIdx + 4)%Z in
       data <- generatePromptsForGroup (Group.id group) (Group.narrative group)
                 groupShots (StoryboardData.settings sb) model ;;
       setPrompts (fun prev => <[Group.id group := data]> prev))
      (fun _ => ret tt) ;;
    setBatchProgress (Some {| current := i + 1; total := len |}) ;;
    sleep 500 ;;
    queueLoop sb model len (S i) rest'
  end.

(** [storyboard] and [selectedModel] are the values the handler closed
    over when it was called. *)
Definition runGenerationQueue (groupsToProcess : list Group.t) : M unit :=
  fun w =>
    match storyboard (app w) with
    | None => ret tt w
    | Some sb =>
      (setAppState GENERATING_PROMPTS ;;
       setBatchProgress (Some {| current := 0; total := length groupsToProcess |}) ;;
       queueLoop sb (selectedModel (app w)) (length groupsToProcess) 0 groupsToProcess ;;
       setBatchProgress None ;;
       setAppState VIEW_PROMPTS) w
    end.

(** [!currentGroupId] is true for [null] and for the number 0. *)
Definition truthyId (g : option Z) : bool :=
  match g with
  | Some n => negb (n =? 0)%Z
  | None => false
  end.

Definition handleConfirmStoryboard : M unit :=
  fun w =>
    match storyboard (app w) with
    | None => ret tt w
    | Some sb =>
      match StoryboardData.groups sb with
      | [] => ret tt w
      | first :: _ =>
        (setAppState VIEW_PROMPTS ;;
         let missingGroups :=
           List.filter (fun g => negb (truthyOpt (prompts (app w) !! Group.id g)))
                       (StoryboardData.groups sb) in
         if (0 <? length missingGroups)%nat then runGenerationQueue missingGroups
         else if negb (truthyId (currentGroupId (app w)))
              then setCurrentGroupId (Some (Group.id first))
              else ret tt) w
      end
    end.

Definition handleRegenerateGroup (groupId : Z) : M unit :=
  fun w =>
    match storyboard (app w) with
    | None => ret tt w
    | Some sb =>
      match List.find (fun g => (Group.id g =? groupId)%Z) (StoryboardData.groups sb) with
      | None => ret tt w
      | Some group => runGenerationQueue [group] w
      end
    end.

(** ** components/PromptDisplay.tsx *)

(** [v.imagePrompts] for a truthy [v]: only an object can own it. *)
Definition get_imagePrompts (v : JSON) : option JSON :=
  match v with
  | JObject ms => objGet ms (lit "imagePrompts")
  | _ => None
  end.

(** [saveEdit(key)] with the edited text [editValue]; [prompts] and
    [currentGroupId] are the props the component was rendered with.  The
    editing state of the component itself is left out. *)
Definition saveEdit (key editValue : jstr) : M unit :=
  fun w =>
    let currentPrompt :=
      if truthyId (currentGroupId (app w))
      then match currentGroupId (app w) with
           | Some g => prompts (app w) !! g
           | None => None
           end
      else None in
    match currentGroupId (app w), currentPrompt with
    | Some g, Some p =>
      if truthyId (Some g) && truthy p then
        let updatedImagePrompts :=
          JObject (objSet (spread (get_imagePrompts p)) key (JString editValue)) in
        handleUpdatePromptData g updatedImagePrompts w
      else ret tt w
    | _, _ => ret tt w
    end.

(** ** services/geminiService.ts, the other operations *)

(** An item of media sent for analysis. *)
Record MediaPart : Type := mkMediaPart {
  data : jstr;
  mimeType : jstr
}.

Inductive SettingType : Type :=
| character
| scene.

(** The trimmed text of the response, or the empty string when the text
    is absent (or trims to nothing). *)
Definition trimmedTextOrEmpty (t : option jstr) : jstr :=
  match t with
  | Some s => trim s
  | None => []
  end.

(** The media analysis always calls the flash model. *)
Definition generateIdeaFromMedia (mediaItems : list MediaPart) : M jstr :=
  response <- safeGenerateContent (lit "gemini-3-flash-preview") ;;
  ret (trimmedTextOrEmpty (text response)).

Definition parseDocumentToScript (base64Data mimeType : jstr) (shotCount : Z) : M JSON :=
  response <- safeGenerateContent (lit "gemini-3-flash-preview") ;;
  parseOrThrow "Failed to parse document to JSON script." response.

Definition generatePromptFromImage (base64Image : jstr) (type : SettingType) : M jstr :=
  response <- safeGenerateContent (lit "gemini-3-flash-preview") ;;
  ret (trimmedTextOrEmpty (text response)).

(** The value thrown by a property access on [null]. *)
Definition TypeError : JsError := Error "TypeError: cannot read properties of null".

(** [v.k] for a value [v] other than [null] and a property name [k] that
    no prototype defines and that is not an index: only an object can
    have it. *)
Definition getField (v : JSON) (k : jstr) : option JSON :=
  match v with
  | JObject ms => objGet ms k
  | _ => None
  end.

(** [refineStoryboardScript]: the [script] member of the parsed payload;
    the property access is inside the [try] block, so that its failure
    on [null] becomes the parse error. *)
Definition refineStoryboardScript (currentScript : list Shot.t) (instruction modelName : jstr)
    : M (option JSON) :=
  result <- safeGenerateContent modelName ;;
  match JSON_parse (cleanJsonString (textOrEmptyObject (text result))) with
  | Ok JNull => throw (Error "Failed to parse refined script JSON")
  | Ok parsed => ret (getField parsed (lit "script"))
  | Throw _ => throw (Error "Failed to parse refined script JSON")
  end.

(** [currentPrompts] may be [undefined]; it only enters the prompt text. *)
Definition refinePrompt (currentPrompts : option JSON) (instruction modelName : jstr)
    (targetField : option jstr) : M JSON :=
  result <- safeGenerateContent modelName ;;
  parseOrThrow "Failed to parse refined prompt JSON" result.

(** ** App.tsx, the other handlers *)

Definition set_storyboard (sb : option StoryboardData.t) (a : AppSt) : AppSt :=
  {| appState := appState a; storyboard := sb; prompts := prompts a;
     currentGroupId := currentGroupId a; error := error a;
     selectedModel := selectedModel a; batchProgress := batchProgress a |}.

Definition set_error (e : option jstr) (a : AppSt) : AppSt :=
  {| appState := appState a; storyboard := storyboard a; prompts := prompts a;
     currentGroupId := currentGroupId a; error := e;
     selectedModel := selectedModel a; batchProgress := batchProgress a |}.

(** [setStoryboard(prev => f prev)] *)
Definition setStoryboard (f : option StoryboardData.t -> option StoryboardData.t) : M unit :=
  fun w => mkOut (Ok tt) (with_app (fun a => set_storyboard (f (storyboard a)) a) w) [].

Definition setError (e : option jstr) : M unit :=
  fun w => mkOut (Ok tt) (with_app (set_error e) w) [].


(** [setStoryboard(v)] for a parsed value [v], which is stored at the
    type [StoryboardData] without any check; [asStoryboard] is that
    reading of a parsed value.  A falsy value is no bundle for every test
    the handlers make of the state. *)
Definition asBundle (asStoryboard : JSON -> StoryboardData.t) (v : JSON)
    : option StoryboardData.t :=
  if truthy v then Some (asStoryboard v) else None.


(** [handleScriptUpload]; [asPrompts] reads a parsed value at the type of
    the mapping of results, again without a check. *)
Definition handleScriptUpload (asStoryboard : JSON -> StoryboardData.t)
    (asPrompts : JSON -> gmap Z JSON) (data : JSON) : M unit :=
  match data with
  | JNull => throw TypeError
  | _ =>
    match getField data (lit "storyboard"), getField data (lit "prompts") with
    | Some s, Some p =>
      if truthy s && truthy p
      then setStoryboard (fun _ => asBundle asStoryboard s) ;;
           setPrompts (fun _ => asPrompts p)
      else setStoryboard (fun _ => asBundle asStoryboard data) ;;
           setPrompts (fun _ => ∅)
    | _, _ =>
      setStoryboard (fun _ => asBundle asStoryboard data) ;;
      setPrompts (fun _ => ∅)
    end ;;
    setAppState REVIEW_STORYBOARD ;;
    setError None
  end.

(** [arr[index]] for an integer [index]. *)
Definition arrayGet {A} (l : list A) (index : Z) : option A :=
  if (0 <=? index)%Z then l !! Z.to_nat index else None.

Module AIPromptItemField.
Inductive t : Type :=
| name
| description
| prompt.
End AIPromptItemField.

(** [{...item, [field]: value}] *)
Definition updateItem (item : AIPromptItem.t) (field : AIPromptItemField.t) (value : jstr)
    : AIPromptItem.t :=
  match field with
  | AIPromptItemField.name =>
    AIPromptItem.mk value (AIPromptItem.description item) (AIPromptItem.prompt item)
  | AIPromptItemField.description =>
    AIPromptItem.mk (AIPromptItem.name item) value (AIPromptItem.prompt item)
  | AIPromptItemField.prompt =>
    AIPromptItem.mk (AIPromptItem.name item) (AIPromptItem.description item) value
  end.

Definition targetArray (type : SettingType) (s : StoryboardSettings.t) : list AIPromptItem.t :=
  match type with
  | character => StoryboardSettings.characters s
  | scene => StoryboardSettings.scenes s
  end.

Definition with_targetArray (type : SettingType) (items : list AIPromptItem.t)
    (s : StoryboardSettings.t) : StoryboardSettings.t :=
  match type with
  | character =>
    StoryboardSettings.mk (StoryboardSettings.overview s) (StoryboardSettings.style s)
      items (StoryboardSettings.scenes s)
  | scene =>
    StoryboardSettings.mk (StoryboardSettings.overview s) (StoryboardSettings.style s)
      (StoryboardSettings.characters s) items
  end.

Definition with_settings (s : StoryboardSettings.t) (sb : StoryboardData.t)
    : StoryboardData.t :=
  StoryboardData.mk (StoryboardData.script sb) (StoryboardData.groups sb) s
    (StoryboardData.rawResponse sb).

(** [handleUpdateSetting]: an index without an item changes nothing.
    The copy of the settings is shallow and the array is written in
    place; the updaters of this handler, of [handleAddSetting] and of
    [handleDeleteSetting] are given by the state after one run of the
    updater. *)
Definition handleUpdateSetting (type : SettingType) (index : Z)
    (field : AIPromptItemField.t) (value : jstr) : M unit :=
  setStoryboard (fun prev =>
    match prev with
    | None => None
    | Some prev =>
      let newSettings := StoryboardData.settings prev in
      match arrayGet (targetArray type newSettings) index with
      | Some item =>
        Some (with_settings
                (with_targetArray type
                   (<[Z.to_nat index := updateItem item field value]>
                      (targetArray type newSettings))
                   newSettings)
                prev)
      | None => Some (with_settings newSettings prev)
      end
    end).

Module GlobalField.
Inductive t : Type :=
| overview
| style.
End GlobalField.

Definition handleUpdateGlobalSetting (field : GlobalField.t) (value : jstr) : M unit :=
  setStoryboard (fun prev =>
    match prev with
    | None => None
    | Some prev =>
      let s := StoryboardData.settings prev in
      Some (with_settings
              match field with
              | GlobalField.overview =>
                StoryboardSettings.mk value (StoryboardSettings.style s)
                  (StoryboardSettings.characters s) (StoryboardSettings.scenes s)
              | GlobalField.style =>
                StoryboardSettings.mk (StoryboardSettings.overview s) value
                  (StoryboardSettings.characters s) (StoryboardSettings.scenes s)
              end
              prev)
    end).

(** The placeholder item of [handleAddSetting]: the name 新角色 or 新场景,
    the description 请输入详细的视觉描述... and the prompt
    待生成的 AI 提示词... *)
Definition newItem (type : SettingType) : AIPromptItem.t :=
  AIPromptItem.mk
    match type with
    | character => [26032; 35282; 33394]
    | scene => [26032; 22330; 26223]
    end
    [35831; 36755; 20837; 35814; 32454; 30340; 35270; 35273; 25551; 36848; 46; 46; 46]
    [24453; 29983; 25104; 30340; 32; 65; 73; 32; 25552; 31034; 35789; 46; 46; 46].

Definition handleAddSetting (type : SettingType) : M unit :=
  setStoryboard (fun prev =>
    match prev with
    | None => None
    | Some prev =>
      let newSettings := StoryboardData.settings prev in
      Some (with_settings
              (with_targetArray type (targetArray type newSettings ++ [newItem type])
                 newSettings)
              prev)
    end).

(** [arr.splice(index, 1)]: what is left of the array.  The start is
    relative to the end when negative and clamped to the array, and one
    element is removed if there is one at the start. *)
Definition spliceOne {A} (l : list A) (index : Z) : list A :=
  let start := relIndex (length l) index in
  let deleteCount := Nat.min 1 (length l - start) in
  take start l ++ drop (start + deleteCount) l.

Definition handleDeleteSetting (type : SettingType) (index : Z) : M unit :=
  setStoryboard (fun prev =>
    match prev with
    | None => None
    | Some prev =>
      let newSettings := StoryboardData.settings prev in
      Some (with_settings
              (with_targetArray type (spliceOne (targetArray type newSettings) index)
                 newSettings)
              prev)
    end).

Definition handleUpdateScript (newScript : list Shot.t) : M unit :=
  setStoryboard (fun prev =>
    match prev with
    | None => None
    | Some prev =>
      Some (StoryboardData.mk newScript (StoryboardData.groups prev)
              (StoryboardData.settings prev) (StoryboardData.rawResponse prev))
    end).

(** [handleRegenerateAll]; [confirmed] is the answer to the confirmation
    dialog, which is asked only when a bundle is loaded. *)
Definition handleRegenerateAll (confirmed : bool) : M unit :=
  fun w =>
    match storyboard (app w) with
    | None => ret tt w
    | Some sb =>
      if confirmed
      then (setPrompts (fun _ => ∅) ;;
            runGenerationQueue (StoryboardData.groups sb)) w
      else ret tt w
    end.

Definition handleSelectGroup (groupId : Z) : M unit :=
  setCurrentGroupId (Some groupId).

Definition handleReset (confirmed : bool) : M unit :=
  if confirmed
  then setAppState IDLE ;;
       setStoryboard (fun _ => None) ;;
       setPrompts (fun _ => ∅) ;;
       setCurrentGroupId None
  else ret tt.

(** ** components/PromptDisplay.tsx, refinement *)

(** [handleAIRefine(instruction, field)]; the flags of the component that
    show the refinement in progress are left out. *)
Definition handleAIRefine (instruction : jstr) (field : option jstr) : M unit :=
  fun w =>
    let currentPrompt :=
      if truthyId (currentGroupId (app w))
      then match currentGroupId (app w) with
           | Some g => prompts (app w) !! g
           | None => None
           end
      else None in
    match currentGroupId (app w), currentPrompt with
    | Some g, Some p =>
      if truthyId (Some g) && truthy p then
        tryCatch
          (updatedImagePrompts <-
             refinePrompt (get_imagePrompts p) instruction (selectedModel (app w)) field ;;
           handleUpdatePromptData g updatedImagePrompts)
          (fun _ => ret tt) w
      else ret tt w
    | _, _ => ret tt w
    end.




(** ** components/StoryboardView.tsx *)

(** [saveEditShot]; [data] is the bundle the view is rendered with,
    [editingShotId] and [editValue] the editing state of the view. *)
Definition saveEditShot (data : StoryboardData.t) (editingShotId : option Z)
    (editValue : jstr) : M unit :=
  match editingShotId with
  | None => ret tt
  | Some id =>
    let newScript :=
      map (fun s => if (Shot.id s =? id)%Z
                    then Shot.mk (Shot.id s) editValue (Shot.voiceover s) (Shot.movement s)
                    else s)
          (StoryboardData.script data) in
    handleUpdateScript newScript
  end.

(** ** components/IdeaInput.tsx *)


(** The check of an imported project file:
    [(json.script && json.groups && json.settings) ||
     (json.storyboard && json.storyboard.script)]. *)
Definition acceptsProject (json : JSON) : Res bool :=
  match json with
  | JNull => Throw TypeError
  | _ =>
    Ok ((truthyOpt (getField json (lit "script"))
         && truthyOpt (getField json (lit "groups"))
         && truthyOpt (getField json (lit "settings")))
        || match getField json (lit "storyboard") with
           | Some s => truthy s && truthyOpt (getField s (lit "script"))
           | None => false
           end)
  end.

(** How reading a script file ended: the bundle was loaded, or one of
    the alerts was shown. *)
Inductive LoadOutcome : Type :=
| Loaded
| WrongFormat
| InvalidJson
| DocumentFailed.

(** The [onload] callback of [handleScriptFileLoad] for a JSON file with
    the text [content]. *)
Definition loadProjectJson (asStoryboard : JSON -> StoryboardData.t)
    (asPrompts : JSON -> gmap Z JSON) (content : jstr) : M LoadOutcome :=
  tryCatch
    (match JSON_parse content with
     | Throw e => throw e
     | Ok json =>
       match acceptsProject json with
       | Throw e => throw e
       | Ok true => handleScriptUpload asStoryboard asPrompts json ;; ret Loaded
       | Ok false => ret WrongFormat
       end
     end)
    (fun _ => ret InvalidJson).

(** The [onloadend] callback of [handleScriptFileLoad] for a PDF or text
    file with the contents [base64String]. *)
Definition loadDocument (asStoryboard : JSON -> StoryboardData.t)
    (asPrompts : JSON -> gmap Z JSON) (base64String : jstr) (isPdf : bool)
    (shotCount : Z) : M LoadOutcome :=
  tryCatch
    (let mimeToSend := if isPdf then lit "application/pdf" else lit "text/plain" in
     data <- parseDocumentToScript base64String mimeToSend shotCount ;;
     handleScriptUpload asStoryboard asPrompts data ;;
     ret Loaded)
    (fun _ => ret DocumentFailed).

(** The label [参考灵感分析] that precedes an analysis in the input. *)
Definition analysisLabel : jstr :=
  lit "[" ++ [21442; 32771; 28789; 24863; 20998; 26512] ++ lit "]: ".

(** [handleAnalyzeBatch], once the files of the queue are read into
    [mediaItems]: the new text of the input, from its text [input]. *)
Definition handleAnalyzeBatch (mediaItems : list MediaPart) (input : jstr) : M jstr :=
  match mediaItems with
  | [] => ret input
  | _ =>
    tryCatch
      (description <- generateIdeaFromMedia mediaItems ;;
       let prefix :=
         match input with
         | [] => analysisLabel
         | _ => input ++ [10; 10] ++ analysisLabel
         end in
       ret (prefix ++ description))
      (fun _ => ret input)
  end.

(** A JavaScript array whose slots may hold [undefined]. *)
Definition slotGet {A} (l : list (option A)) (i : nat) : option A :=
  match l !! i with
  | Some x => x
  | None => None
  end.

(** [arr[i] = x]: an index past the end extends the array. *)
Definition slotSet {A} (l : list (option A)) (i : nat) (x : option A) : list (option A) :=
  if (i <? length l)%nat then <[i := x]> l
  else l ++ replicate (i - length l) None ++ [x].

Module Direction.
Inductive t : Type :=
| left
| right.
End Direction.

(** [handleMoveMedia]: the new queue, from the queue [prev]; the guard
    reads the length of the queue the component was rendered with.  The
    destructuring swap reads both slots, then writes the first and the
    second. *)
Definition handleMoveMedia {A} (mediaQueue prev : list (option A)) (index : nat)
    (direction : Direction.t) : list (option A) :=
  match direction with
  | Direction.left =>
    if (0 <? index)%nat then
      let a := slotGet prev index in
      let b := slotGet prev (index - 1) in
      slotSet (slotSet prev (index - 1) a) index b
    else prev
  | Direction.right =>
    if (Z.of_nat index <? Z.of_nat (length mediaQueue) - 1)%Z then
      let a := slotGet prev (index + 1) in
      let b := slotGet prev index in
      slotSet (slotSet prev index a) (index + 1) b
    else prev
  end.

(** ** components/StoryboardView.tsx, the calls of the service *)

(** The [onloadend] callback of [handleImageUpload] for an image with the
    contents [base64String]. *)
Definition imageUploaded (type : SettingType) (index : Z) (base64String : jstr) : M unit :=
  tryCatch
    (newPrompt <- generatePromptFromImage base64String type ;;
     handleUpdateSetting type index AIPromptItemField.prompt newPrompt)
    (fun _ => ret tt).

(** [handleScriptRefine]; [data] and [selectedModel] are the props of the
    view and [finalInstruction] is the instruction the handler builds,
    which enters the text of the request only.  The returned value is
    passed on as the new script without a check; [asScript] is that
    reading of a possibly [undefined] value. *)
Definition handleScriptRefine (asScript : option JSON -> list Shot.t)
    (data : StoryboardData.t) (selectedModel finalInstruction : jstr) : M unit :=
  tryCatch
    (newScript <- refineStoryboardScript (StoryboardData.script data) finalInstruction
                    selectedModel ;;
     handleUpdateScript (asScript newScript))
    (fun _ => ret tt).


(** * Definitions for the statements *)

(** ** Fenced texts *)

(** Trimming by [f] at both ends. *)
Definition trimBy {A} (f : A -> bool) (l : list A) : list A :=
  reverse (dropWhile f (reverse (dropWhile f l))).

(** The tag a leading fence may carry: none, or json in any letter case. *)
Definition isJsonTag (tag : jstr) : bool :=
  match tag with
  | [] => true
  | _ => (length tag =? 4)%nat && startsWithCI tag (lit "json")
  end.

(** The payload [p] between a leading fence with its tag and a trailing
    fence, with white space [m1], [m2] between the fences and the payload
    and white space [ws1], [ws2] around the whole. *)
Definition fenced (ws1 tag m1 p m2 ws2 : jstr) : jstr :=
  ws1 ++ fence ++ tag ++ m1 ++ p ++ m2 ++ fence ++ ws2.

(** ** Observations of a run *)

(** The part of a run that calls of the upstream service make up. *)
Definition isAttempt (e : Event) : bool :=
  match e with EvGenerateContent _ => true | _ => false end.

Definition attempts (es : list Event) : nat := length (List.filter isAttempt es).

Definition sleepOf (e : Event) : option Z :=
  match e with EvSleep ms => Some ms | _ => None end.

Definition sleeps (es : list Event) : list Z := filterMap sleepOf es.

(** Projections of a run: the values [setBatchProgress] was called with,
    the groups made current, and the prompt generations called. *)
Definition progressOf (es : list Event) : list (option BatchProgress) :=
  filterMap (fun e => match e with EvSetBatchProgress p => Some p | _ => None end) es.

Definition selectionsOf (es : list Event) : list (option Z) :=
  filterMap (fun e => match e with EvSetCurrentGroupId g => Some g | _ => None end) es.

Definition shotsPassed (es : list Event) : list (Z * list Shot.t) :=
  filterMap (fun e => match e with
                 | EvGeneratePromptsForGroup groupId _ shots _ _ => Some (groupId, shots)
                 | _ => None
                 end) es.

(** Events a service computation can perform. *)
Definition isServiceEvent (e : Event) : bool :=
  match e with
  | EvGenerateContent _ | EvSleep _ => true
  | _ => false
  end.

(** ** Upstream behaviours *)

(** [getAI] succeeds: a client is cached, or the environment has a key. *)
Definition hasClient (w : World) : bool :=
  match genAI w, API_KEY w with
  | Some _, _ => true
  | None, Some (_ :: _) => true
  | None, _ => false
  end.

(** A transient capacity error, as the wrapper classifies it. *)
Definition isTransient (x : Res Response) : bool :=
  match x with
  | Throw e => isQuotaError e
  | Ok _ => false
  end.

(** The actions of [k] failed attempts, each followed by its back-off. *)
Fixpoint retryEvents (model : jstr) (k : nat) (delay : Z) : list Event :=
  match k with
  | O => []
  | S k' => EvGenerateContent model :: EvSleep delay :: retryEvents model k' (delay * 2)%Z
  end.

Fixpoint backoffs (k : nat) (delay : Z) : list Z :=
  match k with
  | O => []
  | S k' => delay :: backoffs k' (delay * 2)%Z
  end.

Definition emptyText (r : Response) : Prop := text r = None \/ text r = Some [].

(** ** Computations of the service *)

Definition out_with_app {A} (f : AppSt -> AppSt) (o : Out A) : Out A :=
  mkOut (res o) (with_app f (world o)) (events o).

(** A computation that neither reads nor writes the application state. *)
Definition ServiceOnly {A} (m : M A) : Prop :=
  forall (a : AppSt) (w : World),
    m (with_app (fun _ => a) w) = out_with_app (fun _ => a) (m w).

(** ** The items of a run of the queue *)

(** The shots the loop body computes for a group ([groupShots]). *)
Definition groupShots (sb : StoryboardData.t) (group : Group.t) : list Shot.t :=
  slice (StoryboardData.script sb)
        ((Group.id group - 1) * 4) ((Group.id group - 1) * 4 + 4).

(** The generation the loop body performs for a group. *)
Definition generateFor (sb : StoryboardData.t) (model : jstr) (group : Group.t) : M JSON :=
  generatePromptsForGroup (Group.id group) (Group.narrative group)
    (groupShots sb group) (StoryboardData.settings sb) model.

(** What the generation of one work item came to. *)
Record ItemRun : Type := mkItemRun {
  item : Group.t;
  result : Res JSON;
  actions : list Event
}.

(** The generations of a work list, one after the other, each starting in
    the world the previous one left. *)
Fixpoint itemRuns (sb : StoryboardData.t) (model : jstr) (work : list Group.t)
    (w : World) : list ItemRun :=
  match work with
  | [] => []
  | g :: rest =>
    let o := generateFor sb model g w in
    mkItemRun g (res o) (events o) :: itemRuns sb model rest (world o)
  end.

(** The mapping after an item: a success is stored under the id of the
    item's group, a failure leaves the mapping as it is. *)
Definition store (r : ItemRun) (p : gmap Z JSON) : gmap Z JSON :=
  match result r with
  | Ok data => <[Group.id (item r) := data]> p
  | Throw _ => p
  end.

Definition applyRuns (runs : list ItemRun) (p : gmap Z JSON) : gmap Z JSON :=
  foldl (fun p r => store r p) p runs.

Definition itemEvents (len i : nat) (r : ItemRun) : list Event :=
  EvSetCurrentGroupId (Some (Group.id (item r)))
  :: actions r
  ++ [EvSetBatchProgress (Some {| current := i + 1; total := len |}); EvSleep 500].

Fixpoint loopEvents (len i : nat) (runs : list ItemRun) : list Event :=
  match runs with
  | [] => []
  | r :: rs => itemEvents len i r ++ loopEvents len (S i) rs
  end.

Definition lastId (work : list Group.t) (g0 : option Z) : option Z :=
  match last work with
  | Some g => Some (Group.id g)
  | None => g0
  end.

Definition lastProgress (len i : nat) (work : list Group.t)
    (p0 : option BatchProgress) : option BatchProgress :=
  match work with
  | [] => p0
  | _ => Some {| current := i + length work; total := len |}
  end.

(** What a well-formed item run performs: the call of the generation with
    the shots of its group, then actions of the service. *)
Definition itemRunOk (sb : StoryboardData.t) (r : ItemRun) : Prop :=
  exists narrative settings model es,
    actions r
    = EvGeneratePromptsForGroup (Group.id (item r)) narrative
        (groupShots sb (item r)) settings model :: es
    /\ forallb isServiceEvent es = true.

(** The groups the handler finds without a result ([missingGroups]). *)
Definition missingGroups (w : World) (sb : StoryboardData.t) : list Group.t :=
  List.filter (fun g => negb (truthyOpt (prompts (app w) !! Group.id g)))
              (StoryboardData.groups sb).

(** ** Shapes and index ranges *)

(** Following the specification's wording: a value is missing a
    required field of an expected shape when an object of the shape, at
    any depth, lacks a property the shape requires. *)
Fixpoint missingRequired (s : Schema) (v : JSON) : bool :=
  match s, v with
  | SObject properties required, JObject ms =>
    existsb (fun k => match objGet ms k with Some _ => false | None => true end) required
    || existsb (fun ks => match objGet ms (fst ks) with
                          | Some v' => missingRequired (snd ks) v'
                          | None => false
                          end) properties
  | SArray items, JArray xs => existsb (missingRequired items) xs
  | _, _ => false
  end.

Definition requiredOf (s : Schema) : list jstr :=
  match s with SObject _ required => required | _ => [] end.

(** Following the specification's wording: the elements of [l] at the
    zero-based indices from [start] up to, not including, [start + n]. *)
Definition elementsAt {A} (l : list A) (start : Z) (n : nat) : list A :=
  filterMap (fun k => let j := (start + Z.of_nat k)%Z in
                      if (0 <=? j)%Z then l !! Z.to_nat j else None)
            (seq 0 n).

(** ** Data for the examples *)

(** Worlds for the examples: a configured API key, no client yet, no
    call made, and the given upstream behaviour and application state. *)
Definition idleApp : AppSt :=
  {| appState := IDLE; storyboard := None; prompts := ∅; currentGroupId := None;
     error := None; selectedModel := lit "gemini-3-flash-preview";
     batchProgress := None |}.

Definition worldOf (up : nat -> Res Response) (a : AppSt) : World :=
  {| API_KEY := Some (lit "key"); genAI := None; upstream := up; ncalls := 0; app := a |}.

Definition noSettings : StoryboardSettings.t :=
  StoryboardSettings.mk [] [] [] [].

Definition flash : jstr := lit "gemini-3-flash-preview".

(** A prompt payload whose imagePrompts lacks seven of its eight keys. *)
Definition partialPromptText : jstr :=
  qlit "{'groupId': 1, 'imagePrompts': {'shot': 'grid'}, 'cameraPrompts': 'pan'}".

Definition partialPrompt : JSON :=
  JObject [(lit "groupId", JNumber (lit "1"));
           (lit "imagePrompts", JObject [(lit "shot", JString (lit "grid"))]);
           (lit "cameraPrompts", JString (lit "pan"))].

(** A bundle payload without groups and settings. *)
Definition partialBundleText : jstr := qlit "{'script': []}".

Definition partialBundle : JSON := JObject [(lit "script", JArray [])].

Definition fullPrompt : JSON :=
  JObject [(lit "groupId", JNumber (lit "1"));
           (lit "imagePrompts",
            JObject [(lit "shot", JString (lit "grid"));
                     (lit "subject", JString (lit "a detective"));
                     (lit "environment", JString (lit "rain"));
                     (lit "lighting", JString (lit "neon"));
                     (lit "camera", JString (lit "low angle"));
                     (lit "colorGrade", JString (lit "teal"));
                     (lit "style", JString (lit "noir"));
                     (lit "quality", JString (lit "8k"))]);
           (lit "cameraPrompts", JString (lit "pan"))].

Definition quota429 : JsError :=
  {| status := Some 429%Z; code := None; message := Some (lit "Too Many Requests") |}.

Definition exhausted : JsError := Error "RESOURCE_EXHAUSTED: quota exceeded".

Definition denied : JsError :=
  {| status := Some 403%Z; code := None; message := Some (lit "permission denied") |}.

(** A bundle of eight shots in two groups, under review. *)
Definition demoShot (n : Z) : Shot.t :=
  Shot.mk n (lit "a street in the rain") (lit "footsteps") (lit "dolly in").

Definition demoScript : list Shot.t := map demoShot [1; 2; 3; 4; 5; 6; 7; 8]%Z.

Definition demoGroups : list Group.t :=
  [Group.mk 1 (lit "1-4") (lit "the chase begins");
   Group.mk 2 (lit "5-8") (lit "the fugitive escapes")].

Definition demoBundle : StoryboardData.t :=
  StoryboardData.mk demoScript demoGroups noSettings [].

Definition emptyBundle : StoryboardData.t := StoryboardData.mk [] [] noSettings [].

Definition appOf (sb : StoryboardData.t) (p : gmap Z JSON) (g : option Z) : AppSt :=
  {| appState := REVIEW_STORYBOARD; storyboard := Some sb; prompts := p;
     currentGroupId := g; error := None; selectedModel := flash;
     batchProgress := None |}.

Definition bothPrompts : gmap Z JSON :=
  <[1%Z := partialPrompt]> (<[2%Z := partialPrompt]> ∅).

(** An upstream whose first answer is not JSON and whose later answers
    are a prompt payload. *)
Definition firstAnswerBroken (n : nat) : Res Response :=
  match n with
  | O => Ok (mkResponse (Some (lit "Sorry, I cannot help with that.")))
  | _ => Ok (mkResponse (Some partialPromptText))
  end.

(** ** Worlds and environments *)

(** The world when the environment's API key has become [k]. *)
Definition with_API_KEY (k : option jstr) (w : World) : World :=
  {| API_KEY := k; genAI := genAI w; upstream := upstream w;
     ncalls := ncalls w; app := app w |}.

(** A text of white space only. *)
Definition blank (s : jstr) : bool := forallb isWhiteSpace s.

(** ** The ends of a JSON text *)

(** The code units a JSON value can begin with: a brace, a bracket, a
    quote, a minus sign, a digit, or the first letter of a keyword. *)
Definition isOpener (c : N) : bool :=
  (c =? ch "{") || (c =? ch "[") || (c =? dquote) || (c =? ch "-") || isDigit c
  || (c =? ch "t") || (c =? ch "f") || (c =? ch "n").

(** The code units a JSON value can end with: a closing brace, bracket
    or quote, a digit, or the last letter of a keyword. *)
Definition isCloser (c : N) : bool :=
  (c =? ch "}") || (c =? ch "]") || (c =? dquote) || isDigit c
  || (c =? ch "e") || (c =? ch "l").

(** [rest] is what is left of [s] after a text that ends with a code unit
    [P] holds of. *)
Definition endsBefore (P : N -> bool) (s rest : jstr) : Prop :=
  exists pre c, s = pre ++ c :: rest /\ P c = true.

(** ** Bounds of an item *)

(** An item whose generation made at most four attempts, with the
    back-offs of the retry policy between them. *)
Definition boundedItem (r : ItemRun) : Prop :=
  (attempts (actions r) <= 4)%nat
  /\ sleeps (actions r) = take (attempts (actions r) - 1) [2000; 4000; 8000]%Z.

(** The pauses of 500 ms among the sleeps of a run. *)
Definition pauses (es : list Event) : nat :=
  length (List.filter (Z.eqb 500) (sleeps es)).

(** An item that gave a result that counts as present. *)
Definition gaveResult (r : ItemRun) : Prop :=
  exists data, result r = Ok data /\ truthy data = true.

(** The bundle with the script replaced. *)
Definition with_script (script : list Shot.t) (sb : StoryboardData.t) : StoryboardData.t :=
  StoryboardData.mk script (StoryboardData.groups sb) (StoryboardData.settings sb)
    (StoryboardData.rawResponse sb).

(** ** Items of settings *)

(** The field [field] of an item. *)
Definition itemField (field : AIPromptItemField.t) (item : AIPromptItem.t) : jstr :=
  match field with
  | AIPromptItemField.name => AIPromptItem.name item
  | AIPromptItemField.description => AIPromptItem.description item
  | AIPromptItemField.prompt => AIPromptItem.prompt item
  end.

Definition otherType (type : SettingType) : SettingType :=
  match type with
  | character => scene
  | scene => character
  end.

(** Two bundles that differ at most in the array of settings of the
    type [type]. *)
Definition sameBut (type : SettingType) (sb sb' : StoryboardData.t) : Prop :=
  StoryboardData.script sb' = StoryboardData.script sb
  /\ StoryboardData.groups sb' = StoryboardData.groups sb
  /\ StoryboardData.rawResponse sb' = StoryboardData.rawResponse sb
  /\ StoryboardSettings.overview (StoryboardData.settings sb')
     = StoryboardSettings.overview (StoryboardData.settings sb)
  /\ StoryboardSettings.style (StoryboardData.settings sb')
     = StoryboardSettings.style (StoryboardData.settings sb)
  /\ targetArray (otherType type) (StoryboardData.settings sb')
     = targetArray (otherType type) (StoryboardData.settings sb).

(** What a handler that only edits the bundle leaves alone: it succeeds,
    performs no action, and changes nothing but the bundle. *)
Definition editsBundleOnly (o : Out unit) (w : World) : Prop :=
  res o = Ok tt
  /\ events o = []
  /\ prompts (app (world o)) = prompts (app w)
  /\ appState (app (world o)) = appState (app w)
  /\ currentGroupId (app (world o)) = currentGroupId (app w)
  /\ error (app (world o)) = error (app w)
  /\ selectedModel (app (world o)) = selectedModel (app w)
  /\ batchProgress (app (world o)) = batchProgress (app w)
  /\ world o = with_app (set_storyboard (storyboard (app (world o)))) w.

(** Bundles for the examples: two characters and a scene. *)
Definition demoSettings : StoryboardSettings.t :=
  StoryboardSettings.mk (lit "a chase at night") (lit "noir")
    [AIPromptItem.mk (lit "detective") (lit "a tired man") (lit "trench coat");
     AIPromptItem.mk (lit "fugitive") (lit "a young woman") (lit "red scarf")]
    [AIPromptItem.mk (lit "alley") (lit "wet cobblestones") (lit "neon signs")].

Definition settingsBundle : StoryboardData.t :=
  StoryboardData.mk demoScript demoGroups demoSettings [].

(** ** Imported files *)

(** Whether a property of an object counts as present. *)
Definition has (ms : list (jstr * JSON)) (k : string) : bool :=
  truthyOpt (objGet ms (lit k)).

(** The two shapes an imported project file is accepted with: a bare
    bundle, and a wrapper around a bundle. *)
Definition bareBundle (ms : list (jstr * JSON)) : bool :=
  has ms "script" && has ms "groups" && has ms "settings".

Definition wrappedBundle (ms : list (jstr * JSON)) : bool :=
  match objGet ms (lit "storyboard") with
  | Some s => truthy s && truthyOpt (getField s (lit "script"))
  | None => false
  end.

(** ** Mentions *)

(** The text [m] contains the text [p] as a run of consecutive code
    units. *)
Definition mentions (m : jstr) (p : string) : Prop :=
  exists pre post, m = pre ++ lit p ++ post.

(** * Properties *)

(** ** Examples of parsing and sanitizing *)

Example parse_ex1 :
  JSON_parse (qlit " {'a': [1, -2.5e3, true, null], 'b': {'c': 'x\ny'}, 'a': 'z'} ")
  = Ok (JObject [(lit "a", JString (lit "z"));
                 (lit "b", JObject [(lit "c", JString [120; 10; 121])])]).
Proof. vm_compute. reflexivity. Qed.
Example parse_ex2 : JSON_parse (lit "{}") = Ok (JObject []).
Proof. reflexivity. Qed.
Example parse_ex3 : JSON_parse (lit "[1,]") = Throw SyntaxError.
Proof. reflexivity. Qed.
Example parse_ex4 : JSON_parse (lit "01") = Throw SyntaxError.
Proof. reflexivity. Qed.
Example parse_ex5 : JSON_parse [] = Throw SyntaxError.
Proof. reflexivity. Qed.
Example parse_ex6 : JSON_parse (qlit "[[1, 2], [], {'k': []}]")
  = Ok (JArray [JArray [JNumber (lit "1"); JNumber (lit "2")]; JArray []; JObject [(lit "k", JArray [])]]).
Proof. vm_compute. reflexivity. Qed.
Example clean_ex1 :
  cleanJsonString (lit "  ```json" ++ [10] ++ qlit "{'a':1}" ++ [10] ++ lit "```  ")
  = [10] ++ qlit "{'a':1}" ++ [10].
Proof. vm_compute. reflexivity. Qed.

Example zero_literals :
  map (fun t => isZeroLiteral (lit t))
      ["0"; "-0.000"; "0e5"; "1e-400"; "2e-324"; "3e-324"; "5E-324"; "0.1"; "-12"; "1.0e+2"]%string
  = [true; true; true; true; true; false; false; false; false; false].
Proof. vm_compute. reflexivity. Qed.

(** ** The fuel of the parser *)

(** Case analysis on the next step of a parser in [H]. *)
Ltac parse_case H :=
  match type of H with
  | context [match ?x with _ => _ end] =>
    match x with
    | context [match _ with _ => _ end] => fail 1
    | _ => destruct x eqn:?; try discriminate H
    end
  | context [if ?x then _ else _] => destruct x eqn:?; try discriminate H
  end.

Lemma parse_fuel_mono (n : nat) :
  (forall s r, parseValue n s = Some r -> forall m, (n <= m)%nat -> parseValue m s = Some r)
  /\ (forall s acc r, parseMembers n s acc = Some r ->
        forall m, (n <= m)%nat -> parseMembers m s acc = Some r)
  /\ (forall s acc r, parseElements n s acc = Some r ->
        forall m, (n <= m)%nat -> parseElements m s acc = Some r).
Proof.
  induction n as [|n (IHv & IHm & IHe)]; [by repeat split|].
  repeat split.
  - intros s r H [|m] Hm; [lia|]. cbn [parseValue] in *.
    repeat parse_case H; simplify_eq; eauto with lia.
  - intros s acc r H [|m] Hm; [lia|]. cbn [parseMembers] in *.
    repeat parse_case H; simplify_eq;
      match goal with
      | E : parseValue n _ = Some _ |- _ => rewrite (IHv _ _ E m) by lia
      end;
      repeat match goal with E : _ = _ |- _ => rewrite E end; eauto with lia.
  - intros s acc r H [|m] Hm; [lia|]. cbn [parseElements] in *.
    repeat parse_case H; simplify_eq;
      match goal with
      | E : parseValue n _ = Some _ |- _ => rewrite (IHv _ _ E m) by lia
      end;
      repeat match goal with E : _ = _ |- _ => rewrite E end; eauto with lia.
Qed.

Lemma length_dropWhile {A} (f : A -> bool) (l : list A) :
  (length (dropWhile f l) <= length l)%nat.
Proof. induction l as [|x l IH]; simpl; [lia|]. destruct (f x); simpl; lia. Qed.

Lemma dropWhile_cons_length {A} (f : A -> bool) (l r : list A) (c : A) :
  dropWhile f l = c :: r -> (length r < length l)%nat.
Proof. intros E. pose proof (length_dropWhile f l) as H. rewrite E in H. simpl in H. lia. Qed.

Lemma parseStringBody_length (n : nat) :
  forall s body rest,
    (length s <= n)%nat -> parseStringBody s = Some (body, rest) ->
    (length rest < length s)%nat.
Proof.
  induction n as [|n IH]; intros s body rest Hn H.
  - destruct s; [done|simpl in Hn; lia].
  - destruct s as [|c r]; [done|]. cbn [parseStringBody] in H. simpl in Hn.
    repeat parse_case H; simplify_eq; simpl in *;
      try match goal with
          | E : parseStringBody _ = Some _ |- _ => apply IH in E; [|simpl in *; lia]
          end; simpl in *; lia.
Qed.

Lemma parseDigits1_length (s ds rest : jstr) :
  parseDigits1 s = Some (ds, rest) -> (length rest <= length s)%nat.
Proof.
  unfold parseDigits1. intros H. parse_case H. simplify_eq. apply length_dropWhile.
Qed.

Lemma parseInt_length (s i rest : jstr) :
  parseInt s = Some (i, rest) -> (length rest < length s)%nat.
Proof.
  unfold parseInt. intros H. repeat parse_case H; simplify_eq; simpl; [lia|].
  match goal with |- context [dropWhile ?f ?l] => pose proof (length_dropWhile f l) end.
  lia.
Qed.

Lemma parseFrac_length (s f rest : jstr) :
  parseFrac s = Some (f, rest) -> (length rest <= length s)%nat.
Proof.
  unfold parseFrac. intros H. repeat parse_case H; simplify_eq; simpl; try lia.
  match goal with E : parseDigits1 _ = Some _ |- _ => apply parseDigits1_length in E end.
  lia.
Qed.

Lemma parseExp_length (s e rest : jstr) :
  parseExp s = Some (e, rest) -> (length rest <= length s)%nat.
Proof.
  unfold parseExp. intros H. repeat parse_case H; simplify_eq; simpl; try lia.
  all: match goal with E : parseDigits1 _ = Some _ |- _ => apply parseDigits1_length in E end.
  all: simpl in *; lia.
Qed.

Lemma parseNumber_length (s n rest : jstr) :
  parseNumber s = Some (n, rest) -> (length rest < length s)%nat.
Proof.
  unfold parseNumber. intros H.
  destruct (match s with
            | c :: r => if c =? ch "-" then ([c], r) else ([], s)
            | [] => ([], s)
            end) as [sign s0] eqn:Es.
  assert (length s0 <= length s)%nat as Hs0.
  { destruct s as [|c r]; [by simplify_eq|].
    destruct (c =? ch "-"); simplify_eq; simpl; lia. }
  repeat parse_case H; simplify_eq.
  repeat match goal with
         | E : parseInt _ = Some _ |- _ => apply parseInt_length in E
         | E : parseFrac _ = Some _ |- _ => apply parseFrac_length in E
         | E : parseExp _ = Some _ |- _ => apply parseExp_length in E
         end.
  lia.
Qed.

Lemma startsWith_nonempty (s p : jstr) :
  p <> [] -> startsWith s p = true -> s <> [].
Proof. by destruct p, s. Qed.

Lemma parseKeyword_length (s rest : jstr) (v : JSON) :
  parseKeyword s = Some (v, rest) -> (length rest < length s)%nat.
Proof.
  unfold parseKeyword. intros H.
  repeat parse_case H; simplify_eq;
    match goal with
    | E : startsWith _ _ = true |- _ => apply startsWith_nonempty in E; [|done]
    end;
    rewrite length_drop; destruct s; simpl; done || lia.
Qed.

Lemma parseValue_mono (n m : nat) (s : jstr) (r : JSON * jstr) :
  parseValue n s = Some r -> (n <= m)%nat -> parseValue m s = Some r.
Proof. intros H Hm. by apply (proj1 (parse_fuel_mono n) s r H). Qed.

Lemma parseMembers_mono (n m : nat) (s : jstr) (acc : list (jstr * JSON)) (r : JSON * jstr) :
  parseMembers n s acc = Some r -> (n <= m)%nat -> parseMembers m s acc = Some r.
Proof. intros H Hm. by apply (proj1 (proj2 (parse_fuel_mono n)) s acc r H). Qed.

Lemma parseElements_mono (n m : nat) (s : jstr) (acc : list JSON) (r : JSON * jstr) :
  parseElements n s acc = Some r -> (n <= m)%nat -> parseElements m s acc = Some r.
Proof. intros H Hm. by apply (proj2 (proj2 (parse_fuel_mono n)) s acc r H). Qed.

(** Applies the induction hypotheses to the recursive calls in the context. *)
Ltac use_bound IHv IHm IHe n :=
  repeat match goal with
         | E : parseValue n _ = Some (_, _) |- _ => apply IHv in E as [? ?]
         | E : parseMembers n _ _ = Some (_, _) |- _ => apply IHm in E as [? ?]
         | E : parseElements n _ _ = Some (_, _) |- _ => apply IHe in E as [? ?]
         end.

(** Replays the parsing steps of the context in the goal, with fuel [k]. *)
Ltac replay k :=
  repeat match goal with
         | E : dropWhile _ _ = _ |- _ => rewrite E; clear E
         | E : (_ =? _) = _ |- _ => rewrite E; clear E
         | E : (_ || _) = _ |- _ => rewrite E; clear E
         | E : parseStringBody _ = _ |- _ => rewrite E; clear E
         | E : parseNumber _ = _ |- _ => rewrite E; clear E
         | E : parseValue _ _ = Some _ |- _ =>
           rewrite (parseValue_mono _ k _ _ E) by lia; clear E
         | E : parseMembers _ _ _ = Some _ |- _ =>
           rewrite (parseMembers_mono _ k _ _ _ E) by lia; clear E
         | E : parseElements _ _ _ = Some _ |- _ =>
           rewrite (parseElements_mono _ k _ _ _ E) by lia; clear E
         end; done.

(** Collects what the parsing steps in the context consumed. *)
Ltac consumed :=
  repeat match goal with
         | E : dropWhile _ _ = _ :: _ |- _ =>
           generalize (dropWhile_cons_length _ _ _ _ E); revert E
         | E : parseStringBody _ = Some _ |- _ =>
           generalize (parseStringBody_length _ _ _ _ (Nat.le_refl _) E); revert E
         | E : parseNumber _ = Some _ |- _ =>
           generalize (parseNumber_length _ _ _ E); revert E
         | E : parseKeyword _ = Some _ |- _ =>
           generalize (parseKeyword_length _ _ _ E); revert E
         end; intros.

Lemma parse_fuel_bound (n : nat) :
  (forall s v rest,
     parseValue n s = Some (v, rest) ->
     (length rest < length s)%nat
     /\ parseValue (length s - length rest) s = Some (v, rest))
  /\ (forall s acc v rest,
        parseMembers n s acc = Some (v, rest) ->
        (length rest < length s)%nat
        /\ parseMembers (length s - length rest) s acc = Some (v, rest))
  /\ (forall s acc v rest,
        parseElements n s acc = Some (v, rest) ->
        (length rest < length s)%nat
        /\ parseElements (length s - length rest) s acc = Some (v, rest)).
Proof.
  induction n as [|n (IHv & IHm & IHe)]; [by repeat split|].
  split; [|split].
  - intros s v rest H. cbn [parseValue] in H.
    repeat parse_case H; simplify_eq; use_bound IHv IHm IHe n;
      consumed; cbn [length] in *; (split; [lia|]);
      (destruct (length s - length rest)%nat as [|k] eqn:Ek; [lia|]);
      cbn [parseValue]; replay k.
  - intros s acc v rest H. cbn [parseMembers] in H.
    repeat parse_case H; simplify_eq; use_bound IHv IHm IHe n;
      consumed; cbn [length] in *; (split; [lia|]);
      (destruct (length s - length rest)%nat as [|k] eqn:Ek; [lia|]);
      cbn [parseMembers]; replay k.
  - intros s acc v rest H. cbn [parseElements] in H.
    repeat parse_case H; simplify_eq; use_bound IHv IHm IHe n;
      consumed; cbn [length] in *; (split; [lia|]);
      (destruct (length s - length rest)%nat as [|k] eqn:Ek; [lia|]);
      cbn [parseElements]; replay k.
Qed.

(** The fuel [JSON_parse] gives the parser is enough: a text that parses
    with some fuel parses with the fuel chosen. *)
Lemma JSON_parse_fuel (text : jstr) (v : JSON) :
  JSON_parse text = Ok v
  <-> exists n, parseValue n (trimJsonWs text) = Some (v, []).
Proof.
  unfold JSON_parse. split.
  - intros H. exists (S (length (trimJsonWs text))).
    destruct (parseValue _ _) as [[v' [|c r]]|]; by simplify_eq.
  - intros [n H]. apply (proj1 (parse_fuel_bound n)) in H as [_ H].
    rewrite (parseValue_mono _ (S (length (trimJsonWs text))) _ _ H); [done|].
    cbn [length]. lia.
Qed.


(** ** Trimming and fences *)

Section DropWhile.
Context {A : Type} (f : A -> bool).

Lemma dropWhile_all (ws l : list A) :
  forallb f ws = true -> dropWhile f (ws ++ l) = dropWhile f l.
Proof.
  induction ws as [|c ws IH]; simpl; [done|].
  intros [Hc Hws]%andb_prop. rewrite Hc. auto.
Qed.

Lemma dropWhile_all_nil (ws : list A) :
  forallb f ws = true -> dropWhile f ws = [].
Proof.
  intros H. rewrite <- (app_nil_r ws), dropWhile_all by done. done.
Qed.

Lemma dropWhile_app (l w : list A) :
  dropWhile f (l ++ w)
  = match dropWhile f l with [] => dropWhile f w | _ => dropWhile f l ++ w end.
Proof.
  induction l as [|c l IH]; simpl; [done|].
  destruct (f c); [apply IH|done].
Qed.

Lemma forallb_reverse (l : list A) :
  forallb f (reverse l) = forallb f l.
Proof.
  induction l as [|c l IH]; [done|].
  rewrite reverse_cons, forallb_app, IH. simpl.
  rewrite andb_true_r. apply andb_comm.
Qed.

Lemma trimBy_surrounded (w1 l w2 : list A) :
  forallb f w1 = true -> forallb f w2 = true ->
  trimBy f (w1 ++ l ++ w2) = trimBy f l.
Proof.
  intros H1 H2. unfold trimBy. rewrite dropWhile_all by done.
  rewrite dropWhile_app. destruct (dropWhile f l) as [|c r] eqn:E.
  - rewrite (dropWhile_all_nil w2) by done. done.
  - rewrite reverse_app, (dropWhile_all (reverse w2)); [done|].
    by rewrite forallb_reverse.
Qed.

Lemma trimBy_cons (c : A) (r : list A) :
  f c = false -> trimBy f (c :: r) = c :: reverse (dropWhile f (reverse r)).
Proof.
  intros Hc. unfold trimBy. simpl. rewrite Hc.
  rewrite reverse_cons, dropWhile_app.
  destruct (dropWhile f (reverse r)) as [|x xs] eqn:E.
  - simpl. rewrite Hc. done.
  - rewrite reverse_app. done.
Qed.

Lemma trimBy_fixed (c d : A) (l : list A) :
  f c = false -> f d = false -> trimBy f (c :: l ++ [d]) = c :: l ++ [d].
Proof.
  intros Hc Hd. rewrite trimBy_cons by done.
  rewrite reverse_app. simpl. rewrite Hd.
  rewrite reverse_cons, reverse_involutive. done.
Qed.
End DropWhile.

Lemma trim_eq (s : jstr) : trim s = trimBy isWhiteSpace s.
Proof. reflexivity. Qed.

Lemma trimJsonWs_eq (s : jstr) : trimJsonWs s = trimBy isJsonWs s.
Proof. reflexivity. Qed.

Lemma startsWith_app (p r : jstr) : startsWith (p ++ r) p = true.
Proof.
  induction p as [|c p IH]; simpl; [done|].
  rewrite N.eqb_refl. exact IH.
Qed.

Lemma endsWith_app (r p : jstr) : endsWith (r ++ p) p = true.
Proof. unfold endsWith. rewrite reverse_app. apply startsWith_app. Qed.

(** [JSON.parse] ignores JSON white space around the text. *)
Lemma JSON_parse_surrounded (m1 p m2 : jstr) :
  forallb isJsonWs m1 = true -> forallb isJsonWs m2 = true ->
  JSON_parse (m1 ++ p ++ m2) = JSON_parse p.
Proof.
  intros H1 H2. unfold JSON_parse.
  rewrite !trimJsonWs_eq, trimBy_surrounded by done. done.
Qed.

(** A text that parses does not begin with the letter j, in either case. *)
Lemma JSON_parse_not_j (c : N) (r : jstr) (v : JSON) :
  JSON_parse (c :: r) = Ok v -> canonicalize c <> 74.
Proof.
  intros Hp Hc.
  assert (c = 74 \/ c = 106) as Hcases.
  { unfold canonicalize in Hc.
    destruct ((97 <=? c) && (c <=? 122)) eqn:E; [right|left]; lia. }
  unfold JSON_parse in Hp. rewrite trimJsonWs_eq in Hp.
  destruct Hcases as [-> | ->]; rewrite trimBy_cons in Hp by done;
    simpl in Hp; done.
Qed.

Lemma startsWithCI_app (tag p r : jstr) :
  startsWithCI tag p = true -> startsWithCI (tag ++ r) p = true.
Proof.
  revert tag. induction p as [|a p IH]; intros [|b tag]; simpl; try done.
  intros [-> H]%andb_prop. simpl. auto.
Qed.

Lemma startsWithCI_json_head (c : N) (r : jstr) :
  canonicalize c <> 74 -> startsWithCI (c :: r) (lit "json") = false.
Proof.
  intros H. change (lit "json") with (106 :: lit "son").
  cbn [startsWithCI]. apply andb_false_intro1. apply N.eqb_neq.
  change (canonicalize 106) with 74. congruence.
Qed.

Lemma isJsonWs_not_j (c : N) : isJsonWs c = true -> canonicalize c <> 74.
Proof.
  unfold isJsonWs. rewrite !orb_true_iff, !N.eqb_eq.
  intros [[[-> | ->] | ->] | ->]; done.
Qed.

Lemma replaceLeadingFence_fenced (tag m1 p rest : jstr) (v : JSON) :
  JSON_parse p = Ok v ->
  isJsonTag tag = true -> forallb isJsonWs m1 = true ->
  replaceLeadingFence (fence ++ tag ++ m1 ++ p ++ rest) = m1 ++ p ++ rest.
Proof.
  intros Hp Htag Hm1. unfold replaceLeadingFence.
  rewrite startsWith_app.
  replace (drop 3 (fence ++ tag ++ m1 ++ p ++ rest)) with (tag ++ m1 ++ p ++ rest)
    by reflexivity.
  destruct tag as [|t tag].
  - rewrite app_nil_l.
    assert (exists c r, m1 ++ p ++ rest = c :: r /\ canonicalize c <> 74)
      as (c & r & -> & Hc).
    { destruct m1 as [|c m1].
      - destruct p as [|c p]; [done|].
        exists c, (p ++ rest). split; [done|]. by eapply JSON_parse_not_j.
      - exists c, (m1 ++ p ++ rest). split; [done|].
        apply isJsonWs_not_j. simpl in Hm1. by apply andb_prop in Hm1 as [? _]. }
    by rewrite startsWithCI_json_head.
  - unfold isJsonTag in Htag. apply andb_prop in Htag as [Hlen Hci].
    apply Nat.eqb_eq in Hlen.
    rewrite startsWithCI_app by done.
    rewrite drop_app_length'; done.
Qed.

Lemma replaceTrailingFence_fenced (s : jstr) :
  replaceTrailingFence (s ++ fence) = s.
Proof.
  unfold replaceTrailingFence. rewrite endsWith_app.
  rewrite take_app_length'; [done|].
  rewrite length_app. simpl. lia.
Qed.

Lemma cleanJsonString_nonempty (text : jstr) :
  text <> [] ->
  cleanJsonString text
  = if startsWith (trim text) fence
    then replaceTrailingFence (replaceLeadingFence (trim text))
    else trim text.
Proof. by destruct text. Qed.

Lemma cleanJsonString_fenced (ws1 tag m1 p m2 ws2 : jstr) (v : JSON) :
  JSON_parse p = Ok v ->
  forallb isWhiteSpace ws1 = true -> forallb isWhiteSpace ws2 = true ->
  isJsonTag tag = true ->
  forallb isJsonWs m1 = true -> forallb isJsonWs m2 = true ->
  cleanJsonString (fenced ws1 tag m1 p m2 ws2) = m1 ++ p ++ m2.
Proof.
  intros Hp H1 H2 Htag Hm1 Hm2.
  set (body := fence ++ tag ++ m1 ++ p ++ m2 ++ fence).
  assert (fenced ws1 tag m1 p m2 ws2 = ws1 ++ body ++ ws2) as Hf.
  { unfold fenced, body. by rewrite <- !app_assoc. }
  assert (trim (fenced ws1 tag m1 p m2 ws2) = body) as Ht.
  { rewrite Hf, trim_eq, trimBy_surrounded by done.
    unfold body.
    replace (fence ++ tag ++ m1 ++ p ++ m2 ++ fence)
      with (96 :: ([96; 96] ++ tag ++ m1 ++ p ++ m2 ++ [96; 96]) ++ [96]).
    - by apply trimBy_fixed.
    - simpl. f_equal. f_equal. f_equal. rewrite <- !app_assoc. done. }
  rewrite cleanJsonString_nonempty.
  2:{ rewrite Hf. intros [_ E]%app_eq_nil. done. }
  rewrite Ht. unfold body at 1. rewrite startsWith_app.
  unfold body.
  rewrite (replaceLeadingFence_fenced tag m1 p (m2 ++ fence) v) by done.
  rewrite !app_assoc. rewrite replaceTrailingFence_fenced.
  by rewrite <- !app_assoc.
Qed.

(** C7.  Sanitizing a fenced wrapping of a payload that parses, and
    parsing the outcome, gives the result of parsing the payload itself:
    [ws1] and [ws2] are any white space around the fences, the leading
    fence carries no tag or the tag json in any letter case, and [m1],
    [m2] are the blanks and line breaks between the fences and the
    payload. *)
Theorem C7_fenced_payload_parses_alike (ws1 tag m1 p m2 ws2 : jstr) (v : JSON) :
  JSON_parse p = Ok v ->
  forallb isWhiteSpace ws1 = true -> forallb isWhiteSpace ws2 = true ->
  isJsonTag tag = true ->
  forallb isJsonWs m1 = true -> forallb isJsonWs m2 = true ->
  JSON_parse (cleanJsonString (fenced ws1 tag m1 p m2 ws2)) = JSON_parse p
  /\ JSON_parse (cleanJsonString (fenced ws1 tag m1 p m2 ws2)) = Ok v.
Proof.
  intros Hp H1 H2 Htag Hm1 Hm2.
  rewrite (cleanJsonString_fenced ws1 tag m1 p m2 ws2 v) by done.
  rewrite JSON_parse_surrounded by done. done.
Qed.

Lemma C7_witness :
  let p := qlit "{'groupId': 2, 'cameraPrompts': 'pan'}" in
  JSON_parse (cleanJsonString (fenced [32; 10] (lit "JSON") [10] p [13; 10] [10; 160]))
  = Ok (JObject [(lit "groupId", JNumber (lit "2"));
                 (lit "cameraPrompts", JString (lit "pan"))]).
Proof.
  intros p.
  apply (C7_fenced_payload_parses_alike [32; 10] (lit "JSON") [10] p [13; 10] [10; 160]);
    vm_compute; reflexivity.
Defined.

(** ** Running computations *)

Lemma filterMap_app {A B} (f : A -> option B) (l1 l2 : list A) :
  filterMap f (l1 ++ l2) = filterMap f l1 ++ filterMap f l2.
Proof.
  induction l1 as [|x l1 IH]; [done|].
  simpl. destruct (f x); simpl; by rewrite IH.
Qed.

Lemma after_nil {A} (o : Out A) : after [] o = o.
Proof. by destruct o. Qed.

Lemma after_after {A} (es1 es2 : list Event) (o : Out A) :
  after es1 (after es2 o) = after (es1 ++ es2) o.
Proof. unfold after. simpl. by rewrite app_assoc. Qed.

Lemma bind_Ok {A B} (m : M A) (k : A -> M B) (w : World) (a : A) :
  res (m w) = Ok a -> bind m k w = after (events (m w)) (k a (world (m w))).
Proof. unfold bind. by intros ->. Qed.

Lemma bind_Throw {A B} (m : M A) (k : A -> M B) (w : World) (e : JsError) :
  res (m w) = Throw e -> bind m k w = mkOut (Throw e) (world (m w)) (events (m w)).
Proof. unfold bind. by intros ->. Qed.

Lemma attempts_app (es1 es2 : list Event) :
  attempts (es1 ++ es2) = (attempts es1 + attempts es2)%nat.
Proof. unfold attempts. by rewrite List.filter_app, length_app. Qed.

Lemma sleeps_app (es1 es2 : list Event) :
  sleeps (es1 ++ es2) = sleeps es1 ++ sleeps es2.
Proof. apply filterMap_app. Qed.

(** ** The sanitizer does not validate *)

Lemma parseOrThrow_empty (msg : string) (r : Response) (w : World) :
  emptyText r -> parseOrThrow msg r w = mkOut (Ok (JObject [])) w [].
Proof. by intros [H | H]; unfold parseOrThrow; rewrite H. Qed.

Lemma generateStoryboard_eq (userIdea : jstr) (shotCount : Z) (modelName : jstr)
    (w : World) (r : Response) :
  res (safeGenerateContent modelName w) = Ok r ->
  generateStoryboard userIdea shotCount modelName w
  = after (events (safeGenerateContent modelName w))
      (parseOrThrow
         "Failed to parse storyboard JSON. The model output might be malformed or truncated."
         r (world (safeGenerateContent modelName w))).
Proof. intros H. unfold generateStoryboard. by rewrite (bind_Ok _ _ _ _ H). Qed.

Lemma generatePromptsForGroup_eq (groupId : Z) (groupNarrative : jstr)
    (shots : list Shot.t) (settings : StoryboardSettings.t) (modelName : jstr)
    (w : World) (r : Response) :
  res (safeGenerateContent modelName w) = Ok r ->
  generatePromptsForGroup groupId groupNarrative shots settings modelName w
  = after (EvGeneratePromptsForGroup groupId groupNarrative shots settings modelName
           :: events (safeGenerateContent modelName w))
      (parseOrThrow "Failed to parse prompts JSON" r
         (world (safeGenerateContent modelName w))).
Proof.
  intros H. unfold generatePromptsForGroup.
  rewrite (bind_Ok _ _ _ tt) by done. simpl.
  rewrite (bind_Ok _ _ _ _ H). by rewrite after_after.
Qed.

Lemma generatePromptsForGroup_Throw (groupId : Z) (groupNarrative : jstr)
    (shots : list Shot.t) (settings : StoryboardSettings.t) (modelName : jstr)
    (w : World) (e : JsError) :
  res (safeGenerateContent modelName w) = Throw e ->
  generatePromptsForGroup groupId groupNarrative shots settings modelName w
  = mkOut (Throw e) (world (safeGenerateContent modelName w))
      (EvGeneratePromptsForGroup groupId groupNarrative shots settings modelName
       :: events (safeGenerateContent modelName w)).
Proof.
  intros H. unfold generatePromptsForGroup.
  rewrite (bind_Ok _ _ _ tt) by done. simpl.
  by rewrite (bind_Throw _ _ _ _ H).
Qed.

(** C10.  When the upstream call resolves with an absent or empty text,
    the literal for the empty object is parsed in its place (the
    sanitizer itself maps the empty text to that literal too), so
    script generation and prompt generation both succeed with the empty
    object, which has none of the fields their shapes require. *)
Theorem C10_empty_text_is_empty_object (w : World) (modelName : jstr) (r : Response) :
  res (safeGenerateContent modelName w) = Ok r ->
  emptyText r ->
  cleanJsonString [] = lit "{}"
  /\ cleanJsonString (textOrEmptyObject (text r)) = lit "{}"
  /\ (forall userIdea shotCount,
        res (generateStoryboard userIdea shotCount modelName w) = Ok (JObject []))
  /\ (forall groupId groupNarrative shots settings,
        res (generatePromptsForGroup groupId groupNarrative shots settings modelName w)
        = Ok (JObject []))
  /\ (forall k, In k (requiredOf storyboardSchema) -> objGet [] k = None)
  /\ (forall k, In k (requiredOf promptSchema) -> objGet [] k = None)
  /\ missingRequired storyboardSchema (JObject []) = true
  /\ missingRequired promptSchema (JObject []) = true.
Proof.
  intros Hr He. repeat split; try done.
  - by destruct He as [-> | ->].
  - intros. rewrite (generateStoryboard_eq _ _ _ _ _ Hr).
    by rewrite parseOrThrow_empty.
  - intros. rewrite (generatePromptsForGroup_eq _ _ _ _ _ _ _ Hr).
    by rewrite parseOrThrow_empty.
Qed.

Lemma C10_witness :
  let w := worldOf (fun _ => Ok (mkResponse None)) idleApp in
  res (generatePromptsForGroup 1 (lit "chase") [] noSettings flash w) = Ok (JObject [])
  /\ res (generateStoryboard (lit "a detective") 8 flash w) = Ok (JObject []).
Proof.
  intros w.
  destruct (C10_empty_text_is_empty_object w flash (mkResponse None))
    as (_ & _ & Hs & Hp & _); [reflexivity | left; reflexivity |].
  split; [apply Hp | apply Hs].
Defined.

Lemma parseOrThrow_res (msg : string) (r : Response) (w : World) :
  res (parseOrThrow msg r w)
  = match JSON_parse (cleanJsonString (textOrEmptyObject (text r))) with
    | Ok v => Ok v
    | Throw _ => Throw (Error msg)
    end.
Proof. unfold parseOrThrow. by destruct (JSON_parse _). Qed.

(** C4, as the code has it.  Whenever the payload of the response parses,
    prompt generation and script generation return the parsed value as it
    is: nothing checks it against the expected shape, so a value that
    misses required fields is returned like any other.  An error is
    raised only when the payload does not parse, and it is the fixed
    parse error of the operation. *)
Theorem C4_parsed_payload_is_returned_unvalidated
    (w : World) (modelName : jstr) (r : Response) :
  res (safeGenerateContent modelName w) = Ok r ->
  (forall v,
     JSON_parse (cleanJsonString (textOrEmptyObject (text r))) = Ok v ->
     (forall groupId groupNarrative shots settings,
        res (generatePromptsForGroup groupId groupNarrative shots settings modelName w)
        = Ok v)
     /\ (forall userIdea shotCount,
           res (generateStoryboard userIdea shotCount modelName w) = Ok v))
  /\ (forall e,
        JSON_parse (cleanJsonString (textOrEmptyObject (text r))) = Throw e ->
        (forall groupId groupNarrative shots settings,
           res (generatePromptsForGroup groupId groupNarrative shots settings modelName w)
           = Throw (Error "Failed to parse prompts JSON"))
        /\ (forall userIdea shotCount,
              res (generateStoryboard userIdea shotCount modelName w)
              = Throw (Error
                  "Failed to parse storyboard JSON. The model output might be malformed or truncated."))).
Proof.
  intros Hr. split; intros x Hx; split; intros.
  - rewrite (generatePromptsForGroup_eq _ _ _ _ _ _ _ Hr). simpl.
    by rewrite parseOrThrow_res, Hx.
  - rewrite (generateStoryboard_eq _ _ _ _ _ Hr). simpl.
    by rewrite parseOrThrow_res, Hx.
  - rewrite (generatePromptsForGroup_eq _ _ _ _ _ _ _ Hr). simpl.
    by rewrite parseOrThrow_res, Hx.
  - rewrite (generateStoryboard_eq _ _ _ _ _ Hr). simpl.
    by rewrite parseOrThrow_res, Hx.
Qed.

Lemma C4_witness :
  let w := worldOf (fun _ => Ok (mkResponse (Some partialPromptText))) idleApp in
  res (generatePromptsForGroup 1 (lit "chase") [] noSettings flash w) = Ok partialPrompt.
Proof.
  intros w.
  destruct (C4_parsed_payload_is_returned_unvalidated w flash
              (mkResponse (Some partialPromptText))) as [H _]; [reflexivity|].
  destruct (H partialPrompt) as [Hp _]; [vm_compute; reflexivity|].
  apply Hp.
Defined.

(** C4 as stated fails: a payload that parses and misses required fields
    of the expected shape is returned as a success, for prompt generation
    and for script generation alike. *)
Lemma C4_counterexample :
  (let w := worldOf (fun _ => Ok (mkResponse (Some partialPromptText))) idleApp in
   JSON_parse (cleanJsonString partialPromptText) = Ok partialPrompt
   /\ missingRequired promptSchema partialPrompt = true
   /\ res (generatePromptsForGroup 1 (lit "chase") [] noSettings flash w)
      = Ok partialPrompt)
  /\ (let w := worldOf (fun _ => Ok (mkResponse (Some partialBundleText))) idleApp in
      JSON_parse (cleanJsonString partialBundleText) = Ok partialBundle
      /\ missingRequired storyboardSchema partialBundle = true
      /\ res (generateStoryboard (lit "a detective") 8 flash w) = Ok partialBundle).
Proof. vm_compute. repeat split. Qed.

(** ** The retry policy *)

Lemma getAI_hasClient (w : World) :
  hasClient w = true ->
  exists c w1,
    getAI w = mkOut (Ok c) w1 []
    /\ upstream w1 = upstream w /\ ncalls w1 = ncalls w /\ app w1 = app w
    /\ hasClient w1 = true.
Proof.
  unfold hasClient, getAI. destruct (genAI w) as [c|] eqn:Hg.
  - intros _. exists c, w. by rewrite Hg.
  - destruct (API_KEY w) as [[|c k]|]; try done.
    intros _. by exists (c :: k), (with_genAI (Some (c :: k)) w).
Qed.

Lemma attempts_retryEvents (model : jstr) (k : nat) (delay : Z) :
  attempts (retryEvents model k delay) = k.
Proof.
  revert delay. induction k as [|k IH]; intros delay; [done|].
  simpl. unfold attempts in *. simpl. by rewrite IH.
Qed.

Lemma sleeps_retryEvents (model : jstr) (k : nat) (delay : Z) :
  sleeps (retryEvents model k delay) = backoffs k delay.
Proof.
  revert delay. induction k as [|k IH]; intros delay; [done|].
  simpl. unfold sleeps in *. simpl. by rewrite IH.
Qed.

Lemma retryLoop_step (model : jstr) (n i : nat) (delay : Z) (w : World) :
  retryLoop model (S n) i delay w
  = match upstream w (ncalls w) with
    | Ok r => mkOut (Ok r) (with_ncalls (S (ncalls w)) w) [EvGenerateContent model]
    | Throw e =>
      if isQuotaError e && (i <? maxRetries)%nat
      then after [EvGenerateContent model; EvSleep delay]
             (retryLoop model n (S i) (delay * 2)%Z (with_ncalls (S (ncalls w)) w))
      else mkOut (Throw e) (with_ncalls (S (ncalls w)) w) [EvGenerateContent model]
    end.
Proof.
  simpl. unfold tryCatch, generateContent. simpl.
  destruct (upstream w (ncalls w)) as [r|e]; [done|].
  destruct (isQuotaError e && (i <? maxRetries)%nat); [|done].
  unfold bind, sleep, emit. simpl.
  by rewrite after_after.
Qed.

(** [k] transient failures in a row, while retries are left, lead to the
    loop [k] iterations later, with the back-off doubled [k] times. *)
Lemma retryLoop_transient_prefix (model : jstr) (k : nat) :
  forall (n i : nat) (delay : Z) (w : World),
    (forall j, (j < k)%nat -> isTransient (upstream w (ncalls w + j)%nat) = true) ->
    (i + k <= maxRetries)%nat -> (k <= n)%nat ->
    retryLoop model n i delay w
    = after (retryEvents model k delay)
        (retryLoop model (n - k) (i + k) (delay * 2 ^ Z.of_nat k)%Z
           (with_ncalls (ncalls w + k) w)).
Proof.
  induction k as [|k IH]; intros n i delay w Hup Hi Hn.
  - rewrite after_nil, Nat.sub_0_r, !Nat.add_0_r, Z.mul_1_r.
    by destruct w.
  - destruct n as [|n]; [lia|].
    rewrite retryLoop_step.
    pose proof (Hup 0%nat ltac:(lia)) as H0. rewrite Nat.add_0_r in H0.
    destruct (upstream w (ncalls w)) as [r|e]; [done|]. simpl in H0.
    rewrite H0. replace (i <? maxRetries)%nat with true
      by (symmetry; apply Nat.ltb_lt; lia).
    simpl andb. cbv iota.
    rewrite (IH n (S i) (delay * 2)%Z).
    + rewrite after_after. simpl.
      replace (i + S k)%nat with (S (i + k)) by lia.
      replace (delay * 2 * 2 ^ Z.of_nat k)%Z with (delay * 2 ^ Z.of_nat (S k))%Z.
      * unfold with_ncalls; simpl.
        replace (S (ncalls w + k)) with (ncalls w + S k)%nat by lia. done.
      * rewrite Nat2Z.inj_succ, Z.pow_succ_r by lia. lia.
    + intros j Hj. simpl.
      replace (S (ncalls w + j)) with (ncalls w + S j)%nat by lia.
      apply Hup. lia.
    + lia.
    + lia.
Qed.

(** Without a client and without a key the wrapper fails before any
    attempt. *)
Lemma safeGenerateContent_no_client (model : jstr) (w : World) :
  hasClient w = false ->
  safeGenerateContent model w
  = mkOut (Throw (Error "API_KEY is not set in environment variables.")) w [].
Proof.
  unfold hasClient, safeGenerateContent, bind, getAI.
  destruct (genAI w); [done|]. by destruct (API_KEY w) as [[|c k]|].
Qed.

Lemma safeGenerateContent_hasClient (model : jstr) (w : World) :
  hasClient w = true ->
  exists w1,
    safeGenerateContent model w = retryLoop model (maxRetries + 1) 0 2000%Z w1
    /\ upstream w1 = upstream w /\ ncalls w1 = ncalls w /\ app w1 = app w.
Proof.
  intros (c & w1 & Hg & Hu & Hn & Ha & _)%getAI_hasClient.
  exists w1. split; [|done].
  unfold safeGenerateContent. rewrite (bind_Ok _ _ _ c) by by rewrite Hg.
  rewrite Hg. simpl. apply after_nil.
Qed.

Lemma backoffs_2000 (k : nat) :
  (k <= 3)%nat -> backoffs k 2000 = take k [2000; 4000; 8000]%Z.
Proof. intros H. by destruct k as [|[|[|[|k]]]]; [| | | |lia]. Qed.

(** The outcome of the attempt that ends the retries: the wrapper stops at
    a success, at an error that is not transient, and at the fourth
    attempt whatever it brings. *)
Lemma retryLoop_last (model : jstr) (k : nat) (w : World) :
  (k <= maxRetries)%nat ->
  (forall j, (j < k)%nat -> isTransient (upstream w (ncalls w + j)%nat) = true) ->
  (k = maxRetries \/ isTransient (upstream w (ncalls w + k)%nat) = false) ->
  let o := retryLoop model (maxRetries + 1) 0 2000%Z w in
  res o = upstream w (ncalls w + k)%nat
  /\ events o = retryEvents model k 2000 ++ [EvGenerateContent model]
  /\ ncalls (world o) = (ncalls w + k + 1)%nat
  /\ app (world o) = app w.
Proof.
  intros Hk Hpre Hlast o. subst o.
  rewrite (retryLoop_transient_prefix model k); [|done|simpl; lia|unfold maxRetries in *; lia].
  replace (maxRetries + 1 - k)%nat with (S (maxRetries - k))
    by (unfold maxRetries in *; lia).
  rewrite retryLoop_step. simpl.
  destruct (upstream w (ncalls w + k)%nat) as [r|e] eqn:E.
  - simpl. repeat split; lia.
  - replace (isQuotaError e && (k <? maxRetries)%nat) with false.
    + simpl. repeat split; lia.
    + symmetry. apply andb_false_iff. destruct Hlast as [-> | H].
      * right. by apply Nat.ltb_ge.
      * left. exact H.
Qed.

(** C1.  For a call wrapped by the retry policy (a client being
    available), with [outcome j] what the upstream does at the [j]-th
    attempt of the call:
    - [k <= 3] transient failures followed by a success give that
      success after [k + 1] attempts, with the back-offs 2000, 4000,
      8000 ms before the respective retries;
    - four transient failures give the error of the fourth attempt after
      exactly four attempts;
    - an error that is not transient is passed on at once: no sleep and
      no attempt follows it. *)
Theorem C1_retry_policy (model : jstr) (w : World) :
  hasClient w = true ->
  let outcome j := upstream w (ncalls w + j)%nat in
  let o := safeGenerateContent model w in
  (forall k r,
     (k <= 3)%nat ->
     (forall j, (j < k)%nat -> isTransient (outcome j) = true) ->
     outcome k = Ok r ->
     res o = Ok r
     /\ attempts (events o) = (k + 1)%nat
     /\ sleeps (events o) = take k [2000; 4000; 8000]%Z
     /\ events o = retryEvents model k 2000 ++ [EvGenerateContent model])
  /\ ((forall j, (j <= 3)%nat -> isTransient (outcome j) = true) ->
      exists e,
        outcome 3%nat = Throw e
        /\ res o = Throw e
        /\ attempts (events o) = 4%nat
        /\ sleeps (events o) = [2000; 4000; 8000]%Z)
  /\ (forall k e,
        (k <= 3)%nat ->
        (forall j, (j < k)%nat -> isTransient (outcome j) = true) ->
        outcome k = Throw e -> isQuotaError e = false ->
        res o = Throw e
        /\ attempts (events o) = (k + 1)%nat
        /\ sleeps (events o) = take k [2000; 4000; 8000]%Z
        /\ events o = retryEvents model k 2000 ++ [EvGenerateContent model]).
Proof.
  intros (w1 & Hs & Hu & Hn & _)%(safeGenerateContent_hasClient model).
  intros outcome o. subst o. rewrite Hs.
  assert (forall k,
    (k <= maxRetries)%nat ->
    (forall j, (j < k)%nat -> isTransient (outcome j) = true) ->
    (k = maxRetries \/ isTransient (outcome k) = false) ->
    let o := retryLoop model (maxRetries + 1) 0 2000%Z w1 in
    res o = outcome k
    /\ attempts (events o) = (k + 1)%nat
    /\ sleeps (events o) = take k [2000; 4000; 8000]%Z
    /\ events o = retryEvents model k 2000 ++ [EvGenerateContent model]) as Hgen.
  { intros k Hk Hpre Hlast o. subst o outcome. cbv beta in *.
    destruct (retryLoop_last model k w1 Hk) as (Hr & He & _).
    - intros j Hj. rewrite Hu, Hn. auto.
    - rewrite Hu, Hn. exact Hlast.
    - rewrite Hr, He, Hu, Hn. repeat split.
      + rewrite attempts_app, attempts_retryEvents. done.
      + rewrite sleeps_app, sleeps_retryEvents, backoffs_2000 by done.
        apply app_nil_r. }
  split; [|split].
  - intros k r Hk Hpre Hok.
    destruct (Hgen k Hk Hpre) as (Hr & Hrest); [right; by rewrite Hok|].
    rewrite Hr, Hok. done.
  - intros Hall.
    destruct (Hgen 3%nat) as (Hr & Ha & Hsl & _); [done| |by left|].
    + intros j Hj. apply Hall. lia.
    + pose proof (Hall 3%nat ltac:(lia)) as H3.
      destruct (outcome 3%nat) as [r|e] eqn:E; [done|].
      by exists e.
  - intros k e Hk Hpre Herr Hnq.
    destruct (Hgen k Hk Hpre) as (Hr & Hrest); [right; by rewrite Herr|].
    rewrite Hr, Herr. done.
Qed.

Lemma C1_witness :
  (let w := worldOf (fun n => match n with
                              | 0%nat => Throw quota429
                              | 1%nat => Throw exhausted
                              | _ => Ok (mkResponse (Some (lit "{}")))
                              end) idleApp in
   let o := safeGenerateContent flash w in
   res o = Ok (mkResponse (Some (lit "{}")))
   /\ attempts (events o) = 3%nat /\ sleeps (events o) = [2000; 4000]%Z)
  /\ (let w := worldOf (fun _ => Throw quota429) idleApp in
      let o := safeGenerateContent flash w in
      res o = Throw quota429
      /\ attempts (events o) = 4%nat /\ sleeps (events o) = [2000; 4000; 8000]%Z)
  /\ (let w := worldOf (fun n => match n with
                                 | 0%nat => Throw quota429
                                 | _ => Throw denied
                                 end) idleApp in
      let o := safeGenerateContent flash w in
      res o = Throw denied
      /\ attempts (events o) = 2%nat /\ sleeps (events o) = [2000]%Z).
Proof.
  split; [|split]; intros w.
  - destruct (C1_retry_policy flash w eq_refl) as (H & _ & _).
    destruct (H 2%nat (mkResponse (Some (lit "{}")))) as (Hr & Ha & Hs & _);
      [lia | by intros [|[|j]] Hj; [| |lia] | reflexivity |].
    by repeat split.
  - destruct (C1_retry_policy flash w eq_refl) as (_ & H & _).
    destruct H as (e & He & Hr & Ha & Hs); [done|].
    injection He as <-. by repeat split.
  - destruct (C1_retry_policy flash w eq_refl) as (_ & _ & H).
    destruct (H 1%nat denied) as (Hr & Ha & Hs & _);
      [lia | by intros [|j] Hj; [|lia] | reflexivity | reflexivity |].
    by repeat split.
Defined.

(** ** The service acts on its own state only *)

Lemma ServiceOnly_ret {A} (x : A) : ServiceOnly (ret x).
Proof. done. Qed.

Lemma ServiceOnly_throw {A} (e : JsError) : ServiceOnly (@throw A e).
Proof. done. Qed.

Lemma ServiceOnly_emit (e : Event) : ServiceOnly (emit e).
Proof. done. Qed.

Lemma ServiceOnly_bind {A B} (m : M A) (k : A -> M B) :
  ServiceOnly m -> (forall x, ServiceOnly (k x)) -> ServiceOnly (bind m k).
Proof.
  intros Hm Hk a w. unfold bind. cbv zeta. rewrite !Hm. simpl.
  destruct (res (m w)) as [x|e]; [|done].
  rewrite Hk. done.
Qed.

Lemma ServiceOnly_tryCatch {A} (m : M A) (h : JsError -> M A) :
  ServiceOnly m -> (forall e, ServiceOnly (h e)) -> ServiceOnly (tryCatch m h).
Proof.
  intros Hm Hh a w. unfold tryCatch. cbv zeta. rewrite !Hm. simpl.
  destruct (res (m w)) as [x|e]; [done|].
  rewrite Hh. done.
Qed.

Lemma ServiceOnly_getAI : ServiceOnly getAI.
Proof.
  intros a w. unfold getAI. simpl.
  destruct (genAI w); [done|]. by destruct (API_KEY w) as [[|c k]|].
Qed.

Lemma ServiceOnly_generateContent (model : jstr) : ServiceOnly (generateContent model).
Proof. done. Qed.

Lemma ServiceOnly_retryLoop (model : jstr) (n i : nat) (delay : Z) :
  ServiceOnly (retryLoop model n i delay).
Proof.
  revert i delay. induction n as [|n IH]; intros i delay; simpl.
  - apply ServiceOnly_throw.
  - apply ServiceOnly_tryCatch; [apply ServiceOnly_generateContent|].
    intros e. destruct (isQuotaError e && (i <? maxRetries)%nat).
    + apply ServiceOnly_bind; [apply ServiceOnly_emit|]. intros _. apply IH.
    + apply ServiceOnly_throw.
Qed.

Lemma ServiceOnly_safeGenerateContent (model : jstr) :
  ServiceOnly (safeGenerateContent model).
Proof.
  apply ServiceOnly_bind; [apply ServiceOnly_getAI|].
  intros _. apply ServiceOnly_retryLoop.
Qed.

Lemma ServiceOnly_parseOrThrow (msg : string) (r : Response) :
  ServiceOnly (parseOrThrow msg r).
Proof. unfold parseOrThrow. by destruct (JSON_parse _). Qed.

Lemma ServiceOnly_generatePromptsForGroup (groupId : Z) (groupNarrative : jstr)
    (shots : list Shot.t) (settings : StoryboardSettings.t) (modelName : jstr) :
  ServiceOnly (generatePromptsForGroup groupId groupNarrative shots settings modelName).
Proof.
  apply ServiceOnly_bind; [apply ServiceOnly_emit|]. intros _.
  apply ServiceOnly_bind; [apply ServiceOnly_safeGenerateContent|].
  intros r. apply ServiceOnly_parseOrThrow.
Qed.

Lemma with_app_id (w : World) : with_app (fun _ => app w) w = w.
Proof. by destruct w. Qed.

Lemma ServiceOnly_app {A} (m : M A) (w : World) :
  ServiceOnly m -> app (world (m w)) = app w.
Proof.
  intros H. pose proof (H (app w) w) as E. rewrite with_app_id in E.
  rewrite E at 1. done.
Qed.

Lemma retryLoop_events (model : jstr) (n : nat) :
  forall (i : nat) (delay : Z) (w : World),
    forallb isServiceEvent (events (retryLoop model n i delay w)) = true.
Proof.
  induction n as [|n IH]; intros i delay w; [done|].
  rewrite retryLoop_step. destruct (upstream w (ncalls w)) as [r|e]; [done|].
  destruct (isQuotaError e && (i <? maxRetries)%nat); [|done].
  simpl. apply IH.
Qed.

Lemma getAI_cases (w : World) :
  (exists c w1, getAI w = mkOut (Ok c) w1 [])
  \/ (exists e, getAI w = mkOut (Throw e) w []).
Proof.
  unfold getAI. destruct (genAI w); [left; eauto|].
  destruct (API_KEY w) as [[|c k]|]; eauto.
Qed.

Lemma safeGenerateContent_events (model : jstr) (w : World) :
  forallb isServiceEvent (events (safeGenerateContent model w)) = true.
Proof.
  unfold safeGenerateContent.
  destruct (getAI_cases w) as [(c & w1 & E) | (e & E)].
  - rewrite (bind_Ok _ _ _ c) by by rewrite E.
    rewrite E. cbn [events world after app].
    apply retryLoop_events.
  - rewrite (bind_Throw _ _ _ e) by by rewrite E.
    by rewrite E.
Qed.

(** The actions of a prompt generation: its call, then actions of the
    service. *)
Lemma generatePromptsForGroup_events (groupId : Z) (groupNarrative : jstr)
    (shots : list Shot.t) (settings : StoryboardSettings.t) (modelName : jstr)
    (w : World) :
  exists es,
    events (generatePromptsForGroup groupId groupNarrative shots settings modelName w)
    = EvGeneratePromptsForGroup groupId groupNarrative shots settings modelName :: es
    /\ forallb isServiceEvent es = true.
Proof.
  exists (events (safeGenerateContent modelName w)).
  split; [|apply safeGenerateContent_events].
  destruct (res (safeGenerateContent modelName w)) as [r|e] eqn:E.
  - rewrite (generatePromptsForGroup_eq _ _ _ _ _ _ _ E). simpl.
    unfold parseOrThrow. destruct (JSON_parse _); simpl; by rewrite app_nil_r.
  - by rewrite (generatePromptsForGroup_Throw _ _ _ _ _ _ _ E).
Qed.

(** ** The generation queue *)

Lemma generateFor_with_app (sb : StoryboardData.t) (model : jstr) (g : Group.t)
    (f : AppSt -> AppSt) (w : World) :
  generateFor sb model g (with_app f w)
  = out_with_app (fun _ => f (app w)) (generateFor sb model g w).
Proof.
  exact (ServiceOnly_generatePromptsForGroup _ _ _ _ _ (f (app w)) w).
Qed.

Lemma itemRuns_with_app (sb : StoryboardData.t) (model : jstr) (work : list Group.t) :
  forall (f : AppSt -> AppSt) (w : World),
    itemRuns sb model work (with_app f w) = itemRuns sb model work w.
Proof.
  induction work as [|g rest IH]; intros f w; [done|].
  cbn [itemRuns]. rewrite generateFor_with_app.
  cbn [out_with_app res world events]. by rewrite IH.
Qed.

Lemma length_itemRuns (sb : StoryboardData.t) (model : jstr) (work : list Group.t) :
  forall w, length (itemRuns sb model work w) = length work.
Proof. induction work as [|g rest IH]; intros w; cbn [itemRuns length]; auto. Qed.

Lemma item_itemRuns (sb : StoryboardData.t) (model : jstr) (work : list Group.t) :
  forall w, map item (itemRuns sb model work w) = work.
Proof.
  induction work as [|g rest IH]; intros w; cbn [itemRuns map item]; [done|].
  by rewrite IH.
Qed.

Lemma tryCatch_Ok {A} (m : M A) (h : JsError -> M A) (w : World) (a : A) :
  res (m w) = Ok a -> tryCatch m h w = m w.
Proof. unfold tryCatch. by intros ->. Qed.

Lemma tryCatch_Throw {A} (m : M A) (h : JsError -> M A) (w : World) (e : JsError) :
  res (m w) = Throw e -> tryCatch m h w = after (events (m w)) (h e (world (m w))).
Proof. unfold tryCatch. by intros ->. Qed.

(** The guarded part of the loop body: it always completes, storing the
    result of a successful generation and nothing otherwise. *)
Lemma queueLoop_try (sb : StoryboardData.t) (model : jstr) (g : Group.t) (w : World) :
  let o := generateFor sb model g w in
  let r := mkItemRun g (res o) (events o) in
  tryCatch
    (data <- generateFor sb model g ;;
     setPrompts (fun prev => <[Group.id g := data]> prev))
    (fun _ => ret tt) w
  = mkOut (Ok tt)
      (with_app (fun a => set_prompts (store r (prompts a)) a) (world o))
      (events o).
Proof.
  intros o r. subst r. unfold store. cbn [result item].
  destruct (res o) as [data|e] eqn:E.
  - rewrite (tryCatch_Ok _ _ _ tt); rewrite (bind_Ok _ _ _ data) by done; [|done].
    unfold after, setPrompts. cbn [res world events]. fold o.
    by rewrite app_nil_r.
  - rewrite (tryCatch_Throw _ _ _ e); rewrite (bind_Throw _ _ _ e) by done; [|done].
    unfold after, ret. cbn [res world events]. fold o.
    rewrite app_nil_r. f_equal. destruct (world o) as [? ? ? ? []]. done.
Qed.

Lemma map_item_itemRuns {B} (sb : StoryboardData.t) (f : Group.t -> B) (model : jstr)
    (work : list Group.t) (w : World) :
  map (fun r => f (item r)) (itemRuns sb model work w) = map f work.
Proof. by rewrite <- (map_map item f), item_itemRuns. Qed.

(** Without a bundle the queue does nothing; its callers check for one. *)
Lemma runGenerationQueue_no_bundle (work : list Group.t) (w : World) :
  storyboard (app w) = None -> runGenerationQueue work w = ret tt w.
Proof. unfold runGenerationQueue. by intros ->. Qed.

Lemma handlers_no_bundle (groupId : Z) (w : World) :
  storyboard (app w) = None ->
  handleConfirmStoryboard w = ret tt w /\ handleRegenerateGroup groupId w = ret tt w.
Proof. unfold handleConfirmStoryboard, handleRegenerateGroup. by intros ->. Qed.

(** One iteration of the loop. *)
Lemma queueLoop_step (sb : StoryboardData.t) (model : jstr) (len i : nat)
    (g : Group.t) (rest : list Group.t) (w : World) :
  let o := generateFor sb model g w in
  let r := mkItemRun g (res o) (events o) in
  let a' :=
    set_batchProgress (Some {| current := i + 1; total := len |})
      (set_prompts (store r (prompts (app w)))
         (set_currentGroupId (Some (Group.id g)) (app w))) in
  queueLoop sb model len i (g :: rest) w
  = after (itemEvents len i r)
      (queueLoop sb model len (S i) rest (with_app (fun _ => a') (world o))).
Proof.
  intros o r a'.
  change (queueLoop sb model len i (g :: rest))
    with (setCurrentGroupId (Some (Group.id g)) ;;
          tryCatch
            (data <- generateFor sb model g ;;
             setPrompts (fun prev => <[Group.id g := data]> prev))
            (fun _ => ret tt) ;;
          setBatchProgress (Some {| current := i + 1; total := len |}) ;;
          sleep 500 ;;
          queueLoop sb model len (S i) rest).
  rewrite (bind_Ok _ _ _ tt) by done.
  cbn [setCurrentGroupId res world events].
  rewrite (bind_Ok _ _ _ tt) by by rewrite queueLoop_try.
  rewrite queueLoop_try. cbn [res world events].
  rewrite generateFor_with_app. cbn [out_with_app res world events]. fold o.
  rewrite (bind_Ok _ _ _ tt) by done.
  cbn [setBatchProgress res world events].
  rewrite (bind_Ok _ _ _ tt) by done.
  cbn [sleep emit res world events].
  rewrite !after_after. unfold itemEvents. cbn [actions item].
  f_equal. simpl. by rewrite <- app_assoc.
Qed.

(** The whole loop, in terms of the generations of its items. *)
Lemma queueLoop_run (sb : StoryboardData.t) (model : jstr) (len : nat)
    (work : list Group.t) :
  forall (i : nat) (w : World),
    let runs := itemRuns sb model work w in
    let o := queueLoop sb model len i work w in
    res o = Ok tt
    /\ events o = loopEvents len i runs
    /\ prompts (app (world o)) = applyRuns runs (prompts (app w))
    /\ appState (app (world o)) = appState (app w)
    /\ storyboard (app (world o)) = storyboard (app w)
    /\ selectedModel (app (world o)) = selectedModel (app w)
    /\ error (app (world o)) = error (app w)
    /\ currentGroupId (app (world o)) = lastId work (currentGroupId (app w))
    /\ batchProgress (app (world o)) = lastProgress len i work (batchProgress (app w)).
Proof.
  induction work as [|g rest IH]; intros i w runs o; [done|].
  subst runs o. rewrite queueLoop_step. cbn [itemRuns].
  set (og := generateFor sb model g w).
  set (r := mkItemRun g (res og) (events og)).
  set (a' := set_batchProgress _ _).
  destruct (IH (S i) (with_app (fun _ => a') (world og)))
    as (Hres & Hev & Hp & Hst & Hsb & Hm & Herr & Hcur & Hbp).
  rewrite itemRuns_with_app in Hev, Hp.
  cbn [after res world events loopEvents].
  rewrite Hres, Hev, Hp, Hst, Hsb, Hm, Herr, Hcur, Hbp.
  repeat split.
  - unfold lastId. cbn [app with_app]. rewrite last_cons.
    destruct (last rest); done.
  - unfold lastProgress. cbn [app with_app length].
    destruct rest; cbn [length]; [done|].
    by replace (S i + S (length rest))%nat with (i + S (S (length rest)))%nat by lia.
Qed.

Lemma runGenerationQueue_run (sb : StoryboardData.t) (work : list Group.t) (w : World) :
  storyboard (app w) = Some sb ->
  let runs := itemRuns sb (selectedModel (app w)) work w in
  let o := runGenerationQueue work w in
  res o = Ok tt
  /\ events o
     = [EvSetAppState GENERATING_PROMPTS;
        EvSetBatchProgress (Some {| current := 0; total := length work |})]
       ++ loopEvents (length work) 0 runs
       ++ [EvSetBatchProgress None; EvSetAppState VIEW_PROMPTS]
  /\ prompts (app (world o)) = applyRuns runs (prompts (app w))
  /\ appState (app (world o)) = VIEW_PROMPTS
  /\ batchProgress (app (world o)) = None
  /\ storyboard (app (world o)) = Some sb
  /\ selectedModel (app (world o)) = selectedModel (app w)
  /\ error (app (world o)) = error (app w)
  /\ currentGroupId (app (world o)) = lastId work (currentGroupId (app w)).
Proof.
  intros Hsb runs o. subst runs o. unfold runGenerationQueue. rewrite Hsb.
  rewrite (bind_Ok _ _ _ tt) by done. cbn [setAppState res world events].
  rewrite (bind_Ok _ _ _ tt) by done. cbn [setBatchProgress res world events].
  set (w1 := with_app _ (with_app _ w)).
  destruct (queueLoop_run sb (selectedModel (app w)) (length work) work 0 w1)
    as (Hres & Hev & Hp & Hst & Hsb' & Hm & Herr & Hcur & Hbp).
  assert (itemRuns sb (selectedModel (app w)) work w1
          = itemRuns sb (selectedModel (app w)) work w) as Hruns
    by (unfold w1; by rewrite !itemRuns_with_app).
  rewrite Hruns in Hev, Hp.
  rewrite (bind_Ok _ _ _ tt) by done.
  rewrite (bind_Ok _ _ _ tt) by done.
  cbn [setAppState setBatchProgress after res world events app with_app
       set_appState set_batchProgress prompts appState batchProgress storyboard
       selectedModel error currentGroupId].
  rewrite Hev, Hp, Hsb', Hm, Herr, Hcur.
  repeat split; done.
Qed.

Lemma service_events_silent (es : list Event) :
  forallb isServiceEvent es = true ->
  progressOf es = [] /\ selectionsOf es = [] /\ shotsPassed es = [].
Proof.
  induction es as [|e es IH]; [done|].
  cbn [forallb]. intros [He Hes]%andb_prop. destruct (IH Hes) as (H1 & H2 & H3).
  unfold progressOf, selectionsOf, shotsPassed in *.
  destruct e; try done; cbn [filterMap]; auto.
Qed.

Lemma itemRuns_ok (sb : StoryboardData.t) (model : jstr) (work : list Group.t) :
  forall w, Forall (itemRunOk sb) (itemRuns sb model work w).
Proof.
  induction work as [|g rest IH]; intros w; cbn [itemRuns]; constructor; [|apply IH].
  unfold itemRunOk. cbn [actions item].
  destruct (generatePromptsForGroup_events (Group.id g) (Group.narrative g)
              (groupShots sb g) (StoryboardData.settings sb) model w) as (es & He & Hs).
  unfold generateFor. rewrite He. eauto 10.
Qed.

Lemma loopEvents_projections (sb : StoryboardData.t) (len : nat) (runs : list ItemRun) :
  Forall (itemRunOk sb) runs ->
  forall i,
    progressOf (loopEvents len i runs)
    = map (fun j => Some {| current := j; total := len |}) (seq (S i) (length runs))
    /\ selectionsOf (loopEvents len i runs)
       = map (fun r => Some (Group.id (item r))) runs
    /\ shotsPassed (loopEvents len i runs)
       = map (fun r => (Group.id (item r), groupShots sb (item r))) runs.
Proof.
  induction 1 as [|r runs Hr Hruns IH]; intros i; [done|].
  destruct (IH (S i)) as (IH1 & IH2 & IH3).
  destruct Hr as (narrative & settings & model & es & Ha & Hs).
  destruct (service_events_silent es Hs) as (S1 & S2 & S3).
  cbn [loopEvents]. unfold itemEvents. rewrite Ha.
  unfold progressOf, selectionsOf, shotsPassed in *.
  rewrite !filterMap_app. simpl. rewrite !filterMap_app.
  rewrite IH1, IH2, IH3, S1, S2, S3. simpl.
  repeat split. do 3 f_equal. lia.
Qed.

Lemma runGenerationQueue_projections (sb : StoryboardData.t) (work : list Group.t)
    (w : World) :
  storyboard (app w) = Some sb ->
  let es := events (runGenerationQueue work w) in
  progressOf es
  = Some {| current := 0; total := length work |}
    :: map (fun j => Some {| current := j; total := length work |}) (seq 1 (length work))
    ++ [None]
  /\ selectionsOf es = map (fun g => Some (Group.id g)) work
  /\ shotsPassed es = map (fun g => (Group.id g, groupShots sb g)) work.
Proof.
  intros Hsb es. subst es.
  destruct (runGenerationQueue_run sb work w Hsb) as (_ & Hev & _).
  destruct (loopEvents_projections sb (length work) _
              (itemRuns_ok sb (selectedModel (app w)) work w) 0) as (Hp & Hsel & Hcalls).
  rewrite length_itemRuns in Hp.
  rewrite Hev. unfold progressOf, selectionsOf, shotsPassed in *.
  rewrite !filterMap_app, Hp, Hsel, Hcalls. simpl. rewrite !app_nil_r.
  rewrite (map_item_itemRuns sb (fun g => Some (Group.id g))).
  rewrite (map_item_itemRuns sb (fun g => (Group.id g, groupShots sb g))).
  done.
Qed.

(** C2.  For a work list of [N] groups handed to the queue (a bundle being
    loaded), the values BatchProgress is set to are, in order: current 0
    of total [N]; then current 1, 2, ..., [N], each of total [N], one after
    each item's attempt whatever its outcome; then absent.  The run ends
    with BatchProgress absent. *)
Theorem C2_batch_progress (sb : StoryboardData.t) (work : list Group.t) (w : World) :
  storyboard (app w) = Some sb ->
  let o := runGenerationQueue work w in
  let N := length work in
  progressOf (events o)
  = Some {| current := 0; total := N |}
    :: map (fun j => Some {| current := j; total := N |}) (seq 1 N) ++ [None]
  /\ events o
     = [EvSetAppState GENERATING_PROMPTS;
        EvSetBatchProgress (Some {| current := 0; total := N |})]
       ++ loopEvents N 0 (itemRuns sb (selectedModel (app w)) work w)
       ++ [EvSetBatchProgress None; EvSetAppState VIEW_PROMPTS]
  /\ batchProgress (app (world o)) = None.
Proof.
  intros Hsb o N. subst o N.
  destruct (runGenerationQueue_run sb work w Hsb) as (_ & Hev & _ & _ & Hbp & _).
  destruct (runGenerationQueue_projections sb work w Hsb) as (Hp & _).
  done.
Qed.

Lemma C2_witness :
  let w := worldOf firstAnswerBroken (appOf demoBundle ∅ None) in
  progressOf (events (runGenerationQueue demoGroups w))
  = [Some {| current := 0; total := 2 |}; Some {| current := 1; total := 2 |};
     Some {| current := 2; total := 2 |}; None].
Proof.
  intros w.
  destruct (C2_batch_progress demoBundle demoGroups w eq_refl) as (H & _).
  exact H.
Defined.

Lemma store_lookup_ne (r : ItemRun) (p : gmap Z JSON) (gid : Z) :
  (Group.id (item r) = gid -> exists e, result r = Throw e) ->
  store r p !! gid = p !! gid.
Proof.
  intros H. unfold store. destruct (result r) as [data|e] eqn:E; [|done].
  destruct (decide (Group.id (item r) = gid)) as [Heq|Hne].
  - destruct (H Heq) as [e He]. done.
  - by rewrite lookup_insert_ne.
Qed.

Lemma applyRuns_lookup_failed (runs : list ItemRun) (gid : Z) :
  forall p : gmap Z JSON,
    (forall r, r ∈ runs -> Group.id (item r) = gid -> exists e, result r = Throw e) ->
    applyRuns runs p !! gid = p !! gid.
Proof.
  induction runs as [|r runs IH]; intros p H; [done|].
  unfold applyRuns in *. cbn [foldl]. rewrite IH.
  - apply store_lookup_ne. apply H. by left.
  - intros r' Hr'. apply H. by right.
Qed.

(** C3.  Whatever the generations of the items come to (an upstream
    error, a payload that does not parse), the run of the queue over a
    work list completes without an error; the loop body runs once for
    each work item, in order; a group all of whose items failed has the
    same entry in the PromptResult mapping after the run as before (none,
    if it had none); and the run ends in the phase of reviewing prompts. *)
Theorem C3_item_failures_are_isolated (sb : StoryboardData.t) (work : list Group.t)
    (w : World) :
  storyboard (app w) = Some sb ->
  let o := runGenerationQueue work w in
  let runs := itemRuns sb (selectedModel (app w)) work w in
  res o = Ok tt
  /\ selectionsOf (events o) = map (fun g => Some (Group.id g)) work
  /\ map fst (shotsPassed (events o)) = map Group.id work
  /\ map item runs = work
  /\ (forall gid,
        (forall r, r ∈ runs -> Group.id (item r) = gid -> exists e, result r = Throw e) ->
        prompts (app (world o)) !! gid = prompts (app w) !! gid)
  /\ appState (app (world o)) = VIEW_PROMPTS.
Proof.
  intros Hsb o runs. subst o runs.
  destruct (runGenerationQueue_run sb work w Hsb) as (Hres & _ & Hp & Hst & _).
  destruct (runGenerationQueue_projections sb work w Hsb) as (_ & Hsel & Hcalls).
  rewrite Hres, Hp, Hst, Hsel, Hcalls, map_map. cbn [fst].
  repeat split.
  - apply item_itemRuns.
  - intros gid H. by apply applyRuns_lookup_failed.
Qed.

Lemma C3_witness :
  let w := worldOf firstAnswerBroken (appOf demoBundle ∅ None) in
  let o := runGenerationQueue demoGroups w in
  res o = Ok tt
  /\ prompts (app (world o)) !! 1%Z = None
  /\ appState (app (world o)) = VIEW_PROMPTS.
Proof.
  intros w o. subst o.
  destruct (C3_item_failures_are_isolated demoBundle demoGroups w eq_refl)
    as (Hres & _ & _ & _ & Hfail & Hst).
  split; [exact Hres|]. split; [|exact Hst].
  rewrite (Hfail 1%Z); [reflexivity|].
  intros r Hr Hid. apply list_elem_of_In in Hr. vm_compute in Hr.
  destruct Hr as [<- | [<- | []]].
  - eexists. vm_compute. reflexivity.
  - vm_compute in Hid. discriminate Hid.
Defined.

(** ** The shots of a group *)

Lemma filterMap_ext_in {A B} (f g : A -> option B) (l : list A) :
  (forall x, In x l -> f x = g x) -> filterMap f l = filterMap g l.
Proof.
  induction l as [|x l IH]; intros H; [done|].
  simpl. rewrite (H x) by by left. rewrite IH; [done|].
  intros y Hy. apply H. by right.
Qed.

Lemma filterMap_lookup_seq {A} (l : list A) (a n : nat) :
  forall s, filterMap (fun k => l !! (a + k)%nat) (seq s n) = take n (drop (a + s) l).
Proof.
  induction n as [|n IH]; intros s; [done|].
  cbn [seq filterMap]. rewrite IH.
  replace (a + S s)%nat with (S (a + s)) by lia.
  destruct (l !! (a + s)%nat) as [x|] eqn:E.
  - by rewrite (drop_S l x (a + s)).
  - apply lookup_ge_None in E.
    rewrite !drop_ge by lia. by rewrite take_nil.
Qed.

Lemma elementsAt_take_drop {A} (l : list A) (start : Z) (n : nat) :
  (0 <= start)%Z -> elementsAt l start n = take n (drop (Z.to_nat start) l).
Proof.
  intros H. unfold elementsAt.
  rewrite (filterMap_ext_in _ (fun k => l !! (Z.to_nat start + k)%nat)).
  - rewrite filterMap_lookup_seq. by rewrite Nat.add_0_r.
  - intros k _. cbv zeta.
    replace (0 <=? start + Z.of_nat k)%Z with true by (symmetry; apply Z.leb_le; lia).
    f_equal. lia.
Qed.

Lemma slice_take_drop {A} (l : list A) (start : Z) (n : nat) :
  (0 <= start)%Z ->
  slice l start (start + Z.of_nat n) = take n (drop (Z.to_nat start) l).
Proof.
  intros H. unfold slice, relIndex.
  replace (start <? 0)%Z with false by (symmetry; apply Z.ltb_ge; lia).
  replace (start + Z.of_nat n <? 0)%Z with false by (symmetry; apply Z.ltb_ge; lia).
  destruct (decide (Z.of_nat (length l) <= start)%Z) as [Hge|Hlt].
  - rewrite !drop_ge by lia. by rewrite !take_nil.
  - replace (Z.to_nat (Z.min start (Z.of_nat (length l)))) with (Z.to_nat start) by lia.
    destruct (decide (start + Z.of_nat n <= Z.of_nat (length l))%Z) as [Hin|Hout].
    + f_equal. lia.
    + rewrite (take_ge _ n) by (rewrite length_drop; lia).
      apply take_ge. rewrite length_drop. lia.
Qed.

Lemma groupShots_elementsAt (sb : StoryboardData.t) (g : Group.t) :
  (0 <= Group.id g)%Z ->
  groupShots sb g = elementsAt (StoryboardData.script sb) ((Group.id g - 1) * 4) 4.
Proof.
  intros H. unfold groupShots.
  destruct (decide (Group.id g = 0%Z)) as [-> | Hne].
  - change ((0 - 1) * 4 + 4)%Z with 0%Z. change ((0 - 1) * 4)%Z with (-4)%Z.
    unfold slice, relIndex. simpl.
    replace (Z.to_nat (Z.min 0 (Z.of_nat (length (StoryboardData.script sb))))) with 0%nat
      by lia.
    reflexivity.
  - rewrite elementsAt_take_drop by lia.
    exact (slice_take_drop _ ((Group.id g - 1) * 4) 4 ltac:(lia)).
Qed.

(** With a negative id the indices of [slice] count from the end of the
    script, which the index formula does not describe. *)
Example groupShots_negative_id :
  groupShots demoBundle (Group.mk (-1) [] []) = map demoShot [1; 2; 3; 4]%Z
  /\ elementsAt demoScript ((-1 - 1) * 4) 4 = [].
Proof. split; reflexivity. Qed.

(** C6.  For a work list of groups whose ids are not negative, as the
    1-based ids of the data model are, the shots passed to the prompt
    generation of each work item, in order, are the script elements at the
    zero-based indices from [(id - 1) * 4] up to, not including,
    [(id - 1) * 4 + 4], for the id of its group. *)
Theorem C6_shots_of_group (sb : StoryboardData.t) (work : list Group.t) (w : World) :
  storyboard (app w) = Some sb ->
  Forall (fun g => (0 <= Group.id g)%Z) work ->
  shotsPassed (events (runGenerationQueue work w))
  = map (fun g => (Group.id g,
                   elementsAt (StoryboardData.script sb) ((Group.id g - 1) * 4) 4))
        work.
Proof.
  intros Hsb Hids.
  destruct (runGenerationQueue_projections sb work w Hsb) as (_ & _ & Hcalls).
  rewrite Hcalls. clear Hcalls.
  induction Hids as [|g rest Hg _ IH]; [done|].
  cbn [map]. by rewrite IH, groupShots_elementsAt.
Qed.

Lemma C6_witness :
  let w := worldOf firstAnswerBroken (appOf demoBundle ∅ None) in
  shotsPassed (events (runGenerationQueue demoGroups w))
  = [(1%Z, map demoShot [1; 2; 3; 4]%Z); (2%Z, map demoShot [5; 6; 7; 8]%Z)].
Proof.
  intros w.
  rewrite (C6_shots_of_group demoBundle demoGroups w eq_refl).
  - reflexivity.
  - repeat constructor; vm_compute; discriminate.
Defined.

(** ** Confirming the script *)

Lemma handleConfirmStoryboard_eq (sb : StoryboardData.t) (w : World) :
  storyboard (app w) = Some sb ->
  StoryboardData.groups sb <> [] ->
  handleConfirmStoryboard w
  = after [EvSetAppState VIEW_PROMPTS]
      (match missingGroups w sb with
       | [] =>
         if negb (truthyId (currentGroupId (app w)))
         then setCurrentGroupId
                (option_map Group.id (head (StoryboardData.groups sb)))
                (with_app (set_appState VIEW_PROMPTS) w)
         else ret tt (with_app (set_appState VIEW_PROMPTS) w)
       | _ => runGenerationQueue (missingGroups w sb) (with_app (set_appState VIEW_PROMPTS) w)
       end).
Proof.
  intros Hsb Hne. unfold handleConfirmStoryboard. rewrite Hsb.
  destruct (StoryboardData.groups sb) as [|first rest] eqn:Hg; [done|].
  rewrite (bind_Ok _ _ _ tt) by done. cbn [setAppState res world events].
  unfold missingGroups. rewrite Hg.
  destruct (List.filter _ (first :: rest)) as [|m ms]; [|done].
  cbn [length Nat.ltb Nat.leb head option_map].
  by destruct (negb (truthyId (currentGroupId (app w)))).
Qed.




(** ** Regenerating one group *)

Lemma find_some_id (groupId : Z) (gs : list Group.t) (g : Group.t) :
  List.find (fun g => (Group.id g =? groupId)%Z) gs = Some g ->
  In g gs /\ Group.id g = groupId.
Proof. intros [Hin Heq]%List.find_some. split; [done|]. by apply Z.eqb_eq. Qed.

(** C8.  Regenerating the group with a given id, found in the bundle, is
    the run of the queue over the work list of just that group.  The
    entry of every other id in the PromptResult mapping is unchanged by
    it; when the generation succeeds its result becomes the entry of the
    group's id, replacing a prior one, and when it fails the mapping is
    unchanged.  For any work list, the mapping after a run is the one
    before it with the result of each successful item stored under the id
    of the item's group, in order. *)
Theorem C8_regenerate_group (sb : StoryboardData.t) (groupId : Z) (g : Group.t)
    (w : World) :
  storyboard (app w) = Some sb ->
  List.find (fun g => (Group.id g =? groupId)%Z) (StoryboardData.groups sb) = Some g ->
  let o := handleRegenerateGroup groupId w in
  let generation := generateFor sb (selectedModel (app w)) g w in
  o = runGenerationQueue [g] w
  /\ In g (StoryboardData.groups sb) /\ Group.id g = groupId
  /\ shotsPassed (events o) = [(groupId, groupShots sb g)]
  /\ (forall id', id' <> groupId ->
        prompts (app (world o)) !! id' = prompts (app w) !! id')
  /\ (forall data, res generation = Ok data ->
        prompts (app (world o)) = <[groupId := data]> (prompts (app w)))
  /\ (forall e, res generation = Throw e ->
        prompts (app (world o)) = prompts (app w))
  /\ (forall work,
        prompts (app (world (runGenerationQueue work w)))
        = applyRuns (itemRuns sb (selectedModel (app w)) work w) (prompts (app w))).
Proof.
  intros Hsb Hfind o generation. subst o generation.
  destruct (find_some_id _ _ _ Hfind) as [Hin Hid].
  assert (handleRegenerateGroup groupId w = runGenerationQueue [g] w) as ->.
  { unfold handleRegenerateGroup. by rewrite Hsb, Hfind. }
  destruct (runGenerationQueue_run sb [g] w Hsb) as (_ & _ & Hp & _).
  destruct (runGenerationQueue_projections sb [g] w Hsb) as (_ & _ & Hcalls).
  rewrite Hp, Hcalls. cbn [itemRuns applyRuns foldl map]. unfold store.
  cbn [result item]. rewrite Hid.
  repeat split; try done.
  - intros id' Hne. destruct (res _); [|done]. by rewrite lookup_insert_ne.
  - by intros data ->.
  - by intros e ->.
  - intros work. by destruct (runGenerationQueue_run sb work w Hsb) as (_ & _ & Hp' & _).
Qed.

Lemma C8_witness :
  let w := worldOf (fun _ => Ok (mkResponse (Some partialBundleText)))
             (appOf demoBundle bothPrompts (Some 1%Z)) in
  let o := handleRegenerateGroup 2 w in
  prompts (app (world o)) !! 1%Z = Some partialPrompt
  /\ prompts (app (world o)) = <[2%Z := partialBundle]> bothPrompts.
Proof.
  intros w o. subst o.
  destruct (C8_regenerate_group demoBundle 2
              (Group.mk 2 (lit "5-8") (lit "the fugitive escapes")) w eq_refl eq_refl)
    as (_ & _ & _ & _ & Hother & Hok & _).
  split.
  - rewrite Hother; [reflexivity|discriminate].
  - apply Hok. vm_compute. reflexivity.
Defined.

(** ** Editing one field of a prompt *)

Lemma objGet_objSet_eq (ms : list (jstr * JSON)) (k : jstr) (v : JSON) :
  objGet (objSet ms k v) k = Some v.
Proof.
  induction ms as [|[k' v'] ms IH]; simpl.
  - by rewrite decide_True.
  - destruct (decide (k' = k)) as [->|Hne]; simpl.
    + by rewrite decide_True.
    + by rewrite decide_False.
Qed.

Lemma objGet_objSet_ne (ms : list (jstr * JSON)) (k k' : jstr) (v : JSON) :
  k' <> k -> objGet (objSet ms k v) k' = objGet ms k'.
Proof.
  intros Hne. induction ms as [|[k0 v0] ms IH]; simpl.
  - by rewrite decide_False.
  - destruct (decide (k0 = k)) as [->|Hne0]; simpl.
    + by rewrite !decide_False.
    + destruct (decide (k0 = k')); [done|]. exact IH.
Qed.

(** C9.  Saving a manual edit of the field [key] of the imagePrompts of
    the selected group's PromptResult [p] changes the mapping at that
    group only.  The new entry is an object that has the fields of [p]
    other than imagePrompts unchanged, among them groupId and
    cameraPrompts, and whose imagePrompts has the edited text under [key]
    and every other field as before. *)
Theorem C9_save_edit (key editValue : jstr) (g : Z) (p : JSON) (w : World) :
  currentGroupId (app w) = Some g -> g <> 0%Z ->
  prompts (app w) !! g = Some p -> truthy p = true ->
  let o := saveEdit key editValue w in
  res o = Ok tt
  /\ (forall g', g' <> g -> prompts (app (world o)) !! g' = prompts (app w) !! g')
  /\ exists ms' ip',
       prompts (app (world o)) !! g = Some (JObject ms')
       /\ (forall k, k <> lit "imagePrompts" -> objGet ms' k = objGet (spread (Some p)) k)
       /\ objGet ms' (lit "groupId") = objGet (spread (Some p)) (lit "groupId")
       /\ objGet ms' (lit "cameraPrompts") = objGet (spread (Some p)) (lit "cameraPrompts")
       /\ objGet ms' (lit "imagePrompts") = Some (JObject ip')
       /\ (forall k, k <> key -> objGet ip' k = objGet (spread (get_imagePrompts p)) k)
       /\ objGet ip' key = Some (JString editValue).
Proof.
  intros Hcur Hg Hp Ht o. subst o.
  unfold saveEdit. rewrite Hcur. cbn [truthyId].
  replace (g =? 0)%Z with false by (symmetry; by apply Z.eqb_neq).
  cbn [negb andb]. rewrite Hp, Ht.
  unfold handleUpdatePromptData, setPrompts.
  cbn [res world events app with_app prompts set_prompts]. rewrite Hp.
  split; [done|]. split.
  - intros g' Hne. by rewrite lookup_insert_ne.
  - set (ip' := objSet (spread (get_imagePrompts p)) key (JString editValue)).
    exists (objSet (spread (Some p)) (lit "imagePrompts") (JObject ip')), ip'.
    rewrite lookup_insert_eq. split; [reflexivity|].
    repeat split.
    + intros k Hk. by apply objGet_objSet_ne.
    + by apply objGet_objSet_ne.
    + by apply objGet_objSet_ne.
    + apply objGet_objSet_eq.
    + intros k Hk. by apply objGet_objSet_ne.
    + apply objGet_objSet_eq.
Qed.

Lemma C9_witness :
  let w := worldOf firstAnswerBroken
             (appOf demoBundle (<[1%Z := fullPrompt]> (<[2%Z := partialPrompt]> ∅))
                    (Some 1%Z)) in
  let o := saveEdit (lit "lighting") (lit "moonlight") w in
  prompts (app (world o)) !! 2%Z = Some partialPrompt
  /\ exists ms' ip',
       prompts (app (world o)) !! 1%Z = Some (JObject ms')
       /\ objGet ms' (lit "cameraPrompts") = Some (JString (lit "pan"))
       /\ objGet ms' (lit "imagePrompts") = Some (JObject ip')
       /\ objGet ip' (lit "style") = Some (JString (lit "noir"))
       /\ objGet ip' (lit "lighting") = Some (JString (lit "moonlight")).
Proof.
  intros w o. subst o.
  destruct (C9_save_edit (lit "lighting") (lit "moonlight") 1 fullPrompt w)
    as (_ & Hother & ms' & ip' & Hg & _ & _ & Hcam & Hip & Hrest & Hkey);
    [reflexivity | discriminate | reflexivity | reflexivity |].
  split.
  - rewrite Hother; [reflexivity|discriminate].
  - exists ms', ip'. split; [exact Hg|]. split; [rewrite Hcam; reflexivity|].
    split; [exact Hip|]. split; [|exact Hkey].
    rewrite Hrest; [reflexivity|vm_compute; discriminate].
Defined.

(** ** Every wrapped call is bounded *)

Lemma retryLoop_world (model : jstr) (n : nat) :
  forall (i : nat) (delay : Z) (w : World),
    world (retryLoop model n i delay w)
    = with_ncalls (ncalls w + attempts (events (retryLoop model n i delay w))) w.
Proof.
  induction n as [|n IH]; intros i delay w.
  - cbn. rewrite Nat.add_0_r. by destruct w.
  - rewrite retryLoop_step. destruct (upstream w (ncalls w)) as [r|e].
    + cbn. by rewrite Nat.add_1_r.
    + destruct (isQuotaError e && (i <? maxRetries)%nat).
      * cbn [after world events]. rewrite IH, attempts_app. cbn.
        unfold with_ncalls; cbn. f_equal. lia.
      * cbn. by rewrite Nat.add_1_r.
Qed.

(** The first of the four attempts that does not fail transiently, or
    the fourth. *)
Lemma retry_cutoff (f : nat -> bool) :
  exists k, (k <= maxRetries)%nat
            /\ (forall j, (j < k)%nat -> f j = true)
            /\ (k = maxRetries \/ f k = false).
Proof.
  unfold maxRetries.
  destruct (f 0%nat) eqn:E0; [|exists 0%nat; split; [lia|split; [intros; lia|by right]]].
  destruct (f 1%nat) eqn:E1;
    [|exists 1%nat; split; [lia|split; [|by right]];
      intros j Hj; by replace j with 0%nat by lia].
  destruct (f 2%nat) eqn:E2;
    [|exists 2%nat; split; [lia|split; [|by right]];
      intros j Hj; assert (j = 0 \/ j = 1)%nat as [->| ->] by lia; done].
  exists 3%nat. split; [lia|split; [|by left]].
  intros j Hj. assert (j = 0 \/ j = 1 \/ j = 2)%nat as [->|[->| ->]] by lia; done.
Qed.

Lemma getAI_world (w : World) :
  events (getAI w) = []
  /\ upstream (world (getAI w)) = upstream w
  /\ ncalls (world (getAI w)) = ncalls w
  /\ API_KEY (world (getAI w)) = API_KEY w
  /\ app (world (getAI w)) = app w.
Proof.
  unfold getAI. destruct (genAI w); [done|].
  by destruct (API_KEY w) as [[|c k]|] eqn:Hk; cbn; rewrite ?Hk.
Qed.

Lemma safeGenerateContent_getAI (model : jstr) (w : World) :
  hasClient w = true ->
  safeGenerateContent model w
  = retryLoop model (maxRetries + 1) 0 2000%Z (world (getAI w)).
Proof.
  intros Hc. destruct (getAI_hasClient w Hc) as (c & w1 & Hg & _).
  unfold safeGenerateContent.
  rewrite (bind_Ok _ _ _ c) by (by rewrite Hg).
  rewrite Hg. cbn [events world]. apply after_nil.
Qed.

(** X1.  Whatever the upstream service does, a call wrapped by the retry
    policy makes at most four attempts, with the back-offs 2000, 4000 and
    8000 ms between them and nothing else.  With a client its result is
    the outcome of its last attempt (the error after the loop is never
    raised), every attempt before the last failed transiently, and a
    transient error is passed on from the fourth attempt only.  Without a
    client no attempt is made.  The application state is not touched. *)
Theorem X1_wrapped_call_is_bounded (model : jstr) (w : World) :
  let o := safeGenerateContent model w in
  let n := attempts (events o) in
  (n <= 4)%nat
  /\ sleeps (events o) = take (n - 1) [2000; 4000; 8000]%Z
  /\ ncalls (world o) = (ncalls w + n)%nat
  /\ upstream (world o) = upstream w
  /\ API_KEY (world o) = API_KEY w
  /\ app (world o) = app w
  /\ (hasClient w = true ->
      (1 <= n)%nat
      /\ res o = upstream w (ncalls w + (n - 1))%nat
      /\ events o = retryEvents model (n - 1) 2000 ++ [EvGenerateContent model]
      /\ (forall j, (j < n - 1)%nat -> isTransient (upstream w (ncalls w + j)%nat) = true)
      /\ (isTransient (res o) = true -> n = 4%nat))
  /\ (hasClient w = false ->
      n = 0%nat /\ world o = w
      /\ res o = Throw (Error "API_KEY is not set in environment variables.")).
Proof.
  intros o n. destruct (hasClient w) eqn:Hc.
  - pose proof (safeGenerateContent_getAI model w Hc) as Ho.
    destruct (getAI_world w) as (_ & Hup & Hn & Hkey & Happ).
    set (w1 := world (getAI w)) in *.
    destruct (retry_cutoff (fun j => isTransient (upstream w1 (ncalls w1 + j)%nat)))
      as (k & Hk & Hpre & Hlast).
    destruct (retryLoop_last model k w1 Hk Hpre Hlast) as (Hres & Hev & Hnc & Ha).
    fold o in Ho. rewrite <- Ho in Hres, Hev, Hnc, Ha.
    assert (n = k + 1)%nat as Hnk.
    { subst n. rewrite Hev, attempts_app, attempts_retryEvents. done. }
    unfold maxRetries in Hk.
    replace (n - 1)%nat with k by lia.
    split; [lia|]. split.
    { rewrite Hev, sleeps_app, sleeps_retryEvents. cbn. rewrite app_nil_r.
      by apply backoffs_2000. }
    split; [lia|]. split.
    { rewrite Ho, retryLoop_world. done. }
    split.
    { rewrite Ho, retryLoop_world. done. }
    split; [congruence|]. split; [|done].
    intros _. split; [lia|]. split; [by rewrite Hres, Hup, Hn|]. split; [done|].
    split.
    { intros j Hj. rewrite <- Hup, <- Hn. by apply Hpre. }
    intros Ht. rewrite Hres in Ht.
    destruct Hlast as [->|Hl]; [done|]. congruence.
  - pose proof (safeGenerateContent_no_client model w Hc) as Ho.
    fold o in Ho. subst n. rewrite Ho. cbn.
    repeat split; try done. lia.
Qed.

(** X2.  The client is created once.  When a client is obtained it is the
    cached one or, failing that, one made from a non-empty API key of the
    environment, and from then on every call returns that client and
    changes nothing, whatever the API key of the environment has become.
    A failure is not cached: the world is left as it was, and a later
    non-empty key gives a client. *)
Theorem X2_client_is_created_once (w : World) :
  (forall c,
     res (getAI w) = Ok c ->
     (genAI w = Some c \/ (genAI w = None /\ API_KEY w = Some c /\ c <> []))
     /\ genAI (world (getAI w)) = Some c
     /\ forall k w', genAI w' = genAI (world (getAI w)) ->
                     getAI (with_API_KEY k w') = mkOut (Ok c) (with_API_KEY k w') [])
  /\ (forall e,
        res (getAI w) = Throw e ->
        hasClient w = false
        /\ getAI w = mkOut (Throw (Error "API_KEY is not set in environment variables.")) w []
        /\ forall c k, res (getAI (with_API_KEY (Some (c :: k)) w)) = Ok (c :: k)).
Proof.
  unfold getAI, hasClient. split.
  - intros c Hres. destruct (genAI w) as [c0|] eqn:Hg.
    + cbn in Hres. simplify_eq. split; [by left|]. split; [done|].
      intros k w' Hw'. cbn in *. rewrite Hw', Hg. done.
    + destruct (API_KEY w) as [[|c1 k1]|] eqn:Hk; cbn in Hres; simplify_eq.
      split; [by right|]. split; [done|].
      intros k w' Hw'. cbn in *. rewrite Hw'. done.
  - intros e Hres. destruct (genAI w) as [c0|] eqn:Hg; [done|].
    destruct (API_KEY w) as [[|c1 k1]|] eqn:Hk; cbn in Hres; simplify_eq;
      (split; [done|split; [done|]]); intros c k; cbn; by rewrite Hg.
Qed.

(** ** The parse sites of the service *)

Lemma trim_blank (s : jstr) : blank s = true -> trim s = [].
Proof.
  intros H. unfold trim. by rewrite (dropWhile_all_nil isWhiteSpace s H).
Qed.

Lemma cleanJsonString_blank (s : jstr) :
  s <> [] -> blank s = true -> cleanJsonString s = [].
Proof.
  intros Hs Hb. rewrite (cleanJsonString_nonempty s Hs), (trim_blank s Hb). done.
Qed.

(** A call of the service followed by the parse of its text. *)
Lemma parse_site (msg : string) (model : jstr) (w : World) :
  let call := safeGenerateContent model w in
  let o := bind (safeGenerateContent model) (fun result => parseOrThrow msg result) w in
  events o = events call
  /\ world o = world call
  /\ res o = match res call with
             | Ok r =>
               match JSON_parse (cleanJsonString (textOrEmptyObject (text r))) with
               | Ok v => Ok v
               | Throw _ => Throw (Error msg)
               end
             | Throw e => Throw e
             end.
Proof.
  intros call o. subst o. unfold bind. fold call.
  destruct (res call) as [r|e]; [|done].
  unfold parseOrThrow.
  destruct (JSON_parse (cleanJsonString (textOrEmptyObject (text r))));
    cbn; by rewrite app_nil_r.
Qed.

Lemma refineStoryboardScript_run (currentScript : list Shot.t)
    (instruction modelName : jstr) (w : World) :
  let call := safeGenerateContent modelName w in
  let o := refineStoryboardScript currentScript instruction modelName w in
  events o = events call
  /\ world o = world call
  /\ res o = match res call with
             | Ok r =>
               match JSON_parse (cleanJsonString (textOrEmptyObject (text r))) with
               | Ok JNull => Throw (Error "Failed to parse refined script JSON")
               | Ok parsed => Ok (getField parsed (lit "script"))
               | Throw _ => Throw (Error "Failed to parse refined script JSON")
               end
             | Throw e => Throw e
             end.
Proof.
  intros call o. subst o. unfold refineStoryboardScript, bind. fold call.
  destruct (res call) as [r|e]; [|done].
  destruct (JSON_parse (cleanJsonString (textOrEmptyObject (text r)))) as [[]|];
    cbn; by rewrite app_nil_r.
Qed.

(** X3.  A response whose text is not empty and consists of white space
    only is a parse error at every parse site of the service: the
    sanitizer trims it to the empty text, which is not the literal it
    substitutes for an absent text and does not parse. *)
Theorem X3_blank_text_is_a_parse_error (w : World) (modelName : jstr) (r : Response)
    (s : jstr) :
  res (safeGenerateContent modelName w) = Ok r ->
  text r = Some s -> s <> [] -> blank s = true ->
  cleanJsonString s = []
  /\ JSON_parse (cleanJsonString s) = Throw SyntaxError
  /\ (forall userIdea shotCount,
        res (generateStoryboard userIdea shotCount modelName w)
        = Throw (Error
            "Failed to parse storyboard JSON. The model output might be malformed or truncated."))
  /\ (forall groupId groupNarrative shots settings,
        res (generatePromptsForGroup groupId groupNarrative shots settings modelName w)
        = Throw (Error "Failed to parse prompts JSON"))
  /\ (forall currentPrompts instruction targetField,
        res (refinePrompt currentPrompts instruction modelName targetField w)
        = Throw (Error "Failed to parse refined prompt JSON"))
  /\ (forall currentScript instruction,
        res (refineStoryboardScript currentScript instruction modelName w)
        = Throw (Error "Failed to parse refined script JSON"))
  /\ (forall base64Data mimeType shotCount,
        modelName = lit "gemini-3-flash-preview" ->
        res (parseDocumentToScript base64Data mimeType shotCount w)
        = Throw (Error "Failed to parse document to JSON script.")).
Proof.
  intros Hcall Htext Hs Hb.
  pose proof (cleanJsonString_blank s Hs Hb) as Hclean.
  assert (JSON_parse (cleanJsonString (textOrEmptyObject (text r))) = Throw SyntaxError)
    as Hparse.
  { rewrite Htext. destruct s as [|c s']; [done|]. cbn [textOrEmptyObject].
    by rewrite Hclean. }
  split; [done|]. split; [by rewrite Hclean|].
  split; [|split; [|split; [|split]]].
  - intros userIdea shotCount.
    destruct (parse_site
      "Failed to parse storyboard JSON. The model output might be malformed or truncated."
      modelName w) as (_ & _ & Hres).
    unfold generateStoryboard. cbv zeta in Hres. rewrite Hres, Hcall, Hparse. done.
  - intros groupId groupNarrative shots settings.
    rewrite (generatePromptsForGroup_eq _ _ _ _ _ _ _ Hcall).
    cbn [after res]. rewrite parseOrThrow_res, Hparse. done.
  - intros currentPrompts instruction targetField.
    destruct (parse_site "Failed to parse refined prompt JSON" modelName w)
      as (_ & _ & Hres).
    unfold refinePrompt. cbv zeta in Hres. rewrite Hres, Hcall, Hparse. done.
  - intros currentScript instruction.
    destruct (refineStoryboardScript_run currentScript instruction modelName w)
      as (_ & _ & Hres).
    cbv zeta in Hres. rewrite Hres, Hcall, Hparse. done.
  - intros base64Data mimeType shotCount ->.
    destruct (parse_site "Failed to parse document to JSON script."
                (lit "gemini-3-flash-preview") w) as (_ & _ & Hres).
    unfold parseDocumentToScript. cbv zeta in Hres. rewrite Hres, Hcall, Hparse. done.
Qed.

Lemma X3_witness :
  let w := worldOf (fun _ => Ok (mkResponse (Some [32; 10]))) idleApp in
  res (generateStoryboard (lit "a detective") 8 flash w)
  = Throw (Error
      "Failed to parse storyboard JSON. The model output might be malformed or truncated.")
  /\ res (parseDocumentToScript (lit "JVBERi0=") (lit "application/pdf") 8 w)
     = Throw (Error "Failed to parse document to JSON script.").
Proof.
  intros w.
  destruct (X3_blank_text_is_a_parse_error w flash (mkResponse (Some [32; 10])) [32; 10])
    as (_ & _ & Hs & _ & _ & _ & Hd);
    [reflexivity | reflexivity | discriminate | reflexivity |].
  split; [apply Hs | apply Hd; reflexivity].
Defined.

(** ** Descriptions of media *)

Lemma dropWhile_head {A} (f : A -> bool) (l : list A) (c : A) :
  head (dropWhile f l) = Some c -> f c = false.
Proof.
  induction l as [|x l IH]; [done|]. simpl.
  destruct (f x) eqn:E; [done|]. simpl. by intros [= <-].
Qed.

Lemma dropWhile_last {A} (f : A -> bool) (l : list A) :
  dropWhile f l <> [] -> last (dropWhile f l) = last l.
Proof.
  induction l as [|x l IH]; [done|]. simpl.
  destruct (f x) eqn:E; [|done].
  intros H. rewrite (IH H). destruct l as [|y l]; [done|]. done.
Qed.

(** What is left of a text trimmed by [f] neither begins nor ends with a
    character [f] holds of. *)
Lemma trimBy_ends {A} (f : A -> bool) (l : list A) (c : A) :
  head (trimBy f l) = Some c \/ last (trimBy f l) = Some c -> f c = false.
Proof.
  unfold trimBy. intros [H | H].
  - rewrite head_reverse in H.
    destruct (dropWhile f (reverse (dropWhile f l))) as [|y r] eqn:E; [done|].
    rewrite <- E in H. rewrite dropWhile_last in H by by rewrite E.
    rewrite last_reverse in H. by apply dropWhile_head in H.
  - rewrite last_reverse in H. by apply dropWhile_head in H.
Qed.

(** A call of the flash model followed by the trimming of its text. *)
Lemma trimmed_text_run (w : World) :
  let call := safeGenerateContent (lit "gemini-3-flash-preview") w in
  let o := bind (safeGenerateContent (lit "gemini-3-flash-preview"))
             (fun response => ret (trimmedTextOrEmpty (text response))) w in
  events o = events call
  /\ world o = world call
  /\ res o = match res call with
             | Ok r => Ok (trimmedTextOrEmpty (text r))
             | Throw e => Throw e
             end.
Proof.
  intros call o. subst o. unfold bind. fold call.
  destruct (res call) as [r|e]; [|done]. cbn. by rewrite app_nil_r.
Qed.

(** X4.  The analysis of media and the description of a setting image
    call the flash model, whatever model is selected, and add no failure
    of their own to those of the call: their result is the text of the
    response trimmed, so it neither begins nor ends with white space, and
    it is the empty text when the response has no text or a blank one. *)
Theorem X4_descriptions_are_trimmed_text (mediaItems : list MediaPart)
    (base64Image : jstr) (type : SettingType) (w : World) :
  let call := safeGenerateContent (lit "gemini-3-flash-preview") w in
  let descriptionOf (text : option jstr) (d : jstr) :=
    (forall c, head d = Some c \/ last d = Some c -> isWhiteSpace c = false)
    /\ (forall s, text = Some s -> d = trim s)
    /\ (text = None \/ (exists s, text = Some s /\ blank s = true) -> d = []) in
  forall o,
    o = generateIdeaFromMedia mediaItems w \/ o = generatePromptFromImage base64Image type w ->
    events o = events call
    /\ world o = world call
    /\ app (world o) = app w
    /\ (forall e, res call = Throw e -> res o = Throw e)
    /\ (forall r, res call = Ok r ->
          exists d, res o = Ok d /\ descriptionOf (text r) d).
Proof.
  intros call descriptionOf o Ho.
  assert (o = bind (safeGenerateContent (lit "gemini-3-flash-preview"))
                (fun response => ret (trimmedTextOrEmpty (text response))) w) as ->
    by (by destruct Ho as [-> | ->]).
  destruct (trimmed_text_run w) as (Hev & Hw & Hres). cbv zeta in Hev, Hw, Hres.
  fold call in Hev, Hw, Hres.
  split; [done|]. split; [done|]. split.
  { rewrite Hw. subst call.
    exact (ServiceOnly_app (safeGenerateContent (lit "gemini-3-flash-preview")) w
             (ServiceOnly_safeGenerateContent _)). }
  split; [by intros e He; rewrite Hres, He|].
  intros r Hr. exists (trimmedTextOrEmpty (text r)). split; [by rewrite Hres, Hr|].
  subst descriptionOf. cbv beta. split; [|split].
  - intros c Hc. destruct (text r) as [s|]; cbn in Hc; [|by destruct Hc].
    rewrite trim_eq in Hc. by apply trimBy_ends in Hc.
  - by intros s ->.
  - intros [-> | (s & -> & Hb)]; [done|]. cbn. by apply trim_blank.
Qed.

Lemma X4_witness :
  let w := worldOf (fun _ => Ok (mkResponse (Some (lit "  a street in the rain
")))) idleApp in
  res (generateIdeaFromMedia [mkMediaPart (lit "iVBORw0=") (lit "image/png")] w)
  = Ok (lit "a street in the rain").
Proof.
  intros w.
  destruct (X4_descriptions_are_trimmed_text
              [mkMediaPart (lit "iVBORw0=") (lit "image/png")] [] scene w _
              (or_introl eq_refl))
    as (_ & _ & _ & _ & Hok).
  destruct (Hok _ eq_refl) as (d & Hd & _ & Htrim & _).
  rewrite Hd. f_equal. rewrite (Htrim _ eq_refl). reflexivity.
Defined.

(** ** The refinement of the script *)

(** X5.  The refinement of the script returns the script member of the
    parsed payload as it is, unchecked.  So it succeeds without a script
    ([undefined]) when the response has no text and when the payload is a
    value other than an object; the payload null, although it parses,
    raises the parse error like a text that does not parse. *)
Theorem X5_refined_script_is_unchecked (currentScript : list Shot.t)
    (instruction modelName : jstr) (w : World) (r : Response) :
  res (safeGenerateContent modelName w) = Ok r ->
  let o := refineStoryboardScript currentScript instruction modelName w in
  let payload := JSON_parse (cleanJsonString (textOrEmptyObject (text r))) in
  (emptyText r -> res o = Ok None)
  /\ (forall ms, payload = Ok (JObject ms) -> res o = Ok (objGet ms (lit "script")))
  /\ (forall v, payload = Ok v -> v <> JNull -> (forall ms, v <> JObject ms) ->
                res o = Ok None)
  /\ (payload = Ok JNull -> res o = Throw (Error "Failed to parse refined script JSON"))
  /\ (forall e, payload = Throw e ->
                res o = Throw (Error "Failed to parse refined script JSON"))
  /\ events o = events (safeGenerateContent modelName w).
Proof.
  intros Hcall o payload.
  destruct (refineStoryboardScript_run currentScript instruction modelName w)
    as (Hev & _ & Hres).
  cbv zeta in Hev, Hres. fold o in Hev, Hres. rewrite Hcall in Hres. fold payload in Hres.
  split; [|split; [|split; [|split; [|split]]]]; [| | | | |done].
  - intros He. rewrite Hres. subst payload. by destruct He as [-> | ->].
  - intros ms Hp. rewrite Hres, Hp. done.
  - intros v Hp Hnull Hobj. rewrite Hres, Hp.
    destruct v; try done. by destruct (Hobj ms).
  - intros Hp. rewrite Hres, Hp. done.
  - intros e Hp. rewrite Hres, Hp. done.
Qed.

Lemma X5_witness :
  res (refineStoryboardScript demoScript (lit "at night") flash
         (worldOf (fun _ => Ok (mkResponse (Some (lit "null")))) idleApp))
  = Throw (Error "Failed to parse refined script JSON")
  /\ res (refineStoryboardScript demoScript (lit "at night") flash
            (worldOf (fun _ => Ok (mkResponse (Some (lit "[1, 2]")))) idleApp))
     = Ok None
  /\ res (refineStoryboardScript demoScript (lit "at night") flash
            (worldOf (fun _ => Ok (mkResponse (Some partialBundleText))) idleApp))
     = Ok (Some (JArray [])).
Proof.
  split; [|split].
  - destruct (X5_refined_script_is_unchecked demoScript (lit "at night") flash
                (worldOf (fun _ => Ok (mkResponse (Some (lit "null")))) idleApp)
                (mkResponse (Some (lit "null"))) eq_refl)
      as (_ & _ & _ & Hnull & _).
    apply Hnull. reflexivity.
  - destruct (X5_refined_script_is_unchecked demoScript (lit "at night") flash
                (worldOf (fun _ => Ok (mkResponse (Some (lit "[1, 2]")))) idleApp)
                (mkResponse (Some (lit "[1, 2]"))) eq_refl)
      as (_ & _ & Hother & _).
    apply (Hother (JArray [JNumber (lit "1"); JNumber (lit "2")]));
      [reflexivity | discriminate | discriminate].
  - destruct (X5_refined_script_is_unchecked demoScript (lit "at night") flash
                (worldOf (fun _ => Ok (mkResponse (Some partialBundleText))) idleApp)
                (mkResponse (Some partialBundleText)) eq_refl)
      as (_ & Hobj & _).
    apply (Hobj [(lit "script", JArray [])]). reflexivity.
Defined.

(** ** The ends of a text that parses *)

Lemma endsBefore_here (P : N -> bool) (c : N) (rest : jstr) :
  P c = true -> endsBefore P (c :: rest) rest.
Proof. intros H. by exists [], c. Qed.

Lemma endsBefore_cons (P : N -> bool) (x : N) (s rest : jstr) :
  endsBefore P s rest -> endsBefore P (x :: s) rest.
Proof. intros (pre & c & -> & H). by exists (x :: pre), c. Qed.

Lemma endsBefore_trans (P Q : N -> bool) (s m rest : jstr) :
  endsBefore P s m -> endsBefore Q m rest -> endsBefore Q s rest.
Proof.
  intros (pre & c & -> & _) (pre' & c' & -> & H).
  exists (pre ++ c :: pre'), c'. by rewrite <- app_assoc.
Qed.

Lemma endsBefore_mono (P Q : N -> bool) (s rest : jstr) :
  (forall c, P c = true -> Q c = true) -> endsBefore P s rest -> endsBefore Q s rest.
Proof. intros HPQ (pre & c & -> & H). exists pre, c. auto. Qed.

Lemma dropWhile_split {A} (f : A -> bool) (l : list A) :
  exists pre, l = pre ++ dropWhile f l /\ forallb f pre = true.
Proof.
  induction l as [|x l (pre & IH & Hpre)]; [by exists []|]. simpl.
  destruct (f x) eqn:E; [|by exists []].
  exists (x :: pre). simpl. rewrite E, Hpre. by rewrite <- IH.
Qed.

Lemma endsBefore_dropWhile (P f : N -> bool) (s s' rest : jstr) :
  dropWhile f s = s' -> endsBefore P s' rest -> endsBefore P s rest.
Proof.
  intros <- (pre' & c & E & H). destruct (dropWhile_split f s) as (pre & Hs & _).
  exists (pre ++ pre'), c. split; [|done]. rewrite <- app_assoc, <- E. done.
Qed.

Lemma parseStringBody_closes (n : nat) :
  forall s body rest,
    (length s <= n)%nat -> parseStringBody s = Some (body, rest) ->
    endsBefore (fun c => c =? dquote) s rest.
Proof.
  induction n as [|n IH]; intros s body rest Hn H.
  - destruct s; [done|simpl in Hn; lia].
  - destruct s as [|c r]; [done|]. cbn [parseStringBody] in H. simpl in Hn.
    repeat parse_case H; simplify_eq;
      repeat first [ by apply endsBefore_here | apply endsBefore_cons ];
      match goal with
      | E : parseStringBody _ = Some _ |- _ => apply IH in E; [done|simpl in *; lia]
      end.
Qed.

Lemma digits_endsBefore (r : jstr) :
  forall x, isDigit x = true -> endsBefore isDigit (x :: r) (dropWhile isDigit r).
Proof.
  induction r as [|y r IH]; intros x Hx; [by apply endsBefore_here|].
  simpl. destruct (isDigit y) eqn:E; [|by apply endsBefore_here].
  apply endsBefore_cons. by apply IH.
Qed.

Lemma parseDigits1_closes (s ds rest : jstr) :
  parseDigits1 s = Some (ds, rest) -> endsBefore isDigit s rest.
Proof.
  unfold parseDigits1. destruct s as [|x r]; [done|]. simpl.
  destruct (isDigit x) eqn:E; [|done]. intros [= <- <-]. by apply digits_endsBefore.
Qed.

Lemma parseInt_closes (s i rest : jstr) :
  parseInt s = Some (i, rest) -> endsBefore isDigit s rest.
Proof.
  unfold parseInt. intros H. repeat parse_case H; simplify_eq.
  - apply endsBefore_here.
    match goal with E : (_ =? _) = true |- _ => apply N.eqb_eq in E; by rewrite E end.
  - by apply digits_endsBefore.
Qed.

Lemma parseFrac_closes (s f rest : jstr) :
  parseFrac s = Some (f, rest) -> rest = s \/ endsBefore isDigit s rest.
Proof.
  unfold parseFrac. intros H. repeat parse_case H; simplify_eq; try by left.
  right. apply endsBefore_cons. by eapply parseDigits1_closes.
Qed.

Lemma parseExp_closes (s e rest : jstr) :
  parseExp s = Some (e, rest) -> rest = s \/ endsBefore isDigit s rest.
Proof.
  unfold parseExp. intros H. repeat parse_case H; simplify_eq; try by left.
  - right. do 2 apply endsBefore_cons. by eapply parseDigits1_closes.
  - right. apply endsBefore_cons. by eapply parseDigits1_closes.
Qed.

Lemma parseNumber_closes (s n rest : jstr) :
  parseNumber s = Some (n, rest) -> endsBefore isDigit s rest.
Proof.
  unfold parseNumber. intros H.
  assert (forall s0 i s1 f s2 e,
            parseInt s0 = Some (i, s1) -> parseFrac s1 = Some (f, s2) ->
            parseExp s2 = Some (e, rest) -> endsBefore isDigit s0 rest) as Hbody.
  { intros s0 i s1 f s2 e Hi Hf He.
    apply parseInt_closes in Hi. apply parseFrac_closes in Hf. apply parseExp_closes in He.
    destruct Hf as [-> | Hf], He as [-> | He]; try done.
    - by eapply endsBefore_trans.
    - by eapply endsBefore_trans.
    - eapply endsBefore_trans; [exact Hi|]. by eapply endsBefore_trans. }
  destruct s as [|c r].
  - repeat parse_case H; simplify_eq; by eapply Hbody.
  - destruct (c =? ch "-"); repeat parse_case H; simplify_eq;
      [apply endsBefore_cons|]; by eapply Hbody.
Qed.

Lemma startsWith_split (p : jstr) :
  forall s, startsWith s p = true -> s = p ++ drop (length p) s.
Proof.
  induction p as [|a p IH]; intros [|b s]; simpl; try done.
  intros [->%N.eqb_eq H]%andb_prop. f_equal. by apply IH.
Qed.

Lemma parseKeyword_closes (s : jstr) (v : JSON) (rest : jstr) :
  parseKeyword s = Some (v, rest) -> endsBefore isCloser s rest.
Proof.
  unfold parseKeyword. intros H.
  repeat parse_case H; simplify_eq;
    match goal with
    | E : startsWith _ _ = true |- _ => apply startsWith_split in E; rewrite E at 1
    end.
  - by exists (lit "tru"), (ch "e").
  - by exists (lit "fals"), (ch "e").
  - by exists (lit "nul"), (ch "l").
Qed.

Lemma isDigit_isCloser (c : N) : isDigit c = true -> isCloser c = true.
Proof. unfold isCloser. intros ->. by rewrite !orb_true_r. Qed.

(** Steps from the text a parsing step of the context starts at to the
    text it leaves. *)
Ltac closes_step IHv IHm IHe :=
  match goal with
  | E : parseValue _ ?s = Some (_, ?rest) |- endsBefore _ ?s ?rest => by apply IHv in E
  | E : parseMembers _ ?s _ = Some (_, ?rest) |- endsBefore _ ?s ?rest => by apply IHm in E
  | E : parseElements _ ?s _ = Some (_, ?rest) |- endsBefore _ ?s ?rest => by apply IHe in E
  | E : parseStringBody ?s = Some (_, ?rest) |- endsBefore _ ?s ?rest =>
    apply (parseStringBody_closes _ _ _ _ (Nat.le_refl _)) in E;
    revert E; apply endsBefore_mono; intros ? ->%N.eqb_eq; done
  | E : parseNumber ?s = Some (_, ?rest) |- endsBefore _ ?s ?rest =>
    apply parseNumber_closes in E; revert E; apply endsBefore_mono, isDigit_isCloser
  | E : parseKeyword ?s = Some (_, ?rest) |- endsBefore _ ?s ?rest =>
    by apply parseKeyword_closes in E
  | E : dropWhile _ ?s = _ |- endsBefore _ ?s _ =>
    apply (endsBefore_dropWhile _ _ _ _ _ E); clear E
  | E : parseValue _ ?s = Some (_, _) |- endsBefore _ ?s _ =>
    apply IHv in E; apply (endsBefore_trans _ _ _ _ _ E); clear E
  | E : parseStringBody ?s = Some (_, _) |- endsBefore _ ?s _ =>
    apply (parseStringBody_closes _ _ _ _ (Nat.le_refl _)) in E;
    apply (endsBefore_trans _ _ _ _ _ E); clear E
  | E : (?c =? _) = true |- endsBefore _ (?c :: ?rest) ?rest =>
    apply endsBefore_here; apply N.eqb_eq in E; by rewrite E
  | |- endsBefore _ (_ :: _) _ => apply endsBefore_cons
  end.

(** What a value was parsed from ends with a closing code unit. *)
Lemma parse_closes (n : nat) :
  (forall s v rest, parseValue n s = Some (v, rest) -> endsBefore isCloser s rest)
  /\ (forall s acc v rest,
        parseMembers n s acc = Some (v, rest) -> endsBefore isCloser s rest)
  /\ (forall s acc v rest,
        parseElements n s acc = Some (v, rest) -> endsBefore isCloser s rest).
Proof.
  induction n as [|n (IHv & IHm & IHe)]; [by repeat split|].
  split; [|split].
  - intros s v rest H. cbn [parseValue] in H.
    repeat parse_case H; simplify_eq; repeat closes_step IHv IHm IHe.
  - intros s acc v rest H. cbn [parseMembers] in H.
    repeat parse_case H; simplify_eq; repeat closes_step IHv IHm IHe.
  - intros s acc v rest H. cbn [parseElements] in H.
    repeat parse_case H; simplify_eq; repeat closes_step IHv IHm IHe.
Qed.

Lemma isOpener_cases (c : N) :
  isOpener c = true ->
  c = 123 \/ c = 91 \/ c = 34 \/ c = 45 \/ (48 <= c <= 57) \/ c = 116 \/ c = 102 \/ c = 110.
Proof.
  unfold isOpener, isDigit, dquote.
  rewrite !orb_true_iff, andb_true_iff, !N.eqb_eq, !N.leb_le.
  change (ch "{") with 123. change (ch "[") with 91. change (ch "-") with 45.
  change (ch "t") with 116. change (ch "f") with 102. change (ch "n") with 110.
  lia.
Qed.

Lemma isCloser_cases (c : N) :
  isCloser c = true ->
  c = 125 \/ c = 93 \/ c = 34 \/ (48 <= c <= 57) \/ c = 101 \/ c = 108.
Proof.
  unfold isCloser, isDigit, dquote.
  rewrite !orb_true_iff, andb_true_iff, !N.eqb_eq, !N.leb_le.
  change (ch "}") with 125. change (ch "]") with 93.
  change (ch "e") with 101. change (ch "l") with 108.
  lia.
Qed.

(** A code unit from 34 to 125 that is not a backquote is no white
    space. *)
Lemma plain_not_space (c : N) :
  34 <= c <= 125 -> isWhiteSpace c = false /\ isJsonWs c = false.
Proof.
  intros H. unfold isWhiteSpace, isJsonWs.
  rewrite !orb_false_iff, andb_false_iff, !N.eqb_neq, !N.leb_gt. lia.
Qed.

Lemma isOpener_plain (c : N) :
  isOpener c = true -> isWhiteSpace c = false /\ isJsonWs c = false /\ c <> 96.
Proof.
  intros H%isOpener_cases. destruct (plain_not_space c) as [? ?]; [lia|].
  repeat split; try done. lia.
Qed.

Lemma isCloser_plain (c : N) :
  isCloser c = true -> isWhiteSpace c = false /\ isJsonWs c = false /\ c <> 96.
Proof.
  intros H%isCloser_cases. destruct (plain_not_space c) as [? ?]; [lia|].
  repeat split; try done. lia.
Qed.

Lemma isJsonWs_isWhiteSpace (c : N) : isJsonWs c = true -> isWhiteSpace c = true.
Proof.
  unfold isJsonWs. rewrite !orb_true_iff, !N.eqb_eq.
  intros [[[-> | ->] | ->] | ->]; done.
Qed.

Lemma forallb_isJsonWs_isWhiteSpace (l : jstr) :
  forallb isJsonWs l = true -> forallb isWhiteSpace l = true.
Proof.
  induction l as [|c l IH]; [done|]. simpl.
  intros [Hc Hl]%andb_prop. by rewrite (isJsonWs_isWhiteSpace c Hc), IH.
Qed.

Lemma takeWhile_dropWhile {A} (f : A -> bool) (l : list A) :
  takeWhile f l ++ dropWhile f l = l /\ forallb f (takeWhile f l) = true.
Proof.
  induction l as [|x l [IH1 IH2]]; [done|]. simpl.
  destruct (f x) eqn:E; [|done]. simpl. by rewrite IH1, E, IH2.
Qed.

(** A text is what trimming leaves of it, between what trimming
    removes. *)
Lemma trimBy_decompose {A} (f : A -> bool) (l : list A) :
  exists w1 w2,
    l = w1 ++ trimBy f l ++ w2 /\ forallb f w1 = true /\ forallb f w2 = true.
Proof.
  destruct (takeWhile_dropWhile f l) as [H1 H2].
  destruct (takeWhile_dropWhile f (reverse (dropWhile f l))) as [H3 H4].
  exists (takeWhile f l), (reverse (takeWhile f (reverse (dropWhile f l)))).
  split; [|split; [done|by rewrite forallb_reverse]].
  unfold trimBy. rewrite <- reverse_app, H3, reverse_involutive. by rewrite H1.
Qed.

Lemma dropWhile_id {A} (f : A -> bool) (l : list A) :
  (forall c, head l = Some c -> f c = false) -> dropWhile f l = l.
Proof. destruct l as [|x l]; [done|]. intros H. simpl. by rewrite (H x). Qed.

Lemma trimBy_id {A} (f : A -> bool) (l : list A) :
  (forall c, head l = Some c \/ last l = Some c -> f c = false) -> trimBy f l = l.
Proof.
  intros H. unfold trimBy.
  rewrite (dropWhile_id f l) by (intros c Hc; apply H; by left).
  rewrite (dropWhile_id f (reverse l)), reverse_involutive; [done|].
  intros c Hc. rewrite head_reverse in Hc. apply H. by right.
Qed.

(** The text a parse succeeds on, trimmed of JSON white space, begins
    with an opening and ends with a closing code unit and parses
    alike. *)
Lemma JSON_parse_ends (s : jstr) (v : JSON) :
  JSON_parse s = Ok v ->
  JSON_parse (trimJsonWs s) = Ok v
  /\ (exists c r, trimJsonWs s = c :: r /\ isOpener c = true)
  /\ (exists d, last (trimJsonWs s) = Some d /\ isCloser d = true).
Proof.
  intros H.
  destruct (trimBy_decompose isJsonWs s) as (w1 & w2 & Hs & Hw1 & Hw2).
  rewrite <- trimJsonWs_eq in Hs.
  split.
  { rewrite <- H. rewrite Hs at 2. by rewrite JSON_parse_surrounded. }
  unfold JSON_parse in H. set (t := trimJsonWs s) in *.
  destruct (parseValue (S (length t)) t) as [[v' [|]]|] eqn:E; [|done..].
  split.
  - destruct t as [|c r] eqn:Ht; [done|]. exists c, r. split; [done|].
    assert (isJsonWs c = false) as Hc.
    { apply (trimBy_ends isJsonWs s c). left. by rewrite <- trimJsonWs_eq; fold t; rewrite Ht. }
    cbn [parseValue dropWhile] in E. rewrite Hc in E. unfold isOpener.
    destruct (c =? ch "{"); [done|]. destruct (c =? ch "["); [done|].
    destruct (c =? dquote); [done|]. destruct (c =? ch "-"); [done|].
    destruct (isDigit c); [done|]. cbn [orb] in *.
    unfold parseKeyword in E.
    change (lit "true") with (ch "t" :: lit "rue") in E.
    change (lit "false") with (ch "f" :: lit "alse") in E.
    change (lit "null") with (ch "n" :: lit "ull") in E.
    cbn [startsWith] in E. rewrite !(N.eqb_sym _ c) in E.
    destruct (c =? ch "t"); [done|]. destruct (c =? ch "f"); [done|].
    destruct (c =? ch "n"); [done|]. done.
  - apply (proj1 (parse_closes _)) in E as (pre & d & Ht & Hd).
    exists d. split; [|done]. by rewrite Ht, last_snoc.
Qed.

Lemma trimBy_core {A} (f : A -> bool) (w1 core w2 : list A) (c d : A) :
  forallb f w1 = true -> forallb f w2 = true ->
  head core = Some c -> last core = Some d -> f c = false -> f d = false ->
  trimBy f (w1 ++ core ++ w2) = core.
Proof.
  intros Hw1 Hw2 Hc Hd Hfc Hfd. rewrite trimBy_surrounded by done.
  apply trimBy_id. intros x [Hx | Hx]; congruence.
Qed.

Lemma startsWith_fence_head (c : N) (r : jstr) :
  c <> 96 -> startsWith (c :: r) fence = false.
Proof.
  intros H. change fence with (96 :: lit "``"). cbn [startsWith].
  apply andb_false_intro1, N.eqb_neq. congruence.
Qed.

Lemma endsWith_fence_last (s : jstr) (d : N) :
  last s = Some d -> d <> 96 -> endsWith s fence = false.
Proof.
  intros Hd Hne. unfold endsWith. rewrite <- head_reverse in Hd.
  destruct (reverse s) as [|x r]; [done|]. cbn in Hd. simplify_eq.
  change (reverse fence) with (96 :: lit "``"). cbn [startsWith].
  apply andb_false_intro1, N.eqb_neq. congruence.
Qed.

Lemma JSON_parse_Throw (s : jstr) (e : JsError) :
  JSON_parse s = Throw e -> e = SyntaxError.
Proof.
  unfold JSON_parse.
  destruct (parseValue (S (length (trimJsonWs s))) (trimJsonWs s)) as [[v [|]]|];
    congruence.
Qed.

(** X6.  The sanitizer loses nothing that parses: a text that
    [JSON.parse] accepts as it is, is left by the sanitizer without the
    white space around it and nothing else removed, and parses to the
    same value afterwards; so a response with such a text gives that
    value at a parse site. *)
Theorem X6_sanitizing_keeps_what_parses (s : jstr) (v : JSON) :
  JSON_parse s = Ok v ->
  cleanJsonString s = trimJsonWs s
  /\ JSON_parse (cleanJsonString s) = Ok v
  /\ forall msg w, parseOrThrow msg (mkResponse (Some s)) w = mkOut (Ok v) w [].
Proof.
  intros H.
  destruct (JSON_parse_ends s v H) as (Ht & (c & r & Hc & Hop) & (d & Hd & Hcl)).
  destruct (isOpener_plain c Hop) as (Hcw & _ & Hc96).
  destruct (isCloser_plain d Hcl) as (Hdw & _ & _).
  assert (s <> []) as Hs by (intros ->; done).
  assert (trim s = trimJsonWs s) as Htrim.
  { destruct (trimBy_decompose isJsonWs s) as (w1 & w2 & Hdec & Hw1 & Hw2).
    rewrite <- trimJsonWs_eq in Hdec. rewrite trim_eq. rewrite Hdec at 1.
    apply (trimBy_core isWhiteSpace w1 (trimJsonWs s) w2 c d);
      try done; try by apply forallb_isJsonWs_isWhiteSpace.
    by rewrite Hc. }
  assert (cleanJsonString s = trimJsonWs s) as Hclean.
  { rewrite (cleanJsonString_nonempty s Hs), Htrim, Hc.
    by rewrite (startsWith_fence_head c r Hc96). }
  split; [done|]. split; [by rewrite Hclean|].
  intros msg w. unfold parseOrThrow. cbn [text].
  destruct s as [|x s']; [done|]. cbn [textOrEmptyObject]. by rewrite Hclean, Ht.
Qed.

Lemma X6_witness :
  cleanJsonString (qlit "
  {'script': []}  ") = partialBundleText
  /\ JSON_parse (cleanJsonString (qlit "
  {'script': []}  ")) = Ok partialBundle.
Proof.
  destruct (X6_sanitizing_keeps_what_parses (qlit "
  {'script': []}  ") partialBundle eq_refl) as (Hclean & Hparse & _).
  split; [rewrite Hclean; reflexivity | exact Hparse].
Defined.

(** X7.  The fences are not treated alike.  A leading fence, with its
    tag, is removed also when no trailing fence closes it, and the
    payload parses as without it.  A trailing fence that no leading fence
    opens is kept, so that the text ends with it and does not parse. *)
Theorem X7_fence_without_its_pair (ws1 tag m1 p m2 ws2 : jstr) (v : JSON) :
  JSON_parse p = Ok v ->
  blank ws1 = true -> blank ws2 = true ->
  isJsonTag tag = true ->
  forallb isJsonWs m1 = true -> forallb isJsonWs m2 = true ->
  JSON_parse (cleanJsonString (ws1 ++ fence ++ tag ++ m1 ++ p ++ m2 ++ ws2)) = Ok v
  /\ endsWith (cleanJsonString (ws1 ++ p ++ m2 ++ fence ++ ws2)) fence = true
  /\ JSON_parse (cleanJsonString (ws1 ++ p ++ m2 ++ fence ++ ws2)) = Throw SyntaxError.
Proof.
  intros H Hws1 Hws2 Htag Hm1 Hm2. unfold blank in *.
  destruct (JSON_parse_ends p v H) as (Ht & (c & r & Hc & Hop) & (d & Hd & Hcl)).
  destruct (isOpener_plain c Hop) as (Hcw & Hcj & Hc96).
  destruct (isCloser_plain d Hcl) as (Hdw & _ & Hd96).
  destruct (trimBy_decompose isJsonWs p) as (a & b & Hdec & Ha & Hb).
  rewrite <- trimJsonWs_eq in Hdec. set (t := trimJsonWs p) in *.
  pose proof (forallb_isJsonWs_isWhiteSpace a Ha) as Ha'.
  pose proof (forallb_isJsonWs_isWhiteSpace b Hb) as Hb'.
  pose proof (forallb_isJsonWs_isWhiteSpace m2 Hm2) as Hm2'.
  split; [|].
  - set (core := fence ++ tag ++ (m1 ++ a) ++ t ++ []).
    assert (ws1 ++ fence ++ tag ++ m1 ++ p ++ m2 ++ ws2 = ws1 ++ core ++ (b ++ m2 ++ ws2))
      as ->.
    { subst core. rewrite Hdec. by rewrite app_nil_r, <- !app_assoc. }
    assert (trim (ws1 ++ core ++ b ++ m2 ++ ws2) = core) as Htrim.
    { rewrite trim_eq.
      apply (trimBy_core isWhiteSpace ws1 core (b ++ m2 ++ ws2) 96 d); try done.
      - by rewrite !forallb_app, Hb', Hm2', Hws2.
      - subst core. rewrite app_nil_r, !last_app, Hd. done. }
    rewrite cleanJsonString_nonempty
      by (subst core; destruct ws1; discriminate).
    rewrite Htrim. subst core. rewrite startsWith_app.
    rewrite (replaceLeadingFence_fenced tag (m1 ++ a) t [] v Ht Htag)
      by (by rewrite forallb_app, Hm1, Ha).
    unfold replaceTrailingFence.
    rewrite (endsWith_fence_last _ d);
      [|by rewrite ?app_nil_r, ?last_app, Hd|done].
    rewrite JSON_parse_surrounded; [done| by rewrite forallb_app, Hm1, Ha | done].
  - set (core := t ++ b ++ m2 ++ fence).
    assert (ws1 ++ p ++ m2 ++ fence ++ ws2 = (ws1 ++ a) ++ core ++ ws2) as ->.
    { subst core. rewrite Hdec. by rewrite <- !app_assoc. }
    assert (head core = Some c /\ last core = Some 96) as [Hhead Hlast].
    { subst core. rewrite Hc. split; [done|].
      change fence with (lit "``" ++ [96]). by rewrite !app_assoc, last_snoc. }
    assert (trim ((ws1 ++ a) ++ core ++ ws2) = core) as Htrim.
    { rewrite trim_eq.
      apply (trimBy_core isWhiteSpace (ws1 ++ a) core ws2 c 96); try done.
      by rewrite forallb_app, Hws1, Ha'. }
    assert (cleanJsonString ((ws1 ++ a) ++ core ++ ws2) = core) as Hclean.
    { rewrite cleanJsonString_nonempty.
      - rewrite Htrim. subst core. rewrite Hc.
        by rewrite <- app_comm_cons, (startsWith_fence_head c _ Hc96).
      - subst core. rewrite Hc. by destruct ws1, a. }
    rewrite Hclean. split.
    { subst core. rewrite !app_assoc. apply endsWith_app. }
    destruct (JSON_parse core) as [v'|e] eqn:E; [|by rewrite (JSON_parse_Throw _ _ E)].
    destruct (JSON_parse_ends core v' E) as (_ & _ & (d' & Hd' & Hcl')).
    assert (trimJsonWs core = core) as Hid.
    { rewrite trimJsonWs_eq. apply trimBy_id. intros x [Hx | Hx]; [congruence|].
      rewrite Hlast in Hx. by simplify_eq. }
    rewrite Hid, Hlast in Hd'. by simplify_eq.
Qed.

Lemma X7_witness :
  JSON_parse (cleanJsonString (qlit "```json
{'script': []}")) = Ok partialBundle
  /\ JSON_parse (cleanJsonString (qlit "{'script': []}
```")) = Throw SyntaxError.
Proof.
  destruct (X7_fence_without_its_pair [] (lit "json") [10] partialBundleText [10] []
              partialBundle)
    as (Hlead & _ & Htrail); try reflexivity.
  split; [exact Hlead | exact Htrail].
Defined.

(** ** The results of a run of the queue *)

Lemma applyRuns_cons (r : ItemRun) (runs : list ItemRun) (p : gmap Z JSON) :
  applyRuns (r :: runs) p = applyRuns runs (store r p).
Proof. done. Qed.

Lemma applyRuns_app (runs1 runs2 : list ItemRun) (p : gmap Z JSON) :
  applyRuns (runs1 ++ runs2) p = applyRuns runs2 (applyRuns runs1 p).
Proof. unfold applyRuns. by rewrite foldl_app. Qed.

Lemma store_is_Some (r : ItemRun) (p : gmap Z JSON) (gid : Z) :
  is_Some (p !! gid) -> is_Some (store r p !! gid).
Proof.
  intros H. unfold store. destruct (result r) as [data|e]; [|done].
  destruct (decide (Group.id (item r) = gid)) as [->|Hne].
  - rewrite lookup_insert_eq. by eexists.
  - by rewrite lookup_insert_ne.
Qed.

Lemma applyRuns_is_Some (runs : list ItemRun) (gid : Z) :
  forall p : gmap Z JSON, is_Some (p !! gid) -> is_Some (applyRuns runs p !! gid).
Proof.
  induction runs as [|r runs IH]; intros p H; [done|].
  rewrite applyRuns_cons. by apply IH, store_is_Some.
Qed.

Lemma applyRuns_provenance (runs : list ItemRun) (gid : Z) (v : JSON) :
  forall p : gmap Z JSON,
    applyRuns runs p !! gid = Some v ->
    p !! gid = Some v
    \/ exists r, r ∈ runs /\ Group.id (item r) = gid /\ result r = Ok v.
Proof.
  induction runs as [|r runs IH]; intros p H; [by left|].
  rewrite applyRuns_cons in H. destruct (IH _ H) as [Hs | (r' & Hr' & Hid & Hres)].
  - unfold store in Hs. destruct (result r) as [data|e] eqn:E; [|by left].
    destruct (decide (Group.id (item r) = gid)) as [Heq|Hne].
    + rewrite Heq, lookup_insert_eq in Hs. simplify_eq.
      right. exists r. split; [by left|done].
    + rewrite lookup_insert_ne in Hs by done. by left.
  - right. exists r'. split; [by right|done].
Qed.

Lemma applyRuns_last_success (runs1 runs2 : list ItemRun) (r : ItemRun) (data : JSON)
    (p : gmap Z JSON) :
  result r = Ok data ->
  (forall r', r' ∈ runs2 -> Group.id (item r') = Group.id (item r) ->
              exists e, result r' = Throw e) ->
  applyRuns (runs1 ++ r :: runs2) p !! Group.id (item r) = Some data.
Proof.
  intros Hres Hlater. rewrite applyRuns_app, applyRuns_cons.
  rewrite (applyRuns_lookup_failed runs2 _ _ Hlater).
  unfold store. by rewrite Hres, lookup_insert_eq.
Qed.

(** X8.  The mapping of results after a run of the queue over any work
    list, against the mapping before it: no entry is removed; the entry
    of an id that no work item has is unchanged; every entry is an entry
    from before the run or the result of a work item of its id that
    succeeded; and when the same id occurs more than once among the work
    items, the last of its items that succeeded gives the entry. *)
Theorem X8_results_of_a_run (sb : StoryboardData.t) (work : list Group.t) (w : World) :
  storyboard (app w) = Some sb ->
  let o := runGenerationQueue work w in
  let runs := itemRuns sb (selectedModel (app w)) work w in
  (forall gid, is_Some (prompts (app w) !! gid) ->
               is_Some (prompts (app (world o)) !! gid))
  /\ (forall gid, gid ∉ map Group.id work ->
                  prompts (app (world o)) !! gid = prompts (app w) !! gid)
  /\ (forall gid v,
        prompts (app (world o)) !! gid = Some v ->
        prompts (app w) !! gid = Some v
        \/ exists r, r ∈ runs /\ Group.id (item r) = gid /\ result r = Ok v)
  /\ (forall runs1 r runs2 data,
        runs = runs1 ++ r :: runs2 ->
        result r = Ok data ->
        (forall r', r' ∈ runs2 -> Group.id (item r') = Group.id (item r) ->
                    exists e, result r' = Throw e) ->
        prompts (app (world o)) !! Group.id (item r) = Some data).
Proof.
  intros Hsb o runs.
  destruct (runGenerationQueue_run sb work w Hsb) as (_ & _ & Hp & _).
  cbv zeta in Hp. fold o runs in Hp. rewrite Hp.
  split; [|split; [|split]].
  - intros gid. apply applyRuns_is_Some.
  - intros gid Hgid. apply applyRuns_lookup_failed.
    intros r Hr Hid. destruct Hgid. rewrite <- Hid.
    rewrite <- (map_item_itemRuns sb Group.id (selectedModel (app w)) work w).
    fold runs. by apply (list_elem_of_fmap_2 (fun r => Group.id (item r))).
  - intros gid v. apply applyRuns_provenance.
  - intros runs1 r runs2 data -> Hres Hlater. by apply applyRuns_last_success.
Qed.

Lemma X8_witness :
  let w := worldOf firstAnswerBroken (appOf demoBundle (<[7%Z := fullPrompt]> ∅) None) in
  let o := runGenerationQueue demoGroups w in
  prompts (app (world o)) !! 7%Z = Some fullPrompt
  /\ prompts (app (world o)) !! 1%Z = None.
Proof.
  intros w o. subst o.
  destruct (X8_results_of_a_run demoBundle demoGroups w eq_refl)
    as (_ & Hother & Hfrom & _).
  split.
  - rewrite Hother; [reflexivity|]. vm_compute. intros H.
    repeat (apply elem_of_cons in H as [H|H]; [discriminate H|]).
    by apply elem_of_nil in H.
  - destruct (prompts (app (world (runGenerationQueue demoGroups w))) !! 1%Z)
      as [v|] eqn:E; [|reflexivity].
    destruct (Hfrom 1%Z v E) as [H | (r & Hr & Hid & Hres)]; [discriminate H|].
    apply list_elem_of_In in Hr. vm_compute in Hr.
    destruct Hr as [<- | [<- | []]]; [discriminate Hres | discriminate Hid].
Defined.

(** ** The pace of a run of the queue *)

Lemma safeGenerateContent_attempts (model : jstr) (w : World) :
  let es := events (safeGenerateContent model w) in
  (attempts es <= 4)%nat
  /\ sleeps es = take (attempts es - 1) [2000; 4000; 8000]%Z
  /\ (hasClient w = false -> es = []).
Proof.
  intros es. subst es. destruct (hasClient w) eqn:Hc.
  - rewrite (safeGenerateContent_getAI model w Hc).
    set (w1 := world (getAI w)).
    destruct (retry_cutoff (fun j => isTransient (upstream w1 (ncalls w1 + j)%nat)))
      as (k & Hk & Hpre & Hlast).
    destruct (retryLoop_last model k w1 Hk Hpre Hlast) as (_ & Hev & _).
    rewrite Hev, attempts_app, attempts_retryEvents, sleeps_app, sleeps_retryEvents.
    unfold maxRetries in Hk. cbn. rewrite app_nil_r.
    replace (k + 1 - 1)%nat with k by lia.
    split; [lia|]. split; [by apply backoffs_2000|done].
  - rewrite (safeGenerateContent_no_client model w Hc). cbn. repeat split; done || lia.
Qed.

Lemma parseOrThrow_events (msg : string) (r : Response) (w : World) :
  events (parseOrThrow msg r w) = [] /\ world (parseOrThrow msg r w) = w.
Proof.
  unfold parseOrThrow.
  by destruct (JSON_parse (cleanJsonString (textOrEmptyObject (text r)))).
Qed.

Lemma generatePromptsForGroup_actions (groupId : Z) (groupNarrative : jstr)
    (shots : list Shot.t) (settings : StoryboardSettings.t) (modelName : jstr)
    (w : World) :
  let o := generatePromptsForGroup groupId groupNarrative shots settings modelName w in
  events o
  = EvGeneratePromptsForGroup groupId groupNarrative shots settings modelName
    :: events (safeGenerateContent modelName w)
  /\ world o = world (safeGenerateContent modelName w).
Proof.
  intros o. subst o. destruct (res (safeGenerateContent modelName w)) as [r|e] eqn:E.
  - rewrite (generatePromptsForGroup_eq _ _ _ _ _ _ _ E). cbn [after events world].
    destruct (parseOrThrow_events "Failed to parse prompts JSON" r
                (world (safeGenerateContent modelName w))) as [-> ->].
    by rewrite app_nil_r.
  - by rewrite (generatePromptsForGroup_Throw _ _ _ _ _ _ _ E).
Qed.

Lemma itemRuns_bounded (sb : StoryboardData.t) (model : jstr) (work : list Group.t) :
  forall w, Forall boundedItem (itemRuns sb model work w).
Proof.
  induction work as [|g rest IH]; intros w; cbn [itemRuns]; constructor; [|apply IH].
  unfold boundedItem, generateFor. cbn [actions].
  destruct (generatePromptsForGroup_actions (Group.id g) (Group.narrative g)
              (groupShots sb g) (StoryboardData.settings sb) model w) as [-> _].
  destruct (safeGenerateContent_attempts model w) as (Hn & Hs & _).
  done.
Qed.

Lemma itemEvents_pace (len i : nat) (r : ItemRun) :
  sleeps (itemEvents len i r) = sleeps (actions r) ++ [500%Z]
  /\ attempts (itemEvents len i r) = attempts (actions r).
Proof.
  unfold itemEvents.
  change (sleeps (EvSetCurrentGroupId (Some (Group.id (item r))) :: ?l)) with (sleeps l).
  change (attempts (EvSetCurrentGroupId (Some (Group.id (item r))) :: ?l))
    with (attempts l).
  rewrite sleeps_app, attempts_app. cbn. split; [done|lia].
Qed.

Lemma loopEvents_sleeps (len : nat) (runs : list ItemRun) :
  forall i,
    sleeps (loopEvents len i runs)
    = concat (map (fun r => sleeps (actions r) ++ [500%Z]) runs).
Proof.
  induction runs as [|r runs IH]; intros i; [done|].
  cbn [loopEvents map concat]. rewrite sleeps_app, IH.
  by destruct (itemEvents_pace len i r) as [-> _].
Qed.

Lemma loopEvents_attempts (len : nat) (runs : list ItemRun) :
  Forall boundedItem runs ->
  forall i, (attempts (loopEvents len i runs) <= 4 * length runs)%nat.
Proof.
  induction 1 as [|r runs [Hn Hs] _ IH]; intros i; [done|].
  cbn [loopEvents length]. rewrite attempts_app.
  destruct (itemEvents_pace len i r) as [_ ->]. specialize (IH (S i)). lia.
Qed.

Lemma loopEvents_no_attempts (len : nat) (runs : list ItemRun) :
  Forall (fun r => attempts (actions r) = 0%nat) runs ->
  forall i, attempts (loopEvents len i runs) = 0%nat.
Proof.
  induction 1 as [|r runs Hr _ IH]; intros i; [done|].
  cbn [loopEvents]. rewrite attempts_app, IH.
  destruct (itemEvents_pace len i r) as [_ ->]. lia.
Qed.

Lemma backoffs_no_pause (k : nat) :
  List.filter (Z.eqb 500) (take k [2000; 4000; 8000]%Z) = []
  /\ Forall (fun ms => ms ∈ [500; 2000; 4000; 8000]%Z) (take k [2000; 4000; 8000]%Z).
Proof.
  destruct k as [|[|[|[|k]]]]; cbn; (split; [done|]); repeat constructor;
    set_solver.
Qed.

Lemma bounded_pace (runs : list ItemRun) :
  Forall boundedItem runs ->
  length (List.filter (Z.eqb 500)
            (concat (map (fun r => sleeps (actions r) ++ [500%Z]) runs)))
  = length runs
  /\ Forall (fun ms => ms ∈ [500; 2000; 4000; 8000]%Z)
       (concat (map (fun r => sleeps (actions r) ++ [500%Z]) runs)).
Proof.
  induction 1 as [|r runs [Hn Hs] _ (IHp & IHf)]; [done|].
  cbn [map concat length].
  destruct (backoffs_no_pause (attempts (actions r) - 1)) as [Hnone Hall].
  rewrite Hs, !List.filter_app, Hnone, !length_app, IHp.
  split; [done|].
  rewrite !Forall_app. split; [split; [done|]|done].
  repeat constructor.
Qed.

(** X9.  The pace of a run of the queue.  Every work item is followed by
    a pause of 500 ms, the last one and the failed ones too, and the only
    other sleeps are the back-offs of the item's own attempts.  An item
    makes at most four attempts, so a run over [N] items makes at most
    [4 * N], and it pauses exactly [N] times. *)
Theorem X9_pace_of_a_run (sb : StoryboardData.t) (work : list Group.t) (w : World) :
  storyboard (app w) = Some sb ->
  let o := runGenerationQueue work w in
  let runs := itemRuns sb (selectedModel (app w)) work w in
  sleeps (events o) = concat (map (fun r => sleeps (actions r) ++ [500%Z]) runs)
  /\ Forall boundedItem runs
  /\ (attempts (events o) <= 4 * length work)%nat
  /\ pauses (events o) = length work
  /\ Forall (fun ms => ms ∈ [500; 2000; 4000; 8000]%Z) (sleeps (events o)).
Proof.
  intros Hsb o runs.
  destruct (runGenerationQueue_run sb work w Hsb) as (_ & Hev & _).
  cbv zeta in Hev. fold o runs in Hev.
  pose proof (itemRuns_bounded sb (selectedModel (app w)) work w) as Hb. fold runs in Hb.
  pose proof (loopEvents_attempts (length work) runs Hb 0) as Ha.
  destruct (bounded_pace runs Hb) as (Hp & Hall).
  assert (length runs = length work) as Hlen by apply length_itemRuns.
  assert (sleeps (events o) = concat (map (fun r => sleeps (actions r) ++ [500%Z]) runs))
    as Hsleeps.
  { rewrite Hev, !sleeps_app, loopEvents_sleeps. cbn. by rewrite app_nil_r. }
  unfold pauses. rewrite Hsleeps, <- Hlen.
  split; [done|]. split; [done|]. split; [|done].
  rewrite Hev, !attempts_app. cbn. lia.
Qed.

Lemma X9_witness :
  let w := worldOf (fun n => match n with
                             | O => Throw quota429
                             | _ => Ok (mkResponse (Some partialPromptText))
                             end)
             (appOf demoBundle ∅ None) in
  let o := runGenerationQueue demoGroups w in
  sleeps (events o) = [2000; 500; 500]%Z /\ pauses (events o) = 2%nat.
Proof.
  intros w o. subst o.
  destruct (X9_pace_of_a_run demoBundle demoGroups w eq_refl)
    as (Hs & _ & _ & Hp & _).
  split; [rewrite Hs; reflexivity | exact Hp].
Defined.

(** ** A run without a client *)

Lemma itemRuns_no_client (sb : StoryboardData.t) (model : jstr) (work : list Group.t)
    (w : World) :
  hasClient w = false ->
  itemRuns sb model work w
  = map (fun g => mkItemRun g
                    (Throw (Error "API_KEY is not set in environment variables."))
                    [EvGeneratePromptsForGroup (Group.id g) (Group.narrative g)
                       (groupShots sb g) (StoryboardData.settings sb) model])
        work.
Proof.
  intros Hc. induction work as [|g rest IH]; [done|].
  cbn [itemRuns map]. unfold generateFor.
  rewrite (generatePromptsForGroup_Throw _ _ _ _ _ _
             (Error "API_KEY is not set in environment variables."))
    by (by rewrite (safeGenerateContent_no_client model w Hc)).
  rewrite (safeGenerateContent_no_client model w Hc). cbn [res events world].
  by rewrite IH.
Qed.

(** X10.  Without a client (no API key in the environment and none
    cached) a run of the queue still goes through every work item: the
    generation of each is called and fails with the error of the missing
    key before any attempt, the pause follows, the mapping of results is
    left as it was, and the run ends without an error in the phase of
    reviewing prompts. *)
Theorem X10_run_without_a_client (sb : StoryboardData.t) (work : list Group.t)
    (w : World) :
  storyboard (app w) = Some sb ->
  hasClient w = false ->
  let o := runGenerationQueue work w in
  res o = Ok tt
  /\ Forall (fun r => result r
                      = Throw (Error "API_KEY is not set in environment variables."))
       (itemRuns sb (selectedModel (app w)) work w)
  /\ attempts (events o) = 0%nat
  /\ sleeps (events o) = replicate (length work) 500%Z
  /\ shotsPassed (events o) = map (fun g => (Group.id g, groupShots sb g)) work
  /\ prompts (app (world o)) = prompts (app w)
  /\ appState (app (world o)) = VIEW_PROMPTS.
Proof.
  intros Hsb Hc o.
  destruct (runGenerationQueue_run sb work w Hsb) as (Hres & Hev & Hp & Hst & _).
  destruct (runGenerationQueue_projections sb work w Hsb) as (_ & _ & Hshots).
  cbv zeta in Hev, Hp, Hshots. fold o in Hres, Hev, Hp, Hst, Hshots.
  pose proof (itemRuns_no_client sb (selectedModel (app w)) work w Hc) as Hruns.
  rewrite Hruns in Hev, Hp |- *.
  split; [done|]. split.
  { apply Forall_forall. intros r (g & -> & _)%list_elem_of_fmap. done. }
  split.
  { rewrite Hev, !attempts_app, loopEvents_no_attempts; [done|].
    apply Forall_forall. intros r (g & -> & _)%list_elem_of_fmap. done. }
  split.
  { rewrite Hev, !sleeps_app, loopEvents_sleeps. cbn. rewrite map_map, app_nil_r. cbn.
    clear. induction work as [|g rest IH]; [done|]. cbn. by rewrite IH. }
  split; [done|]. split; [|done].
  rewrite Hp. clear. generalize (prompts (app w)).
  induction work as [|g rest IH]; intros p; [done|]. cbn [map]. by rewrite applyRuns_cons.
Qed.

Lemma X10_witness :
  let w := with_API_KEY None
             (worldOf firstAnswerBroken (appOf demoBundle (<[1%Z := fullPrompt]> ∅) None)) in
  let o := runGenerationQueue demoGroups w in
  res o = Ok tt
  /\ attempts (events o) = 0%nat
  /\ sleeps (events o) = [500; 500]%Z
  /\ prompts (app (world o)) = <[1%Z := fullPrompt]> ∅.
Proof.
  intros w o. subst o.
  destruct (X10_run_without_a_client demoBundle demoGroups w eq_refl eq_refl)
    as (Hres & _ & Ha & Hs & _ & Hp & _).
  split; [exact Hres|]. split; [exact Ha|]. split; [exact Hs | exact Hp].
Defined.

(** ** Regenerating all groups *)

(** X11.  Regenerating all groups, once confirmed, empties the mapping
    of results and runs the queue over all the groups of the bundle, in
    order.  So afterwards every entry is the result of a group generated
    in this run: a group whose generation failed has no entry, although
    it may have had one before, and so has every id that is no group's.
    Declined, it does nothing. *)
Theorem X11_regenerate_all (sb : StoryboardData.t) (w : World) :
  storyboard (app w) = Some sb ->
  let o := handleRegenerateAll true w in
  let runs := itemRuns sb (selectedModel (app w)) (StoryboardData.groups sb) w in
  handleRegenerateAll false w = ret tt w
  /\ res o = Ok tt
  /\ prompts (app (world o)) = applyRuns runs ∅
  /\ shotsPassed (events o)
     = map (fun g => (Group.id g, groupShots sb g)) (StoryboardData.groups sb)
  /\ (forall gid,
        (forall r, r ∈ runs -> Group.id (item r) = gid -> exists e, result r = Throw e) ->
        prompts (app (world o)) !! gid = None)
  /\ (forall gid v,
        prompts (app (world o)) !! gid = Some v ->
        exists r, r ∈ runs /\ Group.id (item r) = gid /\ result r = Ok v)
  /\ appState (app (world o)) = VIEW_PROMPTS.
Proof.
  intros Hsb o runs.
  split; [by unfold handleRegenerateAll; rewrite Hsb|].
  subst o. unfold handleRegenerateAll. rewrite Hsb.
  rewrite (bind_Ok _ _ _ tt) by done. cbn [setPrompts res world events].
  rewrite after_nil.
  set (w0 := with_app (fun a => set_prompts ∅ a) w).
  assert (storyboard (app w0) = Some sb) as Hsb0 by done.
  destruct (runGenerationQueue_run sb (StoryboardData.groups sb) w0 Hsb0)
    as (Hres & _ & Hp & Hst & _).
  destruct (runGenerationQueue_projections sb (StoryboardData.groups sb) w0 Hsb0)
    as (_ & _ & Hshots).
  cbv zeta in Hp, Hshots.
  change (selectedModel (app w0)) with (selectedModel (app w)) in Hp.
  unfold w0 in Hp at 2. rewrite itemRuns_with_app in Hp. fold runs in Hp.
  change (prompts (app w0)) with (∅ : gmap Z JSON) in Hp.
  split; [done|]. split; [done|]. split; [done|]. split; [|split; [|done]].
  - intros gid Hfail. rewrite Hp, (applyRuns_lookup_failed runs gid ∅ Hfail). done.
  - intros gid v Hv. rewrite Hp in Hv.
    by destruct (applyRuns_provenance runs gid v ∅ Hv) as [H|H].
Qed.

Lemma X11_witness :
  let w := worldOf firstAnswerBroken
             (appOf demoBundle (<[1%Z := fullPrompt]> (<[7%Z := fullPrompt]> ∅)) None) in
  let o := handleRegenerateAll true w in
  prompts (app (world o)) !! 1%Z = None
  /\ prompts (app (world o)) !! 7%Z = None
  /\ prompts (app (world o)) !! 2%Z = Some partialPrompt.
Proof.
  intros w o. subst o.
  destruct (X11_regenerate_all demoBundle w eq_refl) as (_ & _ & Hp & _ & Hnone & _).
  split; [|split].
  - apply Hnone. intros r Hr Hid. apply list_elem_of_In in Hr. vm_compute in Hr.
    destruct Hr as [<- | [<- | []]]; [eexists; reflexivity | discriminate Hid].
  - apply Hnone. intros r Hr Hid. apply list_elem_of_In in Hr. vm_compute in Hr.
    destruct Hr as [<- | [<- | []]]; discriminate Hid.
  - rewrite Hp. reflexivity.
Defined.

(** ** Confirming twice *)

Lemma missingGroups_prompts (w1 w2 : World) (sb : StoryboardData.t) :
  prompts (app w1) = prompts (app w2) -> missingGroups w1 sb = missingGroups w2 sb.
Proof. unfold missingGroups. by intros ->. Qed.

Lemma filter_none {A} (f : A -> bool) (l : list A) :
  (forall x, In x l -> f x = false) -> List.filter f l = [].
Proof.
  induction l as [|x l IH]; intros H; [done|]. cbn.
  rewrite (H x) by by left. apply IH. intros y Hy. apply H. by right.
Qed.

Lemma applyRuns_truthy (runs : list ItemRun) :
  Forall gaveResult runs ->
  forall (p : gmap Z JSON) (gid : Z),
    truthyOpt (p !! gid) = true \/ (exists r, r ∈ runs /\ Group.id (item r) = gid) ->
    truthyOpt (applyRuns runs p !! gid) = true.
Proof.
  induction 1 as [|r runs (data & Hres & Hdata) _ IH]; intros p gid H.
  - destruct H as [H | (r & Hr & _)]; [done|]. by apply elem_of_nil in Hr.
  - rewrite applyRuns_cons. apply IH.
    assert (store r p = <[Group.id (item r) := data]> p) as Hstore
      by (unfold store; by rewrite Hres).
    destruct (decide (Group.id (item r) = gid)) as [Heq|Hne].
    { left. by rewrite Hstore, Heq, lookup_insert_eq. }
    destruct H as [H | (r' & Hr' & Hid)].
    + left. by rewrite Hstore, lookup_insert_ne.
    + right. exists r'. split; [|done].
      apply elem_of_cons in Hr' as [-> | Hr']; done.
Qed.

Lemma handleConfirmStoryboard_complete (sb : StoryboardData.t) (w : World) :
  storyboard (app w) = Some sb ->
  StoryboardData.groups sb <> [] ->
  missingGroups w sb = [] ->
  let o := handleConfirmStoryboard w in
  attempts (events o) = 0%nat
  /\ shotsPassed (events o) = []
  /\ prompts (app (world o)) = prompts (app w)
  /\ storyboard (app (world o)) = Some sb
  /\ appState (app (world o)) = VIEW_PROMPTS.
Proof.
  intros Hsb Hne Hm o. subst o.
  rewrite (handleConfirmStoryboard_eq sb w Hsb Hne), Hm.
  by destruct (negb (truthyId (currentGroupId (app w)))).
Qed.

(** X12.  Confirming is idempotent once every group holds a result.
    When all the generations a confirmation starts succeed with a result
    that counts as present, no group is left without a result, so
    confirming again calls no generation, makes no attempt and leaves the
    results as they are. *)
Theorem X12_confirming_again_generates_nothing (sb : StoryboardData.t) (w : World) :
  storyboard (app w) = Some sb ->
  StoryboardData.groups sb <> [] ->
  Forall gaveResult (itemRuns sb (selectedModel (app w)) (missingGroups w sb) w) ->
  let o := handleConfirmStoryboard w in
  let o2 := handleConfirmStoryboard (world o) in
  missingGroups (world o) sb = []
  /\ attempts (events o2) = 0%nat
  /\ shotsPassed (events o2) = []
  /\ prompts (app (world o2)) = prompts (app (world o))
  /\ appState (app (world o2)) = VIEW_PROMPTS.
Proof.
  intros Hsb Hne Hruns o o2.
  assert (storyboard (app (world o)) = Some sb /\ missingGroups (world o) sb = [])
    as [Hsb' Hm'].
  { subst o. rewrite (handleConfirmStoryboard_eq sb w Hsb Hne).
    destruct (missingGroups w sb) as [|m ms] eqn:Hm.
    - split; [by destruct (negb (truthyId (currentGroupId (app w))))|].
      rewrite <- Hm. apply missingGroups_prompts.
      by destruct (negb (truthyId (currentGroupId (app w)))).
    - set (w1 := with_app (set_appState VIEW_PROMPTS) w).
      assert (storyboard (app w1) = Some sb) as Hsb1 by done.
      destruct (runGenerationQueue_run sb (m :: ms) w1 Hsb1)
        as (_ & _ & Hp & _ & _ & Hsb2 & _).
      cbv zeta in Hp.
      assert (itemRuns sb (selectedModel (app w1)) (m :: ms) w1
              = itemRuns sb (selectedModel (app w)) (m :: ms) w) as Hsame
        by (unfold w1; by rewrite itemRuns_with_app).
      rewrite Hsame in Hp.
      change (prompts (app w1)) with (prompts (app w)) in Hp.
      cbn [after world]. split; [done|].
      unfold missingGroups at 1. rewrite Hp. apply filter_none.
      intros g Hg. apply negb_false_iff. apply (applyRuns_truthy _ Hruns).
      destruct (truthyOpt (prompts (app w) !! Group.id g)) eqn:Ht; [by left|right].
      assert (In g (m :: ms)) as Hin.
      { rewrite <- Hm. unfold missingGroups. apply filter_In. by rewrite Ht. }
      rewrite <- (item_itemRuns sb (selectedModel (app w)) (m :: ms) w) in Hin.
      apply list_elem_of_In, list_elem_of_fmap in Hin as (r & -> & Hr).
      by exists r. }
  destruct (handleConfirmStoryboard_complete sb (world o) Hsb' Hne Hm')
    as (Ha & Hs & Hp & _ & Hst).
  done.
Qed.

Lemma X12_witness :
  let w := worldOf (fun _ => Ok (mkResponse (Some partialPromptText)))
             (appOf demoBundle ∅ None) in
  let o := handleConfirmStoryboard w in
  missingGroups (world o) demoBundle = []
  /\ attempts (events (handleConfirmStoryboard (world o))) = 0%nat.
Proof.
  intros w o. subst o.
  destruct (X12_confirming_again_generates_nothing demoBundle w eq_refl)
    as (Hm & Ha & _); [discriminate| |split; [exact Hm | exact Ha]].
  apply Forall_forall. intros r Hr. apply list_elem_of_In in Hr. vm_compute in Hr.
  destruct Hr as [<- | [<- | []]]; eexists; split; reflexivity.
Defined.

(** ** Editing the script of a bundle with results *)

(** X13.  Replacing the script leaves the results generated from the old
    script in place.  So confirming afterwards generates for exactly the
    groups that had no result before the edit, from the shots of the new
    script, and the entry of every other id stays what it was. *)
Theorem X13_edited_script_keeps_results (sb : StoryboardData.t)
    (newScript : list Shot.t) (w : World) :
  storyboard (app w) = Some sb ->
  StoryboardData.groups sb <> [] ->
  let w1 := world (handleUpdateScript newScript w) in
  let o := handleConfirmStoryboard w1 in
  storyboard (app w1) = Some (with_script newScript sb)
  /\ prompts (app w1) = prompts (app w)
  /\ missingGroups w1 (with_script newScript sb) = missingGroups w sb
  /\ shotsPassed (events o)
     = map (fun g => (Group.id g, groupShots (with_script newScript sb) g))
           (missingGroups w sb)
  /\ (forall gid, gid ∉ map Group.id (missingGroups w sb) ->
                  prompts (app (world o)) !! gid = prompts (app w) !! gid).
Proof.
  intros Hsb Hne w1 o.
  assert (storyboard (app w1) = Some (with_script newScript sb)) as Hsb1
    by (subst w1; cbn; by rewrite Hsb).
  assert (prompts (app w1) = prompts (app w)) as Hp1 by done.
  assert (missingGroups w1 (with_script newScript sb) = missingGroups w sb) as Hm1
    by (unfold missingGroups; by rewrite Hp1).
  split; [done|]. split; [done|]. split; [done|].
  subst o. rewrite (handleConfirmStoryboard_eq _ w1 Hsb1 Hne), Hm1.
  destruct (missingGroups w sb) as [|m ms] eqn:Hm.
  - split; by destruct (negb (truthyId (currentGroupId (app w1)))).
  - set (w2 := with_app (set_appState VIEW_PROMPTS) w1).
    assert (storyboard (app w2) = Some (with_script newScript sb)) as Hsb2 by done.
    destruct (runGenerationQueue_run _ (m :: ms) w2 Hsb2) as (_ & _ & Hp & _).
    destruct (runGenerationQueue_projections _ (m :: ms) w2 Hsb2) as (_ & _ & Hshots).
    cbv zeta in Hp, Hshots. cbn [after events world].
    split.
    + unfold shotsPassed in *. by rewrite filterMap_app, Hshots.
    + intros gid Hgid. rewrite Hp. change (prompts (app w2)) with (prompts (app w)).
      apply applyRuns_lookup_failed. intros r Hr Hid. destruct Hgid.
      rewrite <- Hid.
      rewrite <- (map_item_itemRuns (with_script newScript sb) Group.id
                    (selectedModel (app w2)) (m :: ms) w2).
      by apply (list_elem_of_fmap_2 (fun r => Group.id (item r))).
Qed.

Lemma X13_witness :
  let w := worldOf firstAnswerBroken
             (appOf demoBundle (<[1%Z := fullPrompt]> ∅) None) in
  let o := handleConfirmStoryboard (world (handleUpdateScript [demoShot 9] w)) in
  shotsPassed (events o) = [(2%Z, [])]
  /\ prompts (app (world o)) !! 1%Z = Some fullPrompt.
Proof.
  intros w o. subst o.
  destruct (X13_edited_script_keeps_results demoBundle [demoShot 9] w eq_refl)
    as (_ & _ & _ & Hshots & Hkept); [discriminate|].
  split; [rewrite Hshots; reflexivity|].
  rewrite Hkept; [reflexivity|]. vm_compute. intros H.
  repeat (apply elem_of_cons in H as [H|H]; [discriminate H|]).
  by apply elem_of_nil in H.
Defined.

(** ** Editing the bundle under review *)

Lemma with_app_same (f : AppSt -> AppSt) (w : World) :
  f (app w) = app w -> with_app f w = w.
Proof. destruct w. unfold with_app. cbn. by intros ->. Qed.

Lemma set_storyboard_same (a : AppSt) : set_storyboard (storyboard a) a = a.
Proof. by destruct a. Qed.

Lemma setStoryboard_edits (f : option StoryboardData.t -> option StoryboardData.t)
    (w : World) :
  editsBundleOnly (setStoryboard f w) w
  /\ storyboard (app (world (setStoryboard f w))) = f (storyboard (app w)).
Proof. by repeat split. Qed.

Lemma setStoryboard_same (f : option StoryboardData.t -> option StoryboardData.t)
    (w : World) :
  f (storyboard (app w)) = storyboard (app w) -> world (setStoryboard f w) = w.
Proof.
  intros H. cbn. apply with_app_same. rewrite H. apply set_storyboard_same.
Qed.

Lemma setStoryboard_world (f : option StoryboardData.t -> option StoryboardData.t)
    (w : World) :
  world (setStoryboard f w) = with_app (set_storyboard (f (storyboard (app w)))) w.
Proof. done. Qed.

Lemma with_app_set_storyboard_twice (s1 s2 : option StoryboardData.t) (w : World) :
  with_app (set_storyboard s2) (with_app (set_storyboard s1) w)
  = with_app (set_storyboard s2) w.
Proof. done. Qed.

Lemma with_settings_same (sb : StoryboardData.t) :
  with_settings (StoryboardData.settings sb) sb = sb.
Proof. by destruct sb. Qed.

Lemma with_targetArray_same (type : SettingType) (s : StoryboardSettings.t) :
  with_targetArray type (targetArray type s) s = s.
Proof. by destruct type, s. Qed.

Lemma targetArray_with (type : SettingType) (items : list AIPromptItem.t)
    (s : StoryboardSettings.t) :
  targetArray type (with_targetArray type items s) = items.
Proof. by destruct type. Qed.

Lemma targetArray_edit (type : SettingType) (items : list AIPromptItem.t)
    (sb : StoryboardData.t) :
  targetArray type
    (StoryboardData.settings
       (with_settings (with_targetArray type items (StoryboardData.settings sb)) sb))
  = items.
Proof. by destruct type. Qed.

Lemma sameBut_with (type : SettingType) (items : list AIPromptItem.t)
    (sb : StoryboardData.t) :
  sameBut type sb
    (with_settings (with_targetArray type items (StoryboardData.settings sb)) sb).
Proof. by destruct type. Qed.

Lemma arrayGet_Some {A} (l : list A) (index : Z) (x : A) :
  arrayGet l index = Some x <-> (0 <= index)%Z /\ l !! Z.to_nat index = Some x.
Proof.
  unfold arrayGet. destruct (0 <=? index)%Z eqn:E.
  - apply Z.leb_le in E. split; [done|]. by intros [_ ?].
  - apply Z.leb_gt in E. split; [done|]. intros [? _]. lia.
Qed.

Lemma arrayGet_None {A} (l : list A) (index : Z) :
  arrayGet l index = None <-> (index < 0 \/ Z.of_nat (length l) <= index)%Z.
Proof.
  unfold arrayGet. destruct (0 <=? index)%Z eqn:E.
  - apply Z.leb_le in E. rewrite lookup_ge_None. lia.
  - apply Z.leb_gt in E. split; [by left|done].
Qed.

Lemma itemField_updateItem (item : AIPromptItem.t) (field : AIPromptItemField.t)
    (value : jstr) :
  itemField field (updateItem item field value) = value
  /\ forall field', field' <> field ->
                    itemField field' (updateItem item field value) = itemField field' item.
Proof. split; [by destruct field|]. by intros field' H; destruct field, field'. Qed.

(** X14.  Updating a field of a setting.  When the array of the given
    type has an item at the index, that item alone is replaced, by the
    item with the given field set to the value and its other fields as
    they were: the array keeps its length and its other items, and the
    rest of the bundle is unchanged.  When there is no item at the index
    (a negative index, or one past the end) nothing changes.  Either way
    only the bundle is touched. *)
Theorem X14_update_setting (type : SettingType) (index : Z)
    (field : AIPromptItemField.t) (value : jstr) (sb : StoryboardData.t) (w : World) :
  storyboard (app w) = Some sb ->
  let items := targetArray type (StoryboardData.settings sb) in
  let o := handleUpdateSetting type index field value w in
  editsBundleOnly o w
  /\ (forall item,
        arrayGet items index = Some item ->
        let item' := updateItem item field value in
        itemField field item' = value
        /\ (forall field', field' <> field -> itemField field' item' = itemField field' item)
        /\ exists sb',
             storyboard (app (world o)) = Some sb'
             /\ sameBut type sb sb'
             /\ targetArray type (StoryboardData.settings sb')
                = <[Z.to_nat index := item']> items
             /\ length (targetArray type (StoryboardData.settings sb')) = length items
             /\ targetArray type (StoryboardData.settings sb') !! Z.to_nat index
                = Some item'
             /\ (forall j, j <> Z.to_nat index ->
                   targetArray type (StoryboardData.settings sb') !! j = items !! j))
  /\ ((index < 0 \/ Z.of_nat (length items) <= index)%Z -> world o = w).
Proof.
  intros Hsb items o.
  destruct (setStoryboard_edits
    (fun prev =>
       match prev with
       | None => None
       | Some prev =>
         let newSettings := StoryboardData.settings prev in
         match arrayGet (targetArray type newSettings) index with
         | Some item =>
           Some (with_settings
                   (with_targetArray type
                      (<[Z.to_nat index := updateItem item field value]>
                         (targetArray type newSettings))
                      newSettings)
                   prev)
         | None => Some (with_settings newSettings prev)
         end
       end) w) as [Hedit Hst].
  fold (handleUpdateSetting type index field value) in Hedit, Hst. fold o in Hedit, Hst.
  rewrite Hsb in Hst. cbv zeta in Hst. fold items in Hst.
  split; [done|]. split.
  - intros item Hitem. rewrite Hitem in Hst.
    apply arrayGet_Some in Hitem as [Hi Hitem].
    cbv zeta. split; [apply itemField_updateItem|].
    split; [apply itemField_updateItem|].
    eexists. split; [exact Hst|].
    split; [apply sameBut_with|]. rewrite targetArray_edit.
    split; [done|]. split; [by rewrite length_insert|].
    split; [by rewrite list_lookup_insert_eq by by eapply lookup_lt_Some|].
    by intros j Hj; rewrite list_lookup_insert_ne.
  - intros Hout. apply arrayGet_None in Hout.
    subst o. unfold handleUpdateSetting. apply setStoryboard_same.
    rewrite Hsb. cbv zeta. fold items. rewrite Hout. by rewrite with_settings_same.
Qed.

Lemma X14_witness :
  let w := worldOf firstAnswerBroken (appOf settingsBundle ∅ None) in
  let o := handleUpdateSetting character 1 AIPromptItemField.prompt (lit "blue scarf") w in
  (exists sb',
     storyboard (app (world o)) = Some sb'
     /\ StoryboardSettings.characters (StoryboardData.settings sb')
        = [AIPromptItem.mk (lit "detective") (lit "a tired man") (lit "trench coat");
           AIPromptItem.mk (lit "fugitive") (lit "a young woman") (lit "blue scarf")])
  /\ world (handleUpdateSetting character 2 AIPromptItemField.prompt (lit "blue scarf") w)
     = w.
Proof.
  intros w o. subst o. split.
  - destruct (X14_update_setting character 1 AIPromptItemField.prompt (lit "blue scarf")
                settingsBundle w eq_refl) as (_ & Hin & _).
    destruct (Hin (AIPromptItem.mk (lit "fugitive") (lit "a young woman") (lit "red scarf"))
                eq_refl)
      as (_ & _ & sb' & Hsb' & _ & Harr & _).
    exists sb'. split; [exact Hsb'|].
    change (StoryboardSettings.characters (StoryboardData.settings sb'))
      with (targetArray character (StoryboardData.settings sb')).
    rewrite Harr. reflexivity.
  - destruct (X14_update_setting character 2 AIPromptItemField.prompt (lit "blue scarf")
                settingsBundle w eq_refl) as (_ & _ & Hout).
    apply Hout. right. vm_compute. discriminate.
Defined.

(** ** Adding and deleting settings *)

Lemma spliceOne_cases {A} (l : list A) (index : Z) :
  let n := Z.of_nat (length l) in
  ((0 <= index < n)%Z -> spliceOne l index = delete (Z.to_nat index) l)
  /\ ((n <= index)%Z -> spliceOne l index = l)
  /\ ((- n <= index < 0)%Z -> spliceOne l index = delete (Z.to_nat (n + index)) l)
  /\ ((index < - n)%Z -> spliceOne l index = drop 1 l).
Proof.
  intros n. subst n. unfold spliceOne, relIndex.
  split; [|split; [|split]]; intros H.
  - destruct (index <? 0)%Z eqn:E; [apply Z.ltb_lt in E; lia|].
    rewrite Z.min_l by lia.
    replace (Nat.min 1 (length l - Z.to_nat index)) with 1%nat by lia.
    rewrite Nat.add_1_r. by rewrite delete_take_drop.
  - destruct (index <? 0)%Z eqn:E; [apply Z.ltb_lt in E; lia|].
    rewrite Z.min_r by lia. rewrite Nat2Z.id.
    rewrite firstn_all, skipn_all2 by lia. by rewrite app_nil_r.
  - destruct (index <? 0)%Z eqn:E; [|apply Z.ltb_ge in E; lia].
    rewrite Z.max_l by lia.
    replace (Nat.min 1 (length l - Z.to_nat (Z.of_nat (length l) + index))) with 1%nat
      by lia.
    rewrite Nat.add_1_r. by rewrite delete_take_drop.
  - destruct (index <? 0)%Z eqn:E; [|apply Z.ltb_ge in E; lia].
    rewrite Z.max_r by lia. cbn [Z.to_nat take app Nat.add].
    destruct l as [|x l]; [done|]. done.
Qed.

(** X15.  Deleting a setting removes, from the array of the given type,
    the item at the index when there is one and nothing when the index is
    at or past the end; a negative index counts from the end of the
    array, and below minus the length it removes the first item.  The
    rest of the bundle is unchanged and only the bundle is touched. *)
Theorem X15_delete_setting (type : SettingType) (index : Z) (sb : StoryboardData.t)
    (w : World) :
  storyboard (app w) = Some sb ->
  let items := targetArray type (StoryboardData.settings sb) in
  let n := Z.of_nat (length items) in
  let o := handleDeleteSetting type index w in
  editsBundleOnly o w
  /\ exists sb',
       storyboard (app (world o)) = Some sb'
       /\ sameBut type sb sb'
       /\ let items' := targetArray type (StoryboardData.settings sb') in
          ((0 <= index < n)%Z -> items' = delete (Z.to_nat index) items)
          /\ ((n <= index)%Z -> items' = items)
          /\ ((- n <= index < 0)%Z -> items' = delete (Z.to_nat (n + index)) items)
          /\ ((index < - n)%Z -> items' = drop 1 items).
Proof.
  intros Hsb items n o.
  destruct (setStoryboard_edits
    (fun prev =>
       match prev with
       | None => None
       | Some prev =>
         let newSettings := StoryboardData.settings prev in
         Some (with_settings
                 (with_targetArray type (spliceOne (targetArray type newSettings) index)
                    newSettings)
                 prev)
       end) w) as [Hedit Hst].
  fold (handleDeleteSetting type index) in Hedit, Hst. fold o in Hedit, Hst.
  rewrite Hsb in Hst. cbv zeta in Hst. fold items in Hst.
  split; [done|]. eexists. split; [exact Hst|]. split; [apply sameBut_with|].
  cbv zeta. rewrite targetArray_edit. apply spliceOne_cases.
Qed.

Lemma X15_witness :
  let w := worldOf firstAnswerBroken (appOf settingsBundle ∅ None) in
  exists sb',
    storyboard (app (world (handleDeleteSetting character (-2) w))) = Some sb'
    /\ StoryboardSettings.characters (StoryboardData.settings sb')
       = [AIPromptItem.mk (lit "fugitive") (lit "a young woman") (lit "red scarf")].
Proof.
  intros w.
  destruct (X15_delete_setting character (-2) settingsBundle w eq_refl)
    as (_ & sb' & Hsb' & _ & _ & _ & Hneg & _).
  exists sb'. split; [exact Hsb'|].
  change (StoryboardSettings.characters (StoryboardData.settings sb'))
    with (targetArray character (StoryboardData.settings sb')).
  rewrite Hneg; [reflexivity|]. vm_compute. split; [discriminate|reflexivity].
Defined.

(** X16.  Adding a setting appends one placeholder item to the array of
    the given type, whose name tells the type, and leaves the items that
    were there in their places and the rest of the bundle as it was.
    Deleting the last item right after (by its index, or by the index
    -1) gives back the world before the addition. *)
Theorem X16_add_then_delete (type : SettingType) (sb : StoryboardData.t) (w : World) :
  storyboard (app w) = Some sb ->
  let items := targetArray type (StoryboardData.settings sb) in
  let o := handleAddSetting type w in
  editsBundleOnly o w
  /\ (exists sb',
        storyboard (app (world o)) = Some sb'
        /\ sameBut type sb sb'
        /\ targetArray type (StoryboardData.settings sb') = items ++ [newItem type]
        /\ (forall j item, items !! j = Some item ->
              targetArray type (StoryboardData.settings sb') !! j = Some item))
  /\ AIPromptItem.name (newItem character) <> AIPromptItem.name (newItem scene)
  /\ world (handleDeleteSetting type (Z.of_nat (length items)) (world o)) = w
  /\ world (handleDeleteSetting type (-1) (world o)) = w.
Proof.
  intros Hsb items o.
  assert (editsBundleOnly o w
          /\ storyboard (app (world o))
             = Some (with_settings
                       (with_targetArray type (items ++ [newItem type])
                          (StoryboardData.settings sb)) sb)) as [Hedit Hst].
  { split; [apply setStoryboard_edits|]. subst o items. cbn. by rewrite Hsb. }
  split; [done|]. split.
  { eexists. split; [exact Hst|]. split; [apply sameBut_with|].
    rewrite targetArray_edit. split; [done|].
    intros j item Hj. by apply lookup_app_l_Some. }
  split; [done|].
  assert (forall index,
            spliceOne (items ++ [newItem type]) index = items ->
            world (handleDeleteSetting type index (world o)) = w) as Hback.
  { intros index Hsplice.
    destruct Hedit as (_ & _ & _ & _ & _ & _ & _ & _ & Hw).
    unfold handleDeleteSetting. rewrite setStoryboard_world, Hst. cbv zeta.
    rewrite targetArray_edit, Hsplice, Hw, Hst, with_app_set_storyboard_twice.
    assert (with_settings
              (with_targetArray type items
                 (StoryboardData.settings
                    (with_settings
                       (with_targetArray type (items ++ [newItem type])
                          (StoryboardData.settings sb)) sb)))
              (with_settings
                 (with_targetArray type (items ++ [newItem type])
                    (StoryboardData.settings sb)) sb) = sb) as ->.
    { subst items. destruct sb as [? ? [] ?], type; done. }
    rewrite <- Hsb. apply with_app_same, set_storyboard_same. }
  split; apply Hback.
  - destruct (spliceOne_cases (items ++ [newItem type]) (Z.of_nat (length items)))
      as (Hin & _).
    rewrite Hin by (rewrite length_app; cbn; lia).
    rewrite Nat2Z.id, delete_take_drop, take_app_length.
    rewrite drop_ge by (rewrite length_app; cbn; lia). by rewrite app_nil_r.
  - destruct (spliceOne_cases (items ++ [newItem type]) (-1)) as (_ & _ & Hneg & _).
    rewrite Hneg by (rewrite length_app; cbn; lia).
    replace (Z.to_nat (Z.of_nat (length (items ++ [newItem type])) + -1)) with (length items)
      by (rewrite length_app; cbn; lia).
    rewrite delete_take_drop, take_app_length.
    rewrite drop_ge by (rewrite length_app; cbn; lia). by rewrite app_nil_r.
Qed.

Lemma X16_witness :
  let w := worldOf firstAnswerBroken (appOf settingsBundle ∅ None) in
  (exists sb',
     storyboard (app (world (handleAddSetting scene w))) = Some sb'
     /\ length (StoryboardSettings.scenes (StoryboardData.settings sb')) = 2%nat)
  /\ world (handleDeleteSetting scene (-1) (world (handleAddSetting scene w))) = w.
Proof.
  intros w.
  destruct (X16_add_then_delete scene settingsBundle w eq_refl)
    as (_ & (sb' & Hsb' & _ & Harr & _) & _ & _ & Hback).
  split; [|exact Hback].
  exists sb'. split; [exact Hsb'|].
  change (StoryboardSettings.scenes (StoryboardData.settings sb'))
    with (targetArray scene (StoryboardData.settings sb')).
  rewrite Harr. reflexivity.
Defined.

(** ** Editing a shot *)

(** X17.  Saving the edit of a shot replaces the script of the bundle by
    the script the view shows with the description of every shot of the
    edited id set to the edited text: the script keeps its length and
    order, every shot keeps its id, voiceover and movement, and the
    shots of other ids keep their description; groups and settings are
    unchanged.  When no shot has the id, or when no shot is being edited,
    nothing changes. *)
Theorem X17_save_edit_shot (data : StoryboardData.t) (id : Z) (editValue : jstr)
    (w : World) :
  storyboard (app w) = Some data ->
  let o := saveEditShot data (Some id) editValue w in
  editsBundleOnly o w
  /\ (exists sb',
        storyboard (app (world o)) = Some sb'
        /\ StoryboardData.groups sb' = StoryboardData.groups data
        /\ StoryboardData.settings sb' = StoryboardData.settings data
        /\ length (StoryboardData.script sb') = length (StoryboardData.script data)
        /\ forall i s,
             StoryboardData.script data !! i = Some s ->
             exists s',
               StoryboardData.script sb' !! i = Some s'
               /\ Shot.id s' = Shot.id s
               /\ Shot.voiceover s' = Shot.voiceover s
               /\ Shot.movement s' = Shot.movement s
               /\ Shot.description s'
                  = if (Shot.id s =? id)%Z then editValue else Shot.description s)
  /\ ((forall s, s ∈ StoryboardData.script data -> Shot.id s <> id) -> world o = w)
  /\ saveEditShot data None editValue w = ret tt w.
Proof.
  intros Hsb o.
  set (newScript :=
         map (fun s => if (Shot.id s =? id)%Z
                       then Shot.mk (Shot.id s) editValue (Shot.voiceover s) (Shot.movement s)
                       else s)
             (StoryboardData.script data)).
  assert (editsBundleOnly o w
          /\ storyboard (app (world o)) = Some (with_script newScript data)) as [Hedit Hst].
  { split; [apply setStoryboard_edits|]. subst o. cbn. by rewrite Hsb. }
  split; [done|]. split; [|split; [|done]].
  - eexists. split; [exact Hst|]. split; [done|]. split; [done|].
    split; [by subst newScript; cbn; rewrite length_map|].
    intros i s Hs. cbn [with_script StoryboardData.script]. subst newScript.
    rewrite list_lookup_fmap, Hs. cbn [fmap option_fmap option_map].
    eexists. split; [done|]. by destruct (Shot.id s =? id)%Z.
  - intros Hnone.
    assert (newScript = StoryboardData.script data) as Hsame.
    { subst newScript. rewrite <- (map_id (StoryboardData.script data)) at 2.
      apply map_ext_in. intros s Hs%list_elem_of_In.
      destruct (Shot.id s =? id)%Z eqn:E; [|done].
      apply Z.eqb_eq in E. by destruct (Hnone s Hs). }
    destruct Hedit as (_ & _ & _ & _ & _ & _ & _ & _ & Hw).
    rewrite Hw, Hst, Hsame.
    assert (with_script (StoryboardData.script data) data = data) as ->
      by (by destruct data).
    rewrite <- Hsb. apply with_app_same, set_storyboard_same.
Qed.

Lemma X17_witness :
  let w := worldOf firstAnswerBroken (appOf demoBundle ∅ None) in
  let o := saveEditShot demoBundle (Some 3%Z) (lit "a rooftop at dawn") w in
  (exists sb',
     storyboard (app (world o)) = Some sb'
     /\ length (StoryboardData.script sb') = 8%nat)
  /\ world (saveEditShot demoBundle (Some 9%Z) (lit "a rooftop at dawn") w) = w.
Proof.
  intros w o. subst o. split.
  - destruct (X17_save_edit_shot demoBundle 3 (lit "a rooftop at dawn") w eq_refl)
      as (_ & (sb' & Hsb' & _ & _ & Hlen & _) & _).
    exists sb'. split; [exact Hsb' | exact Hlen].
  - destruct (X17_save_edit_shot demoBundle 9 (lit "a rooftop at dawn") w eq_refl)
      as (_ & _ & Hnone & _).
    apply Hnone. intros s Hs. apply list_elem_of_In in Hs. vm_compute in Hs.
    repeat (destruct Hs as [<- | Hs]; [discriminate|]). destruct Hs.
Defined.

(** ** Handlers that call the service *)


Lemma tryCatch_bind {A B} (m : M A) (k : A -> M B) (h : JsError -> M B) (w : World) :
  tryCatch (bind m k) h w
  = match res (m w) with
    | Ok x => after (events (m w)) (tryCatch (k x) h (world (m w)))
    | Throw e => after (events (m w)) (h e (world (m w)))
    end.
Proof.
  unfold tryCatch, bind. destruct (res (m w)) as [x|e]; [|done].
  cbn [after res world events].
  destruct (res (k x (world (m w)))) as [y|e]; [done|].
  unfold after. cbn. by rewrite app_assoc.
Qed.


Lemma ServiceOnly_refinePrompt (currentPrompts : option JSON) (instruction modelName : jstr)
    (targetField : option jstr) :
  ServiceOnly (refinePrompt currentPrompts instruction modelName targetField).
Proof.
  apply ServiceOnly_bind; [apply ServiceOnly_safeGenerateContent|].
  intros r. apply ServiceOnly_parseOrThrow.
Qed.

Lemma ServiceOnly_parseDocumentToScript (base64Data mimeType : jstr) (shotCount : Z) :
  ServiceOnly (parseDocumentToScript base64Data mimeType shotCount).
Proof.
  apply ServiceOnly_bind; [apply ServiceOnly_safeGenerateContent|].
  intros r. apply ServiceOnly_parseOrThrow.
Qed.

Lemma ServiceOnly_refineStoryboardScript (currentScript : list Shot.t)
    (instruction modelName : jstr) :
  ServiceOnly (refineStoryboardScript currentScript instruction modelName).
Proof.
  apply ServiceOnly_bind; [apply ServiceOnly_safeGenerateContent|].
  intros r. destruct (JSON_parse _) as [[]|]; apply ServiceOnly_ret || apply ServiceOnly_throw.
Qed.

Lemma ServiceOnly_generateIdeaFromMedia (mediaItems : list MediaPart) :
  ServiceOnly (generateIdeaFromMedia mediaItems).
Proof.
  apply ServiceOnly_bind; [apply ServiceOnly_safeGenerateContent|].
  intros r. apply ServiceOnly_ret.
Qed.

Lemma ServiceOnly_generatePromptFromImage (base64Image : jstr) (type : SettingType) :
  ServiceOnly (generatePromptFromImage base64Image type).
Proof.
  apply ServiceOnly_bind; [apply ServiceOnly_safeGenerateContent|].
  intros r. apply ServiceOnly_ret.
Qed.



(** ** Submitting an idea *)



(** ** Importing a project file *)

Lemma handleScriptUpload_run (asStoryboard : JSON -> StoryboardData.t)
    (asPrompts : JSON -> gmap Z JSON) (data : JSON) (w : World) :
  data <> JNull ->
  let o := handleScriptUpload asStoryboard asPrompts data w in
  res o = Ok tt
  /\ events o = [EvSetAppState REVIEW_STORYBOARD]
  /\ appState (app (world o)) = REVIEW_STORYBOARD
  /\ error (app (world o)) = None
  /\ currentGroupId (app (world o)) = currentGroupId (app w)
  /\ selectedModel (app (world o)) = selectedModel (app w)
  /\ (forall s p,
        getField data (lit "storyboard") = Some s ->
        getField data (lit "prompts") = Some p ->
        truthy s = true -> truthy p = true ->
        storyboard (app (world o)) = Some (asStoryboard s)
        /\ prompts (app (world o)) = asPrompts p)
  /\ (truthyOpt (getField data (lit "storyboard"))
      && truthyOpt (getField data (lit "prompts")) = false ->
      storyboard (app (world o)) = asBundle asStoryboard data
      /\ prompts (app (world o)) = ∅).
Proof.
  intros Hnull o. subst o. unfold handleScriptUpload.
  assert (forall m : M unit,
            match data with JNull => throw TypeError | _ => m end = m) as Hm
    by (intros m; by destruct data).
  rewrite Hm. clear Hm.
  destruct (getField data (lit "storyboard")) as [s|];
    [destruct (getField data (lit "prompts")) as [p|];
     [destruct (truthy s) eqn:Hs; destruct (truthy p) eqn:Hp|]|];
    cbn; repeat split; try done; intros; simplify_eq; cbn in *;
    unfold asBundle; rewrite ?Hs, ?Hp in *; cbn in *; congruence.
Qed.

(** X19.  Importing a project file.  A text that does not parse, and the
    text null, give the alert of an invalid file; a value that is not an
    object, and an object that is neither a bare bundle (script, groups
    and settings present) nor a wrapper (a storyboard with a script),
    give the alert of a wrong format; in all these cases nothing changes.
    An accepted object is loaded into the phase of reviewing the script
    with the error message cleared and without any upstream call: when
    both its storyboard and its prompts are present they become the
    bundle and the results, and otherwise the whole object becomes the
    bundle, with no results, also when it is a wrapper without
    prompts. *)
Theorem X19_project_file (asStoryboard : JSON -> StoryboardData.t)
    (asPrompts : JSON -> gmap Z JSON) (content : jstr) (w : World) :
  let o := loadProjectJson asStoryboard asPrompts content w in
  (forall e, JSON_parse content = Throw e -> o = mkOut (Ok InvalidJson) w [])
  /\ (JSON_parse content = Ok JNull -> o = mkOut (Ok InvalidJson) w [])
  /\ (forall json,
        JSON_parse content = Ok json -> json <> JNull -> (forall ms, json <> JObject ms) ->
        o = mkOut (Ok WrongFormat) w [])
  /\ (forall ms,
        JSON_parse content = Ok (JObject ms) ->
        (bareBundle ms || wrappedBundle ms = false -> o = mkOut (Ok WrongFormat) w [])
        /\ (bareBundle ms || wrappedBundle ms = true ->
            res o = Ok Loaded
            /\ events o = [EvSetAppState REVIEW_STORYBOARD]
            /\ appState (app (world o)) = REVIEW_STORYBOARD
            /\ error (app (world o)) = None
            /\ currentGroupId (app (world o)) = currentGroupId (app w)
            /\ (forall s p,
                  objGet ms (lit "storyboard") = Some s ->
                  objGet ms (lit "prompts") = Some p ->
                  truthy s = true -> truthy p = true ->
                  storyboard (app (world o)) = Some (asStoryboard s)
                  /\ prompts (app (world o)) = asPrompts p)
            /\ (has ms "storyboard" && has ms "prompts" = false ->
                storyboard (app (world o)) = Some (asStoryboard (JObject ms))
                /\ prompts (app (world o)) = ∅))).
Proof.
  intros o. subst o. unfold loadProjectJson.
  split; [|split; [|split]].
  - intros e He. unfold tryCatch. by rewrite He.
  - intros He. unfold tryCatch. by rewrite He.
  - intros json He Hnull Hobj. unfold tryCatch. rewrite He.
    destruct json; try done. by destruct (Hobj ms).
  - intros ms He. rewrite He.
    change (acceptsProject (JObject ms)) with (Ok (A := bool) (bareBundle ms || wrappedBundle ms)).
    split; intros Hacc; rewrite Hacc; [done|].
    destruct (handleScriptUpload_run asStoryboard asPrompts (JObject ms) w)
      as (Hres & Hev & Hst & Herr & Hcur & _ & Hboth & Hwhole); [done|].
    rewrite (tryCatch_Ok _ _ _ Loaded) by (by rewrite (bind_Ok _ _ _ tt)).
    rewrite (bind_Ok _ _ _ tt) by done.
    cbn [after ret res world events]. rewrite Hev.
    split; [done|]. split; [done|]. split; [done|]. split; [done|]. split; [done|].
    split; [exact Hboth | exact Hwhole].
Qed.

Lemma X19_witness :
  let w := worldOf firstAnswerBroken idleApp in
  let wrapper := qlit "{'storyboard': {'script': []}, 'meta': 1}" in
  let o := loadProjectJson (fun _ => emptyBundle) (fun _ => bothPrompts) wrapper w in
  res o = Ok Loaded
  /\ prompts (app (world o)) = ∅
  /\ loadProjectJson (fun _ => emptyBundle) (fun _ => bothPrompts) (lit "[1, 2]") w
     = mkOut (Ok WrongFormat) w [].
Proof.
  intros w wrapper o. subst o. split; [|split].
  - destruct (X19_project_file (fun _ => emptyBundle) (fun _ => bothPrompts) wrapper w)
      as (_ & _ & _ & Hobj).
    destruct (Hobj [(lit "storyboard", JObject [(lit "script", JArray [])]);
                    (lit "meta", JNumber (lit "1"))] eq_refl) as (_ & Hacc).
    destruct (Hacc eq_refl) as (Hres & _). exact Hres.
  - destruct (X19_project_file (fun _ => emptyBundle) (fun _ => bothPrompts) wrapper w)
      as (_ & _ & _ & Hobj).
    destruct (Hobj [(lit "storyboard", JObject [(lit "script", JArray [])]);
                    (lit "meta", JNumber (lit "1"))] eq_refl) as (_ & Hacc).
    destruct (Hacc eq_refl) as (_ & _ & _ & _ & _ & _ & Hwhole).
    destruct (Hwhole eq_refl) as (_ & Hp). exact Hp.
  - destruct (X19_project_file (fun _ => emptyBundle) (fun _ => bothPrompts)
                (lit "[1, 2]") w) as (_ & _ & Hother & _).
    apply (Hother (JArray [JNumber (lit "1"); JNumber (lit "2")]));
      [reflexivity | discriminate | discriminate].
Defined.

(** ** Importing a document *)

(** X20.  Importing a PDF or text document puts no check on the parsed
    script, unlike the import of a project file: every parsed value
    other than null is loaded into the phase of reviewing the script,
    and a value without a storyboard member, an object or not, becomes
    the bundle as it is (no bundle, if it is falsy), with no results.
    The value null fails inside
    the upload and, like a failure of the parsing call, gives the alert
    of a failed document with the application state unchanged. *)
Theorem X20_document_import (asStoryboard : JSON -> StoryboardData.t)
    (asPrompts : JSON -> gmap Z JSON) (base64String : jstr) (isPdf : bool)
    (shotCount : Z) (w : World) :
  let parse := parseDocumentToScript base64String
                 (if isPdf then lit "application/pdf" else lit "text/plain") shotCount w in
  let o := loadDocument asStoryboard asPrompts base64String isPdf shotCount w in
  (forall e, res parse = Throw e ->
     res o = Ok DocumentFailed /\ app (world o) = app w /\ events o = events parse)
  /\ (res parse = Ok JNull ->
      res o = Ok DocumentFailed /\ app (world o) = app w /\ events o = events parse)
  /\ (forall v, res parse = Ok v -> v <> JNull ->
        res o = Ok Loaded
        /\ events o = events parse ++ [EvSetAppState REVIEW_STORYBOARD]
        /\ appState (app (world o)) = REVIEW_STORYBOARD
        /\ error (app (world o)) = None
        /\ (getField v (lit "storyboard") = None ->
            storyboard (app (world o)) = asBundle asStoryboard v
            /\ prompts (app (world o)) = ∅)).
Proof.
  intros parse o. subst o. unfold loadDocument. cbv zeta. rewrite tryCatch_bind.
  fold parse.
  pose proof (ServiceOnly_app _ w
                (ServiceOnly_parseDocumentToScript base64String
                   (if isPdf then lit "application/pdf" else lit "text/plain") shotCount))
    as Happ.
  fold parse in Happ.
  split; [|split].
  - intros e He. rewrite He. cbn. by rewrite app_nil_r.
  - intros He. rewrite He. cbn. by rewrite app_nil_r.
  - intros v He Hnull. rewrite He.
    destruct (handleScriptUpload_run asStoryboard asPrompts v (world parse) Hnull)
      as (Hres & Hev & Hst & Herr & _ & _ & _ & Hwhole).
    rewrite (tryCatch_Ok _ _ _ Loaded) by (by rewrite (bind_Ok _ _ _ tt)).
    rewrite (bind_Ok _ _ _ tt) by done.
    cbn [after ret res world events]. rewrite Hev, app_nil_r.
    split; [done|]. split; [done|]. split; [done|]. split; [done|].
    intros Hno. apply Hwhole. by rewrite Hno.
Qed.

Lemma X20_witness :
  let w := worldOf (fun _ => Ok (mkResponse None)) idleApp in
  let o := loadDocument (fun _ => emptyBundle) (fun _ => bothPrompts)
             (lit "JVBERi0=") true 12 w in
  res o = Ok Loaded
  /\ storyboard (app (world o)) = Some emptyBundle
  /\ res (loadProjectJson (fun _ => emptyBundle) (fun _ => bothPrompts) (lit "{}") w)
     = Ok WrongFormat.
Proof.
  intros w o. subst o.
  destruct (X20_document_import (fun _ => emptyBundle) (fun _ => bothPrompts)
              (lit "JVBERi0=") true 12 w) as (_ & _ & Hok).
  destruct (Hok (JObject []) eq_refl) as (Hres & _ & _ & _ & Hwhole); [discriminate|].
  destruct (Hwhole eq_refl) as (Hsb & _).
  split; [exact Hres|]. split; [exact Hsb | reflexivity].
Defined.

(** ** Refining the prompts of a group *)

(** X21.  Refining the prompts of the selected group with its result [p].
    When the refinement succeeds, whatever it returns becomes the
    imagePrompts of the group's result, as a whole and unchecked: the
    other members of the result and the results of the other groups are
    unchanged, and the former imagePrompts are not merged in, so that a
    response without text leaves the empty object in their place.  When
    it fails the application state is unchanged.  The handler itself
    never fails, and it calls the selected model. *)
Theorem X21_refine_prompts (instruction : jstr) (field : option jstr) (g : Z) (p : JSON)
    (w : World) :
  currentGroupId (app w) = Some g -> g <> 0%Z ->
  prompts (app w) !! g = Some p -> truthy p = true ->
  let gen := refinePrompt (get_imagePrompts p) instruction (selectedModel (app w)) field w in
  let o := handleAIRefine instruction field w in
  res o = Ok tt
  /\ events o = events (safeGenerateContent (selectedModel (app w)) w)
  /\ (forall v,
        res gen = Ok v ->
        prompts (app (world o))
        = <[g := JObject (objSet (spread (Some p)) (lit "imagePrompts") v)]> (prompts (app w))
        /\ (forall g', g' <> g -> prompts (app (world o)) !! g' = prompts (app w) !! g')
        /\ exists ms',
             prompts (app (world o)) !! g = Some (JObject ms')
             /\ objGet ms' (lit "imagePrompts") = Some v
             /\ forall k, k <> lit "imagePrompts" ->
                          objGet ms' k = objGet (spread (Some p)) k)
  /\ (forall e, res gen = Throw e -> app (world o) = app w)
  /\ (forall r,
        res (safeGenerateContent (selectedModel (app w)) w) = Ok r -> emptyText r ->
        res gen = Ok (JObject [])).
Proof.
  intros Hcur Hg Hp Ht gen o.
  assert (o = tryCatch
                (bind (refinePrompt (get_imagePrompts p) instruction
                         (selectedModel (app w)) field)
                      (fun updatedImagePrompts =>
                         handleUpdatePromptData g updatedImagePrompts))
                (fun _ => ret tt) w) as ->.
  { subst o. unfold handleAIRefine. rewrite Hcur. cbn [truthyId].
    replace (g =? 0)%Z with false by (symmetry; by apply Z.eqb_neq).
    cbn [negb andb]. by rewrite Hp, Ht. }
  rewrite tryCatch_bind. fold gen.
  pose proof (ServiceOnly_app _ w
                (ServiceOnly_refinePrompt (get_imagePrompts p) instruction
                   (selectedModel (app w)) field)) as Happ.
  fold gen in Happ.
  destruct (parse_site "Failed to parse refined prompt JSON" (selectedModel (app w)) w)
    as (Hev & _ & Hres).
  cbv zeta in Hev, Hres. fold (refinePrompt (get_imagePrompts p) instruction
                                 (selectedModel (app w)) field) in Hev, Hres.
  fold gen in Hev, Hres.
  split; [by destruct (res gen)|].
  split; [destruct (res gen); cbn; by rewrite app_nil_r, Hev|].
  split; [|split].
  - intros v Hv. rewrite Hv.
    assert (prompts (app (world (after (events gen)
              (tryCatch (handleUpdatePromptData g v) (fun _ => ret tt) (world gen)))))
            = <[g := JObject (objSet (spread (Some p)) (lit "imagePrompts") v)]>
                (prompts (app w))) as Hnew.
    { cbn. by rewrite Happ, Hp. }
    split; [done|]. rewrite Hnew. split.
    + intros g' Hne. by rewrite lookup_insert_ne.
    + eexists. rewrite lookup_insert_eq. split; [done|].
      split; [apply objGet_objSet_eq|].
      intros k Hk. by apply objGet_objSet_ne.
  - intros e He. rewrite He. cbn. done.
  - intros r Hr He. rewrite Hres, Hr.
    destruct He as [He | He]; by rewrite He.
Qed.

Lemma X21_witness :
  let w := worldOf (fun _ => Ok (mkResponse None))
             (appOf demoBundle (<[1%Z := fullPrompt]> ∅) (Some 1%Z)) in
  let o := handleAIRefine (lit "warmer light") None w in
  exists ms',
    prompts (app (world o)) !! 1%Z = Some (JObject ms')
    /\ objGet ms' (lit "imagePrompts") = Some (JObject [])
    /\ objGet ms' (lit "cameraPrompts") = Some (JString (lit "pan")).
Proof.
  intros w o. subst o.
  destruct (X21_refine_prompts (lit "warmer light") None 1 fullPrompt w)
    as (_ & _ & Hok & _ & Hempty); [reflexivity | discriminate | reflexivity | reflexivity |].
  destruct (Hok (JObject []) (Hempty (mkResponse None) eq_refl (or_introl eq_refl)))
    as (_ & _ & ms' & Hg & Hip & Hrest).
  exists ms'. split; [exact Hg|]. split; [exact Hip|].
  rewrite Hrest; [reflexivity | vm_compute; discriminate].
Defined.

(** ** Inputs and selections that start nothing *)



(** ** Settings from images and scripts from instructions *)

Lemma handleUpdateSetting_storyboard (type : SettingType) (index : Z)
    (field : AIPromptItemField.t) (value : jstr) (sb : StoryboardData.t) (w : World) :
  storyboard (app w) = Some sb ->
  storyboard (app (world (handleUpdateSetting type index field value w)))
  = Some match arrayGet (targetArray type (StoryboardData.settings sb)) index with
         | Some item =>
           with_settings
             (with_targetArray type
                (<[Z.to_nat index := updateItem item field value]>
                   (targetArray type (StoryboardData.settings sb)))
                (StoryboardData.settings sb))
             sb
         | None => sb
         end.
Proof.
  intros Hsb. cbn. rewrite Hsb. cbv zeta.
  destruct (arrayGet (targetArray type (StoryboardData.settings sb)) index); [done|].
  by rewrite with_settings_same.
Qed.

(** X23.  A setting image that was read is described by the service, and
    the description becomes the prompt of the item at the index of the
    array of the given type, the item's name and description and the
    rest of the bundle staying as they were; the description is the
    trimmed text of the response, so a response without text empties the
    prompt.  When the call fails, and when there is no item at the index
    any more, the application state is unchanged.  The handler itself
    never fails and leaves the results alone. *)
Theorem X23_image_gives_prompt (type : SettingType) (index : Z) (base64String : jstr)
    (sb : StoryboardData.t) (w : World) :
  storyboard (app w) = Some sb ->
  let items := targetArray type (StoryboardData.settings sb) in
  let gen := generatePromptFromImage base64String type w in
  let o := imageUploaded type index base64String w in
  res o = Ok tt
  /\ events o = events gen
  /\ prompts (app (world o)) = prompts (app w)
  /\ (forall e, res gen = Throw e -> app (world o) = app w)
  /\ (forall d,
        res gen = Ok d ->
        (forall item,
           arrayGet items index = Some item ->
           exists sb',
             storyboard (app (world o)) = Some sb'
             /\ sameBut type sb sb'
             /\ targetArray type (StoryboardData.settings sb')
                = <[Z.to_nat index := updateItem item AIPromptItemField.prompt d]> items)
        /\ (arrayGet items index = None -> app (world o) = app w))
  /\ (forall r,
        res (safeGenerateContent (lit "gemini-3-flash-preview") w) = Ok r ->
        res gen = Ok (trimmedTextOrEmpty (text r))).
Proof.
  intros Hsb items gen o. subst o. unfold imageUploaded. rewrite tryCatch_bind.
  fold gen.
  pose proof (ServiceOnly_app _ w (ServiceOnly_generatePromptFromImage base64String type))
    as Happ.
  fold gen in Happ.
  destruct (trimmed_text_run w) as (_ & _ & Hres). cbv zeta in Hres.
  fold (generatePromptFromImage base64String type) in Hres. fold gen in Hres.
  assert (storyboard (app (world gen)) = Some sb) as Hsb1 by (by rewrite Happ).
  destruct (res gen) as [d|e] eqn:Hgen.
  - destruct (setStoryboard_edits
                (fun prev =>
                   match prev with
                   | None => None
                   | Some prev =>
                     let newSettings := StoryboardData.settings prev in
                     match arrayGet (targetArray type newSettings) index with
                     | Some item =>
                       Some (with_settings
                               (with_targetArray type
                                  (<[Z.to_nat index := updateItem item AIPromptItemField.prompt d]>
                                     (targetArray type newSettings))
                                  newSettings)
                               prev)
                     | None => Some (with_settings newSettings prev)
                     end
                   end) (world gen))
      as ((Hok & Hev & Hp & _) & _).
    pose proof (handleUpdateSetting_storyboard type index AIPromptItemField.prompt d sb
                  (world gen) Hsb1) as Hst.
    fold items in Hst.
    rewrite (tryCatch_Ok _ _ _ tt) by done.
    cbn [after res world events].
    split; [done|]. split; [by rewrite app_nil_r|]. split; [by rewrite <- Happ|].
    split; [done|]. split.
    + intros d' [= <-]. split.
      * intros item Hitem. rewrite Hitem in Hst. eexists. split; [exact Hst|].
        split; [apply sameBut_with|]. apply targetArray_edit.
      * intros Hnone. rewrite <- Happ. f_equal.
        apply setStoryboard_same. rewrite Hsb1. cbv zeta. fold items. rewrite Hnone.
        by rewrite with_settings_same.
    + intros r Hr. by rewrite Hres, Hr.
  - cbn [after ret res world events]. rewrite app_nil_r.
    repeat split; try done; try (by rewrite Happ).
    intros r Hr. by rewrite Hres, Hr.
Qed.

Lemma X23_witness :
  let w := worldOf (fun _ => Ok (mkResponse None)) (appOf settingsBundle ∅ None) in
  let o := imageUploaded scene 0 (lit "iVBORw0=") w in
  exists sb',
    storyboard (app (world o)) = Some sb'
    /\ StoryboardSettings.scenes (StoryboardData.settings sb')
       = [AIPromptItem.mk (lit "alley") (lit "wet cobblestones") []].
Proof.
  intros w o. subst o.
  destruct (X23_image_gives_prompt scene 0 (lit "iVBORw0=") settingsBundle w eq_refl)
    as (_ & _ & _ & _ & Hok & Htext).
  destruct (Hok [] (Htext (mkResponse None) eq_refl)) as (Hin & _).
  destruct (Hin (AIPromptItem.mk (lit "alley") (lit "wet cobblestones") (lit "neon signs"))
              eq_refl)
    as (sb' & Hsb' & _ & Harr).
  exists sb'. split; [exact Hsb'|].
  change (StoryboardSettings.scenes (StoryboardData.settings sb'))
    with (targetArray scene (StoryboardData.settings sb')).
  rewrite Harr. reflexivity.
Defined.

(** X24.  Refining the script replaces the script of the bundle by
    whatever the refinement returns, read as a script without a check,
    groups and settings staying as they were; a response without text
    makes the refinement return no script ([undefined]), and that is
    what is passed on as the new script.  When the refinement fails the
    application state is unchanged.  The handler itself never fails and
    leaves the results alone. *)
Theorem X24_script_refine (asScript : option JSON -> list Shot.t)
    (data : StoryboardData.t) (selectedModel finalInstruction : jstr) (w : World) :
  storyboard (app w) = Some data ->
  let gen := refineStoryboardScript (StoryboardData.script data) finalInstruction
               selectedModel w in
  let o := handleScriptRefine asScript data selectedModel finalInstruction w in
  res o = Ok tt
  /\ events o = events (safeGenerateContent selectedModel w)
  /\ prompts (app (world o)) = prompts (app w)
  /\ (forall v, res gen = Ok v ->
        storyboard (app (world o)) = Some (with_script (asScript v) data))
  /\ (forall e, res gen = Throw e -> app (world o) = app w)
  /\ (forall r,
        res (safeGenerateContent selectedModel w) = Ok r -> emptyText r ->
        storyboard (app (world o)) = Some (with_script (asScript None) data)).
Proof.
  intros Hsb gen o. subst o. unfold handleScriptRefine. rewrite tryCatch_bind.
  fold gen.
  pose proof (ServiceOnly_app _ w
                (ServiceOnly_refineStoryboardScript (StoryboardData.script data)
                   finalInstruction selectedModel)) as Happ.
  fold gen in Happ.
  destruct (refineStoryboardScript_run (StoryboardData.script data) finalInstruction
              selectedModel w) as (Hev & _ & Hres).
  cbv zeta in Hev, Hres. fold gen in Hev, Hres.
  assert (forall v, res gen = Ok v ->
            storyboard (app (world (after (events gen)
              (tryCatch (handleUpdateScript (asScript v)) (fun _ => ret tt) (world gen)))))
            = Some (with_script (asScript v) data)) as Hnew.
  { intros v _.
    cbn [after tryCatch handleUpdateScript setStoryboard res world events with_app app
         set_storyboard storyboard].
    by rewrite Happ, Hsb. }
  destruct (res gen) as [v|e] eqn:Hgen.
  - split; [done|].
    split; [cbn [after tryCatch handleUpdateScript setStoryboard res world events];
            rewrite app_nil_r; exact Hev|].
    split; [by cbn [after tryCatch handleUpdateScript setStoryboard res world events
                    with_app app set_storyboard prompts]; rewrite Happ|].
    split; [by intros v' [= <-]; apply Hnew|].
    split; [done|].
    intros r Hr He. rewrite Hr in Hres.
    assert (v = None) as ->.
    { destruct He as [He | He]; rewrite He in Hres;
        change (Ok v = Ok None) in Hres; by simplify_eq. }
    by apply Hnew.
  - cbn [after ret res world events]. rewrite app_nil_r.
    repeat split; try done; try (by rewrite Happ).
    intros r Hr He. rewrite Hr in Hres.
    destruct He as [He | He]; rewrite He in Hres;
      change (Throw e = Ok (@None JSON)) in Hres; done.
Qed.

Lemma X24_witness :
  let w := worldOf (fun _ => Ok (mkResponse None)) (appOf demoBundle bothPrompts None) in
  let o := handleScriptRefine (fun _ => []) demoBundle flash (lit "at night") w in
  storyboard (app (world o)) = Some (with_script [] demoBundle)
  /\ prompts (app (world o)) = bothPrompts.
Proof.
  intros w o. subst o.
  destruct (X24_script_refine (fun _ => []) demoBundle flash (lit "at night") w eq_refl)
    as (_ & _ & Hp & _ & _ & Hempty).
  split; [|exact Hp].
  apply (Hempty (mkResponse None)); [reflexivity | left; reflexivity].
Defined.

(** ** The queue of media *)

Lemma slotSet_in_range {A} (l : list (option A)) (i : nat) (x : option A) :
  (i < length l)%nat -> slotSet l i x = <[i := x]> l.
Proof.
  intros H. unfold slotSet. by replace (i <? length l)%nat with true
    by (symmetry; by apply Nat.ltb_lt).
Qed.

Lemma swap_adjacent {A} (pre post : list (option A)) (x y : option A) :
  let q := pre ++ x :: y :: post in
  slotSet (slotSet q (length pre) (slotGet q (S (length pre)))) (S (length pre))
          (slotGet q (length pre))
  = pre ++ y :: x :: post.
Proof.
  intros q. subst q.
  assert ((pre ++ x :: y :: post) !! length pre = Some x) as Hx
    by (by apply list_lookup_middle).
  assert ((pre ++ x :: y :: post) !! S (length pre) = Some y) as Hy.
  { rewrite lookup_app_r by lia.
    by replace (S (length pre) - length pre)%nat with 1%nat by lia. }
  unfold slotGet. rewrite Hx, Hy.
  rewrite (slotSet_in_range (pre ++ x :: y :: post) (length pre))
    by (rewrite length_app; cbn; lia).
  rewrite slotSet_in_range by (rewrite length_insert, length_app; cbn; lia).
  rewrite !insert_app_r_alt by lia.
  replace (S (length pre) - length pre)%nat with 1%nat by lia.
  by rewrite Nat.sub_diag.
Qed.

(** X25.  Moving an item of the media queue.  Moving the item at a
    position to the right, and moving its right neighbour to the left,
    both exchange the two and leave every other item in its place, so
    that the queue is permuted and moving back restores it.  The first
    item is not moved to the left and the last not to the right.  The
    guard reads the length of the rendered queue: when the queue has
    become too short for the position in the meantime, a move to the
    right extends it by empty slots. *)
Theorem X25_move_media {A} (pre post : list (option A)) (x y : option A) :
  let q := pre ++ x :: y :: post in
  let q' := pre ++ y :: x :: post in
  handleMoveMedia q q (length pre) Direction.right = q'
  /\ handleMoveMedia q q (S (length pre)) Direction.left = q'
  /\ handleMoveMedia q' q' (S (length pre)) Direction.left = q
  /\ q' ≡ₚ q
  /\ handleMoveMedia q q 0 Direction.left = q
  /\ (forall i, (length q - 1 <= i)%nat -> handleMoveMedia q q i Direction.right = q)
  /\ (forall (prev : list (option A)) i,
        (i + 1 < length q)%nat -> (length prev <= i)%nat ->
        handleMoveMedia q prev i Direction.right
        = prev ++ replicate (i + 2 - length prev) None).
Proof.
  intros q q'.
  assert (length q = length pre + 2 + length post)%nat as Hlen
    by (subst q; rewrite length_app; cbn; lia).
  split; [|split; [|split; [|split; [|split; [|split]]]]].
  - unfold handleMoveMedia.
    replace (Z.of_nat (length pre) <? Z.of_nat (length q) - 1)%Z with true
      by (symmetry; apply Z.ltb_lt; lia).
    rewrite Nat.add_1_r. apply swap_adjacent.
  - unfold handleMoveMedia. cbn [Nat.ltb Nat.leb]. rewrite Nat.sub_1_r. cbn [Nat.pred].
    apply swap_adjacent.
  - unfold handleMoveMedia. cbn [Nat.ltb Nat.leb]. rewrite Nat.sub_1_r. cbn [Nat.pred].
    apply (swap_adjacent pre post y x).
  - subst q q'. apply Permutation_app_head, perm_swap.
  - done.
  - intros i Hi. unfold handleMoveMedia.
    replace (Z.of_nat i <? Z.of_nat (length q) - 1)%Z with false; [done|].
    symmetry. apply Z.ltb_ge. lia.
  - intros prev i Hi Hprev. unfold handleMoveMedia.
    replace (Z.of_nat i <? Z.of_nat (length q) - 1)%Z with true
      by (symmetry; apply Z.ltb_lt; lia).
    assert (slotGet prev (i + 1) = None /\ slotGet prev i = None) as [-> ->].
    { unfold slotGet. by rewrite !lookup_ge_None_2 by lia. }
    unfold slotSet at 2.
    replace (i <? length prev)%nat with false by (symmetry; apply Nat.ltb_ge; lia).
    unfold slotSet.
    replace (i + 1 <? length (prev ++ replicate (i - length prev) None ++ [None]))%nat
      with false
      by (symmetry; apply Nat.ltb_ge; rewrite !length_app, length_replicate; cbn; lia).
    rewrite !length_app, length_replicate. cbn [length].
    replace (i + 1 - (length prev + (i - length prev + 1)))%nat with 0%nat by lia.
    cbn [replicate app]. rewrite <- !app_assoc. f_equal.
    replace (i + 2 - length prev)%nat with ((i - length prev) + 2)%nat by lia.
    by rewrite replicate_add.
Qed.

(** ** The analysis of media *)

(** X26.  The analysis of the media queue never fails and never loses
    what was typed: the new text of the input begins with the old one.
    With an empty queue nothing is called.  Otherwise the flash model is
    called once through the retry policy; when that succeeds the label
    and the description are appended, after an empty line unless the
    input was empty, and when it fails the input stays as it was. *)
Theorem X26_analysis_is_appended (mediaItems : list MediaPart) (input : jstr) (w : World) :
  let gen := generateIdeaFromMedia mediaItems w in
  let o := handleAnalyzeBatch mediaItems input w in
  (exists result, res o = Ok result /\ input `prefix_of` result)
  /\ app (world o) = app w
  /\ (mediaItems = [] -> o = ret input w)
  /\ (mediaItems <> [] ->
      events o = events (safeGenerateContent (lit "gemini-3-flash-preview") w)
      /\ (forall e, res gen = Throw e -> res o = Ok input)
      /\ (forall d, res gen = Ok d ->
            res o = Ok (match input with
                        | [] => analysisLabel
                        | _ => input ++ [10; 10] ++ analysisLabel
                        end ++ d))).
Proof.
  intros gen o.
  destruct mediaItems as [|m ms].
  { subst o. cbn [handleAnalyzeBatch]. split; [|done].
    exists input. split; [done|]. by exists []; rewrite app_nil_r. }
  subst o. unfold handleAnalyzeBatch. rewrite tryCatch_bind. fold gen.
  pose proof (ServiceOnly_app _ w (ServiceOnly_generateIdeaFromMedia (m :: ms))) as Happ.
  fold gen in Happ.
  destruct (trimmed_text_run w) as (Hev & _ & _). cbv zeta in Hev.
  fold (generateIdeaFromMedia (m :: ms)) in Hev. fold gen in Hev.
  destruct (res gen) as [d|e] eqn:Hgen;
    cbn [after tryCatch ret res world events]; rewrite app_nil_r.
  - split.
    { eexists. split; [done|]. destruct input as [|c s]; [by exists (analysisLabel ++ d)|].
      exists ([10; 10] ++ analysisLabel ++ d). by rewrite <- !app_assoc. }
    split; [done|]. split; [done|]. intros _.
    split; [done|]. split; [done|]. by intros d' [= <-].
  - split; [exists input; split; [done|]; by exists []; rewrite app_nil_r|].
    split; [done|]. split; [done|]. intros _.
    split; [done|]. split; [done|]. done.
Qed.

Lemma X26_witness :
  let w := worldOf (fun _ => Ok (mkResponse (Some (lit " rain ")))) idleApp in
  res (handleAnalyzeBatch [mkMediaPart (lit "iVBORw0=") (lit "image/png")] (lit "noir") w)
  = Ok (lit "noir" ++ [10; 10] ++ analysisLabel ++ lit "rain").
Proof.
  intros w.
  destruct (X26_analysis_is_appended [mkMediaPart (lit "iVBORw0=") (lit "image/png")]
              (lit "noir") w) as (_ & _ & _ & Hsome).
  destruct Hsome as (_ & _ & Hok); [discriminate|].
  rewrite (Hok (lit "rain") eq_refl). reflexivity.
Defined.

(** ** The selected group after confirming *)

Lemma last_map {A B} (f : A -> B) (l : list A) :
  last (map f l) = option_map f (last l).
Proof.
  induction l as [|x l IH]; [done|]. destruct l as [|y l]; [done|].
  cbn [map] in *. by rewrite !last_cons_cons.
Qed.

(** X27.  The group selected after confirming the script of a bundle
    with groups.  When some groups lack a result, the run it starts
    leaves the last of them selected, whatever was selected before.  When
    none lacks a result, a selected group stays selected and nothing is
    selected anew, and when no group is selected (or the id 0 is) the
    first group of the bundle becomes the selected one. *)
Theorem X27_selection_after_confirming (sb : StoryboardData.t) (w : World) :
  storyboard (app w) = Some sb ->
  StoryboardData.groups sb <> [] ->
  let o := handleConfirmStoryboard w in
  let missing := missingGroups w sb in
  (forall g, last missing = Some g ->
             currentGroupId (app (world o)) = Some (Group.id g)
             /\ last (selectionsOf (events o)) = Some (Some (Group.id g)))
  /\ (missing = [] -> truthyId (currentGroupId (app w)) = true ->
      currentGroupId (app (world o)) = currentGroupId (app w)
      /\ selectionsOf (events o) = [])
  /\ (missing = [] -> truthyId (currentGroupId (app w)) = false ->
      exists first,
        head (StoryboardData.groups sb) = Some first
        /\ currentGroupId (app (world o)) = Some (Group.id first)
        /\ selectionsOf (events o) = [Some (Group.id first)]).
Proof.
  intros Hsb Hne o missing. subst o missing.
  rewrite (handleConfirmStoryboard_eq sb w Hsb Hne).
  split; [|split].
  - intros g Hg. destruct (missingGroups w sb) as [|m ms] eqn:Hm; [done|].
    set (w1 := with_app (set_appState VIEW_PROMPTS) w).
    assert (storyboard (app w1) = Some sb) as Hsb1 by done.
    destruct (runGenerationQueue_run sb (m :: ms) w1 Hsb1)
      as (_ & _ & _ & _ & _ & _ & _ & _ & Hcur).
    destruct (runGenerationQueue_projections sb (m :: ms) w1 Hsb1) as (_ & Hsel & _).
    cbv zeta in Hsel. cbn [after events world].
    split; [by rewrite Hcur; unfold lastId; rewrite Hg|].
    unfold selectionsOf in *. rewrite filterMap_app, Hsel. cbn [filterMap app].
    by rewrite app_nil_l, last_map, Hg.
  - intros -> Ht. rewrite Ht. done.
  - intros -> Ht. rewrite Ht. cbn [negb].
    destruct (StoryboardData.groups sb) as [|first rest]; [done|].
    exists first. done.
Qed.

Lemma X27_witness :
  (let w := worldOf firstAnswerBroken (appOf demoBundle ∅ (Some 1%Z)) in
   currentGroupId (app (world (handleConfirmStoryboard w))) = Some 2%Z)
  /\ (let w := worldOf firstAnswerBroken (appOf demoBundle bothPrompts None) in
      currentGroupId (app (world (handleConfirmStoryboard w))) = Some 1%Z).
Proof.
  split; intros w.
  - destruct (X27_selection_after_confirming demoBundle w eq_refl) as (Hlast & _);
      [discriminate|].
    destruct (Hlast (Group.mk 2 (lit "5-8") (lit "the fugitive escapes")) eq_refl)
      as (Hcur & _).
    exact Hcur.
  - destruct (X27_selection_after_confirming demoBundle w eq_refl) as (_ & _ & Hfirst);
      [discriminate|].
    destruct (Hfirst eq_refl eq_refl) as (first & Hhead & Hcur & _).
    injection Hhead as <-. exact Hcur.
Defined.

(** ** What counts as transient *)

Lemma startsWith_iff (s p : jstr) :
  startsWith s p = true <-> exists post, s = p ++ post.
Proof.
  split.
  - intros H. exists (drop (length p) s). by apply startsWith_split.
  - intros [post ->]. apply startsWith_app.
Qed.

Lemma includes_iff (p : jstr) :
  forall s, includes s p = true <-> exists pre post, s = pre ++ p ++ post.
Proof.
  induction s as [|c s IH]; cbn [includes]; rewrite orb_true_iff, startsWith_iff.
  - split.
    + intros [[post H] | H]; [|discriminate H]. by exists [], post.
    + intros (pre & post & H). left.
      destruct pre as [|c' pre]; [exists post; exact H | discriminate H].
  - rewrite IH. split.
    + intros [[post H] | (pre & post & H)]; [by exists [], post|].
      exists (c :: pre), post. by rewrite H.
    + intros (pre & post & H). destruct pre as [|c' pre].
      * left. exists post. exact H.
      * right. exists pre, post. cbn in H. by simplify_eq.
Qed.

(** X28.  What the retry policy takes for a transient error: one whose
    status or code is 429, or whose message, if there is one, contains
    429, quota or RESOURCE_EXHAUSTED as written (case matters), anywhere
    in it and whatever the status is.  So a message that only says Quota
    is not enough, and a message that mentions quota is, also under
    another status. *)
Theorem X28_what_counts_as_transient (e : JsError) :
  (isQuotaError e = true
   <-> status e = Some 429%Z
       \/ code e = Some 429%Z
       \/ exists m, message e = Some m
                    /\ (mentions m "429" \/ mentions m "quota"
                        \/ mentions m "RESOURCE_EXHAUSTED"))
  /\ isQuotaError (Error "Quota exceeded for this project") = false
  /\ isQuotaError {| status := Some 500%Z; code := None;
                     message := Some (lit "daily quota reached (request 14290)") |} = true.
Proof.
  split; [|done].
  unfold isQuotaError, mentions.
  rewrite !orb_true_iff, !bool_decide_eq_true.
  split.
  - intros [[H | H] | H]; [by left | by right; left |].
    right. right. destruct (message e) as [[|c m]|]; [done| |done].
    exists (c :: m). split; [done|].
    rewrite !orb_true_iff, !includes_iff in H. tauto.
  - intros [H | [H | (m & Hm & H)]]; [by left; left | by left; right |].
    right. rewrite Hm. destruct m as [|c m].
    + destruct H as [(pre & post & H) | [(pre & post & H) | (pre & post & H)]];
        by destruct pre.
    + rewrite !orb_true_iff, !includes_iff. tauto.
Qed.

(** ** Results that count as absent *)

(** X29.  A result that is falsy is stored and still counts as missing.
    When the last successful generation of a group of the bundle in a
    run gives a falsy value (the payload null, false, 0 or the empty
    string), that value is the group's entry after the run, and the
    group is again among those without a result, so that confirming
    starts its generation once more. *)
Theorem X29_falsy_result_counts_as_missing (sb : StoryboardData.t) (work : list Group.t)
    (w : World) (runs1 runs2 : list ItemRun) (r : ItemRun) (v : JSON) :
  storyboard (app w) = Some sb ->
  itemRuns sb (selectedModel (app w)) work w = runs1 ++ r :: runs2 ->
  result r = Ok v -> truthy v = false ->
  (forall r', r' ∈ runs2 -> Group.id (item r') = Group.id (item r) ->
              exists e, result r' = Throw e) ->
  In (item r) (StoryboardData.groups sb) ->
  let o := runGenerationQueue work w in
  prompts (app (world o)) !! Group.id (item r) = Some v
  /\ In (item r) (missingGroups (world o) sb)
  /\ In (Group.id (item r))
        (map fst (shotsPassed (events (handleConfirmStoryboard (world o))))).
Proof.
  intros Hsb Hruns Hres Hv Hlater Hin o.
  destruct (runGenerationQueue_run sb work w Hsb) as (_ & _ & Hp & _ & _ & Hsb' & _).
  cbv zeta in Hp. fold o in Hp, Hsb'. rewrite Hruns in Hp.
  assert (prompts (app (world o)) !! Group.id (item r) = Some v) as Hentry
    by (rewrite Hp; by apply applyRuns_last_success).
  assert (In (item r) (missingGroups (world o) sb)) as Hmissing.
  { unfold missingGroups. apply filter_In. split; [done|]. rewrite Hentry. cbn.
    by rewrite Hv. }
  split; [done|]. split; [done|].
  assert (StoryboardData.groups sb <> []) as Hne by (by destruct (StoryboardData.groups sb)).
  rewrite (handleConfirmStoryboard_eq sb (world o) Hsb' Hne).
  destruct (missingGroups (world o) sb) as [|m ms] eqn:Hm; [done|].
  set (w1 := with_app (set_appState VIEW_PROMPTS) (world o)).
  assert (storyboard (app w1) = Some sb) as Hsb1 by done.
  destruct (runGenerationQueue_projections sb (m :: ms) w1 Hsb1) as (_ & _ & Hshots).
  cbv zeta in Hshots. cbn [after events].
  unfold shotsPassed in *. rewrite filterMap_app, Hshots. cbn [filterMap].
  rewrite app_nil_l, map_map. cbn [fst]. by apply (in_map Group.id) in Hmissing.
Qed.

Lemma X29_witness :
  let w := worldOf (fun _ => Ok (mkResponse (Some (lit "null")))) (appOf demoBundle ∅ None) in
  let o := handleRegenerateGroup 2 w in
  prompts (app (world o)) !! 2%Z = Some JNull
  /\ In 2%Z (map fst (shotsPassed (events (handleConfirmStoryboard (world o))))).
Proof.
  intros w o. subst o.
  destruct (X29_falsy_result_counts_as_missing demoBundle
              [Group.mk 2 (lit "5-8") (lit "the fugitive escapes")] w []
              [] (mkItemRun (Group.mk 2 (lit "5-8") (lit "the fugitive escapes")) (Ok JNull)
                    [EvGeneratePromptsForGroup 2 (lit "the fugitive escapes")
                       (map demoShot [5; 6; 7; 8]%Z) noSettings flash;
                     EvGenerateContent flash]) JNull)
    as (Hentry & _ & Hagain);
    [reflexivity | reflexivity | reflexivity | reflexivity
     | intros r' Hr'; by apply elem_of_nil in Hr'
     | right; left; reflexivity |].
  split; [exact Hentry | exact Hagain].
Defined.
